(** * code-inspector-backend: the analysis pipeline and the finding toggles

    A shallow embedding of
      - the analysis handlers ([analyzeCode], [startAnalysis],
        [getAnalysisResults], [exportAnalysis]) and
      - the issue handlers ([verifyIssueOwnership], [getIssue],
        [resolveIssue], [markFalsePositive], [bulkUpdateIssues])
    together with the pieces of the JavaScript platform they run on:
    strings as sequences of UTF-16 code units, the backtracking regular
    expression matcher behind [String.prototype.match], [JSON.parse], the
    zod schema [VulnerabilityDetectionSchema] and the relational tables of
    the drizzle schema.

    Numbers: a JavaScript number is modelled by the exact rational it
    denotes ([Q]).  Every value the handlers compute themselves (counts,
    multiples of one half below ten) is exactly representable as a double,
    so nothing is lost there; a JSON literal is read as the rational it
    spells. *)

From Stdlib Require Import List NArith ZArith QArith Qminmax String Ascii Bool
  Lia Lqa.
From Stdlib Require Import Qround Permutation Sorted.
Import ListNotations.

Set Implicit Arguments.
Set Warnings "-register-all".

(* ================================================================== *)
(** * JavaScript strings *)
(* ================================================================== *)

(** A JavaScript string is a sequence of 16-bit code units. *)
Definition jsstring := list N.

(** Literals are written [js "..."]. *)
Definition js (s : string) : jsstring :=
  map N_of_ascii (list_ascii_of_string s).
Arguments js s%_string.

Module JsString.

Definition t := jsstring.

Fixpoint eqb (a b : t) : bool :=
  match a, b with
  | [], [] => true
  | x :: a', y :: b' => N.eqb x y && eqb a' b'
  | _, _ => false
  end.

(** [s.startsWith(p)] *)
Fixpoint startsWith (s p : t) {struct p} : bool :=
  match p, s with
  | [], _ => true
  | x :: p', y :: s' => N.eqb x y && startsWith s' p'
  | _ :: _, [] => false
  end.

(** [s.substring(n)] for [n] within bounds *)
Definition substring (n : nat) (s : t) : t := skipn n s.

(** [!s]: the empty string is the only falsy string. *)
Definition falsy (s : t) : bool :=
  match s with [] => true | _ :: _ => false end.

Definition includes (l : list t) (s : t) : bool := existsb (eqb s) l.

(** [l.join(sep)] *)
Fixpoint join (sep : t) (l : list t) : t :=
  match l with
  | [] => []
  | [x] => x
  | x :: rest => x ++ sep ++ join sep rest
  end.

End JsString.

(** Code units the program names. *)
Definition c_lbrace : N := 123.
Definition c_rbrace : N := 125.
Definition c_newline : N := 10.

(* ================================================================== *)
(** * Regular expressions, as [String.prototype.match] runs them *)
(* ================================================================== *)

Module Regex.

(** The fragment of the pattern language the two patterns of
    [analyzeCode] use.  Quantifiers are applied to character classes
    only, as they are in the source. *)
Inductive t : Type :=
| Eps
| Chr (p : N -> bool)
| Seq (r1 r2 : t)
| Opt (r : t)                       (* (?:r)?   greedy *)
| Star (greedy : bool) (p : N -> bool)   (* p*  and  p*?  *)
| Group (r : t).                    (* ( r )    capture group 1 *)

Definition lit1 (c : N) : t := Chr (N.eqb c).

Fixpoint lit (s : jsstring) : t :=
  match s with
  | [] => Eps
  | c :: s' => Seq (lit1 c) (lit s')
  end.

(** [\s]: WhiteSpace and LineTerminator code units *)
Definition is_space (c : N) : bool :=
  (N.eqb c 9 || N.eqb c 10 || N.eqb c 11 || N.eqb c 12 || N.eqb c 13
   || N.eqb c 32 || N.eqb c 160 || N.eqb c 5760
   || (N.leb 8192 c && N.leb c 8202)
   || N.eqb c 8232 || N.eqb c 8233 || N.eqb c 8239 || N.eqb c 8287
   || N.eqb c 12288 || N.eqb c 65279)%bool.

(** [[\s\S]] *)
Definition any (c : N) : bool := is_space c || negb (is_space c).

Section Matcher.
Variable A : Type.

(** Greedy repetition: consume as long as possible, give back one
    code unit at a time while the continuation fails. *)
Fixpoint star_greedy (p : N -> bool) (s : jsstring)
         (k : jsstring -> option A) : option A :=
  match s with
  | c :: s' =>
      if p c then
        match star_greedy p s' k with
        | Some r => Some r
        | None => k s
        end
      else k s
  | [] => k s
  end.

(** Lazy repetition: try the continuation first, consume one more
    code unit each time it fails. *)
Fixpoint star_lazy (p : N -> bool) (s : jsstring)
         (k : jsstring -> option A) : option A :=
  match k s with
  | Some r => Some r
  | None =>
      match s with
      | c :: s' => if p c then star_lazy p s' k else None
      | [] => None
      end
  end.

(** The matcher in continuation-passing style: [run r s cap k]
    matches [r] at the front of [s] and hands the rest of the input
    and the capture to [k]; a failing continuation makes the matcher
    backtrack. *)
Fixpoint run (r : t) (s : jsstring) (cap : option jsstring)
         (k : jsstring -> option jsstring -> option A) : option A :=
  match r with
  | Eps => k s cap
  | Chr p =>
      match s with
      | c :: s' => if p c then k s' cap else None
      | [] => None
      end
  | Seq r1 r2 => run r1 s cap (fun s1 cap1 => run r2 s1 cap1 k)
  | Opt r1 =>
      match run r1 s cap k with
      | Some x => Some x
      | None => k s cap
      end
  | Star true p => star_greedy p s (fun s' => k s' cap)
  | Star false p => star_lazy p s (fun s' => k s' cap)
  | Group r1 =>
      run r1 s cap
          (fun s' _ => k s' (Some (firstn (List.length s - List.length s') s)))
  end.
End Matcher.

(** What [match] returns: element 0 (the matched text) and element 1
    (the capture group, [undefined] when it took no part). *)
Record result := { whole : jsstring; group1 : option jsstring }.

Definition exec_at (r : t) (s : jsstring) : option result :=
  run r s None
      (fun s' cap =>
         Some {| whole := firstn (List.length s - List.length s') s; group1 := cap |}).

(** [text.match(r)] for a pattern without flags: the leftmost start
    position at which the matcher succeeds. *)
Fixpoint str_match (r : t) (s : jsstring) : option result :=
  match exec_at r s with
  | Some m => Some m
  | None =>
      match s with
      | [] => None
      | _ :: s' => str_match r s'
      end
  end.

End Regex.

(** [/```(?:json)?\s*(\{[\s\S]*?\})\s*```/] *)
Definition codeBlockRegex : Regex.t :=
  Regex.Seq (Regex.lit (js "```"))
   (Regex.Seq (Regex.Opt (Regex.lit (js "json")))
    (Regex.Seq (Regex.Star true Regex.is_space)
     (Regex.Seq (Regex.Group
                   (Regex.Seq (Regex.lit1 c_lbrace)
                     (Regex.Seq (Regex.Star false Regex.any)
                                (Regex.lit1 c_rbrace))))
      (Regex.Seq (Regex.Star true Regex.is_space)
                 (Regex.lit (js "```")))))).

(** [/\{[\s\S]*\}/] *)
Definition jsonRegex : Regex.t :=
  Regex.Seq (Regex.lit1 c_lbrace)
   (Regex.Seq (Regex.Star true Regex.any) (Regex.lit1 c_rbrace)).

(** The candidate payload of [analyzeCode]:
<<
    let jsonText = '';
    const codeBlockMatch = text.match(/```(?:json)?\s*(\{[\s\S]*?\})\s*```/);
    if (codeBlockMatch) { jsonText = codeBlockMatch[1]; }
    else { const jsonMatch = text.match(/\{[\s\S]*\}/);
           if (jsonMatch) { jsonText = jsonMatch[0]; } }
>> *)
Definition extractJsonText (text : jsstring) : jsstring :=
  match Regex.str_match codeBlockRegex text with
  | Some codeBlockMatch =>
      match Regex.group1 codeBlockMatch with
      | Some g => g
      | None => []
      end
  | None =>
      match Regex.str_match jsonRegex text with
      | Some jsonMatch => Regex.whole jsonMatch
      | None => []
      end
  end.

Definition nl : jsstring := [c_newline].

(* ================================================================== *)
(** * Exceptions *)
(* ================================================================== *)

(** What the embedded code can throw: the reasoning client
    ([UpstreamError]), [JSON.parse] ([SyntaxError]), a zod schema
    ([ZodError]) and the store on a violated constraint
    ([ConstraintError]). *)
Inductive Exn : Type :=
| UpstreamError
| SyntaxError
| ZodError
| ConstraintError.

Inductive Result (A : Type) : Type :=
| Ok (a : A)
| Throw (e : Exn).
Arguments Ok {A} a.
Arguments Throw {A} e.

Definition rbind {A B} (m : Result A) (f : A -> Result B) : Result B :=
  match m with
  | Ok a => f a
  | Throw e => Throw e
  end.

(** [try { body } catch (e) { handler }] *)
Definition rcatch {A} (body : Result A) (handler : Exn -> Result A)
  : Result A :=
  match body with
  | Ok a => Ok a
  | Throw e => handler e
  end.

Declare Scope result_scope.
Delimit Scope result_scope with result.
Notation "x <-- m ;; k" := (rbind m (fun x => k))
  (at level 100, m at next level, right associativity) : result_scope.

(* ================================================================== *)
(** * JSON.parse *)
(* ================================================================== *)

Module Json.

Inductive value : Type :=
| Null
| Bool (b : bool)
| Num (q : Q)
| Str (s : jsstring)
| Arr (l : list value)
| Obj (members : list (jsstring * value)).

(** Property lookup on a parsed object: a key given twice keeps its
    last value. *)
Fixpoint get (k : jsstring) (members : list (jsstring * value))
  : option value :=
  match members with
  | [] => None
  | (k', v) :: rest =>
      match get k rest with
      | Some v' => Some v'
      | None => if JsString.eqb k k' then Some v else None
      end
  end.

(** JSON white space: space, tab, line feed, carriage return. *)
Definition is_ws (c : N) : bool :=
  (N.eqb c 32 || N.eqb c 9 || N.eqb c 10 || N.eqb c 13)%bool.

Fixpoint skip_ws (s : jsstring) : jsstring :=
  match s with
  | c :: s' => if is_ws c then skip_ws s' else s
  | [] => []
  end.

Definition digit (c : N) : option N :=
  if (N.leb 48 c && N.leb c 57)%bool then Some (c - 48)%N else None.

Definition hex (c : N) : option N :=
  if (N.leb 48 c && N.leb c 57)%bool then Some (c - 48)%N
  else if (N.leb 97 c && N.leb c 102)%bool then Some (c - 87)%N
  else if (N.leb 65 c && N.leb c 70)%bool then Some (c - 55)%N
  else None.

(** A run of decimal digits: its value on top of [acc], how many
    there were, and the rest of the input. *)
Fixpoint digits (s : jsstring) (acc : N) (n : nat) : N * nat * jsstring :=
  match s with
  | c :: s' =>
      match digit c with
      | Some d => digits s' (acc * 10 + d)%N (S n)
      | None => (acc, n, s)
      end
  | [] => (acc, n, s)
  end.

(** [m * 10 ^ e] *)
Definition scale10 (m : Z) (e : Z) : Q :=
  if (0 <=? e)%Z then inject_Z (m * 10 ^ e)
  else Qmake m (Z.to_pos (10 ^ (- e))).

(** A number literal: an optional minus sign, an integer part (a
    single zero, or digits not starting with zero), an optional
    fraction and an optional exponent. *)
Definition number (s : jsstring) : option (Q * jsstring) :=
  let (neg, s0) :=
    match s with
    | c :: s' => if N.eqb c 45 then (true, s') else (false, s)
    | [] => (false, s)
    end in
  let int_part :=
    match s0 with
    | c :: s' =>
        if N.eqb c 48 then Some (0%N, s')
        else match digits s0 0 0 with
             | (_, O, _) => None
             | (v, S _, r) => Some (v, r)
             end
    | [] => None
    end in
  match int_part with
  | None => None
  | Some (iv, s1) =>
      let frac_part :=
        match s1 with
        | c :: s' =>
            if N.eqb c 46 then
              match digits s' iv 0 with
              | (_, O, _) => None
              | (v, S n, r) => Some (v, S n, r)
              end
            else Some (iv, O, s1)
        | [] => Some (iv, O, s1)
        end in
      match frac_part with
      | None => None
      | Some (mant, nfrac, s2) =>
          let exp_part :=
            match s2 with
            | c :: s' =>
                if (N.eqb c 101 || N.eqb c 69)%bool then
                  let (eneg, s3) :=
                    match s' with
                    | c' :: s'' =>
                        if N.eqb c' 45 then (true, s'')
                        else if N.eqb c' 43 then (false, s'')
                        else (false, s')
                    | [] => (false, s')
                    end in
                  match digits s3 0 0 with
                  | (_, O, _) => None
                  | (v, S _, r) =>
                      Some ((if eneg then - Z.of_N v else Z.of_N v)%Z, r)
                  end
                else Some (0%Z, s2)
            | [] => Some (0%Z, s2)
            end in
          match exp_part with
          | None => None
          | Some (e, s4) =>
              let m := (if neg then - Z.of_N mant else Z.of_N mant)%Z in
              Some (scale10 m (e - Z.of_nat nfrac), s4)
          end
      end
  end.

(** The characters of a string literal after its opening quote, up to
    the closing quote; [acc] holds what was read, reversed. *)
Fixpoint string_body (s : jsstring) (acc : jsstring)
  : option (jsstring * jsstring) :=
  match s with
  | [] => None
  | c :: r =>
      if N.eqb c 34 then Some (rev acc, r)
      else if N.eqb c 92 then
        match r with
        | [] => None
        | e :: r1 =>
            if N.eqb e 34 then string_body r1 (34%N :: acc)
            else if N.eqb e 92 then string_body r1 (92%N :: acc)
            else if N.eqb e 47 then string_body r1 (47%N :: acc)
            else if N.eqb e 98 then string_body r1 (8%N :: acc)
            else if N.eqb e 102 then string_body r1 (12%N :: acc)
            else if N.eqb e 110 then string_body r1 (10%N :: acc)
            else if N.eqb e 114 then string_body r1 (13%N :: acc)
            else if N.eqb e 116 then string_body r1 (9%N :: acc)
            else if N.eqb e 117 then
              match r1 with
              | h1 :: h2 :: h3 :: h4 :: r2 =>
                  match hex h1, hex h2, hex h3, hex h4 with
                  | Some a, Some b, Some c', Some d =>
                      string_body r2
                        (((a * 16 + b) * 16 + c') * 16 + d :: acc)%N
                  | _, _, _, _ => None
                  end
              | _ => None
              end
            else None
        end
      else if N.ltb c 32 then None
      else string_body r (c :: acc)
  end.

(** Recursive descent over value, array elements and object members.
    [fuel] bounds the number of nested calls; [parse] supplies more
    than any input can use ([parse_fuel_enough] below). *)
Fixpoint parse_value (fuel : nat) (s : jsstring)
  : option (value * jsstring) :=
  match fuel with
  | O => None
  | S f =>
      match skip_ws s with
      | [] => None
      | c :: r =>
          if N.eqb c 123 then
            match skip_ws r with
            | c2 :: r2 =>
                if N.eqb c2 125 then Some (Obj [], r2)
                else parse_members f r []
            | [] => None
            end
          else if N.eqb c 91 then
            match skip_ws r with
            | c2 :: r2 =>
                if N.eqb c2 93 then Some (Arr [], r2)
                else parse_elements f r []
            | [] => None
            end
          else if N.eqb c 34 then
            match string_body r [] with
            | Some (str, r') => Some (Str str, r')
            | None => None
            end
          else if JsString.startsWith (c :: r) (js "true") then
            Some (Bool true, skipn 4 (c :: r))
          else if JsString.startsWith (c :: r) (js "false") then
            Some (Bool false, skipn 5 (c :: r))
          else if JsString.startsWith (c :: r) (js "null") then
            Some (Null, skipn 4 (c :: r))
          else
            match number (c :: r) with
            | Some (q, r') => Some (Num q, r')
            | None => None
            end
      end
  end
with parse_elements (fuel : nat) (s : jsstring) (acc : list value)
  : option (value * jsstring) :=
  match fuel with
  | O => None
  | S f =>
      match parse_value f s with
      | None => None
      | Some (v, r) =>
          match skip_ws r with
          | c :: r' =>
              if N.eqb c 44 then parse_elements f r' (v :: acc)
              else if N.eqb c 93 then Some (Arr (rev (v :: acc)), r')
              else None
          | [] => None
          end
      end
  end
with parse_members (fuel : nat) (s : jsstring)
                   (acc : list (jsstring * value))
  : option (value * jsstring) :=
  match fuel with
  | O => None
  | S f =>
      match skip_ws s with
      | q :: r0 =>
          if N.eqb q 34 then
            match string_body r0 [] with
            | None => None
            | Some (key, r1) =>
                match skip_ws r1 with
                | col :: r2 =>
                    if N.eqb col 58 then
                      match parse_value f r2 with
                      | None => None
                      | Some (v, r3) =>
                          match skip_ws r3 with
                          | c :: r4 =>
                              if N.eqb c 44 then
                                parse_members f r4 ((key, v) :: acc)
                              else if N.eqb c 125 then
                                Some (Obj (rev ((key, v) :: acc)), r4)
                              else None
                          | [] => None
                          end
                      end
                    else None
                | [] => None
                end
            end
          else None
      | [] => None
      end
  end.

(** [JSON.parse(text)]: one value, white space around it, nothing
    else; a [SyntaxError] otherwise. *)
Definition parse (text : jsstring) : Result value :=
  match parse_value (2 * List.length text + 2) text with
  | Some (v, rest) =>
      match skip_ws rest with
      | [] => Ok v
      | _ :: _ => Throw SyntaxError
      end
  | None => Throw SyntaxError
  end.

End Json.

(* ================================================================== *)
(** * The finding schema *)
(* ================================================================== *)

(** One entry of the validated reasoning-service answer. *)
Module Vuln.
Record t : Type := mk {
  severity : jsstring;
  type : jsstring;
  category : jsstring;
  filePath : jsstring;
  lineNumber : option Q;
  codeSnippet : option jsstring;
  description : jsstring;
  recommendation : jsstring;
  confidenceScore : option Q
}.

(** [{ ...vuln, filePath: p }] *)
Definition with_filePath (p : jsstring) (v : t) : t :=
  mk (severity v) (type v) (category v) p (lineNumber v) (codeSnippet v)
     (description v) (recommendation v) (confidenceScore v).
End Vuln.

(** The zod combinators the schema is built from.  A validator reads
    the value found under a key, [None] standing for [undefined] (the
    key is missing), and throws a [ZodError] when the value does not
    fit. *)
Module Zod.
Local Open Scope result_scope.

Definition check (A : Type) := option Json.value -> Result A.

(** [z.string()] *)
Definition string : check jsstring :=
  fun v => match v with
           | Some (Json.Str s) => Ok s
           | _ => Throw ZodError
           end.

(** [z.string().min(n)]: at least [n] code units *)
Definition string_min (n : nat) : check jsstring :=
  fun v => s <-- string v ;;
           if (n <=? List.length s)%nat then Ok s else Throw ZodError.

(** [z.enum([...])] *)
Definition enum (values : list jsstring) : check jsstring :=
  fun v => s <-- string v ;;
           if JsString.includes values s then Ok s else Throw ZodError.

(** [z.number()] *)
Definition number : check Q :=
  fun v => match v with
           | Some (Json.Num x) => Ok x
           | _ => Throw ZodError
           end.

(** [z.number().min(lo).max(hi)] *)
Definition number_min_max (lo hi : Q) : check Q :=
  fun v => x <-- number v ;;
           if (Qle_bool lo x && Qle_bool x hi)%bool then Ok x
           else Throw ZodError.

(** [inner.optional()] *)
Definition optional {A} (inner : check A) : check (option A) :=
  fun v => match v with
           | None => Ok None
           | Some _ => x <-- inner v ;; Ok (Some x)
           end.

Fixpoint all {A} (item : check A) (l : list Json.value)
  : Result (list A) :=
  match l with
  | [] => Ok []
  | x :: rest =>
      match item (Some x), all item rest with
      | Ok y, Ok ys => Ok (y :: ys)
      | _, _ => Throw ZodError
      end
  end.

(** [z.array(item)] *)
Definition array {A} (item : check A) : check (list A) :=
  fun v => match v with
           | Some (Json.Arr l) => all item l
           | _ => Throw ZodError
           end.

(** [z.object({...})]: [shape] validates the listed keys; keys the
    schema does not list are dropped. *)
Definition object {A} (shape : list (jsstring * Json.value) -> Result A)
  : check A :=
  fun v => match v with
           | Some (Json.Obj members) => shape members
           | _ => Throw ZodError
           end.
End Zod.

Definition severityValues : list jsstring :=
  [js "critical"; js "high"; js "medium"; js "low"].

(** The entry schema of [VulnerabilityDetectionSchema]:
<<
    z.object({
      severity: z.enum(["critical", "high", "medium", "low"]),
      type: z.string().min(1),
      category: z.string().min(1),
      filePath: z.string().min(1),
      lineNumber: z.number().optional(),
      codeSnippet: z.string().optional(),
      description: z.string().min(10),
      recommendation: z.string().min(10),
      confidenceScore: z.number().min(0).max(1).optional()
    })
>> *)
Definition VulnerabilityEntrySchema : Zod.check Vuln.t :=
  Zod.object (fun o =>
    (severity <-- Zod.enum severityValues (Json.get (js "severity") o) ;;
     type <-- Zod.string_min 1 (Json.get (js "type") o) ;;
     category <-- Zod.string_min 1 (Json.get (js "category") o) ;;
     filePath <-- Zod.string_min 1 (Json.get (js "filePath") o) ;;
     lineNumber <-- Zod.optional Zod.number (Json.get (js "lineNumber") o) ;;
     codeSnippet <-- Zod.optional Zod.string
                       (Json.get (js "codeSnippet") o) ;;
     description <-- Zod.string_min 10 (Json.get (js "description") o) ;;
     recommendation <-- Zod.string_min 10
                          (Json.get (js "recommendation") o) ;;
     confidenceScore <-- Zod.optional (Zod.number_min_max 0 1)
                           (Json.get (js "confidenceScore") o) ;;
     Ok (Vuln.mk severity type category filePath lineNumber codeSnippet
                 description recommendation confidenceScore))%result).

(** [VulnerabilityDetectionSchema.parse(v)], giving the validated
    [vulnerabilities] list. *)
Definition VulnerabilityDetectionSchema (v : Json.value)
  : Result (list Vuln.t) :=
  Zod.object (fun o =>
    Zod.array VulnerabilityEntrySchema (Json.get (js "vulnerabilities") o))
    (Some v).

(* ================================================================== *)
(** * The environment of a request *)
(* ================================================================== *)

(** What the handlers obtain from outside the program: the SHA-256
    digest in hexadecimal, the identifiers [crypto.randomUUID()] hands
    out and the clock (both indexed by the number of earlier calls), the
    reasoning service (its answer text, or a thrown error) and the text of
    the fixed instruction prompt. *)
Record Env : Type := {
  sha256_hex : jsstring -> jsstring;
  randomUUID : nat -> jsstring;
  clock : nat -> Z;
  generateContent : jsstring -> Result jsstring;
  systemPrompt : jsstring
}.

(** [userPrompt] of [analyzeCode] *)
Definition userPrompt (E : Env) (content projectName : jsstring) : jsstring :=
  systemPrompt E ++ nl ++ nl ++ js "Project: " ++ projectName ++ nl ++ nl
  ++ js "```" ++ nl ++ content ++ nl ++ js "```".

(** [analyzeCode(content, projectName, accountId, gatewayId, apiKey)].
    The last three arguments only configure the client whose answer
    [generateContent] stands for. *)
Definition analyzeCode (E : Env) (content projectName : jsstring)
  : Result (list Vuln.t) :=
  rcatch
    (text <-- generateContent E (userPrompt E content projectName) ;;
     if JsString.falsy text then Ok []
     else
       let jsonText := extractJsonText text in
       if JsString.falsy jsonText then Ok []
       else
         rcatch
           (parsedResponse <-- Json.parse jsonText ;;
            validatedResponse <-- VulnerabilityDetectionSchema parsedResponse ;;
            Ok (map (fun vuln =>
                       Vuln.with_filePath
                         (if JsString.falsy (Vuln.filePath vuln)
                          then projectName ++ js "/main.js"
                          else Vuln.filePath vuln) vuln)
                    validatedResponse))
           (fun parseError => Ok []))%result
    (fun error => Ok []).

(* ================================================================== *)
(** * The store *)
(* ================================================================== *)

(** Rows of the four tables of the drizzle schema the handlers touch.
    Text columns are strings, nullable columns are options, timestamps
    are the clock readings they were set from. *)

Module ApiKey.
Record t : Type := mk {
  id : jsstring;
  keyHash : jsstring;
  name : jsstring;
  usageCount : Z;
  isActive : bool;
  createdAt : Z
}.
End ApiKey.

Module Project.
Record t : Type := mk {
  id : jsstring;
  apiKeyId : jsstring;
  name : jsstring;
  type : jsstring;
  sourceUrl : jsstring;
  content : jsstring;
  languageStats : option jsstring;
  status : jsstring;
  lastAnalyzedAt : option Z;
  createdAt : Z;
  updatedAt : Z
}.

(** [.set({ lastAnalyzedAt: a, updatedAt: u })] *)
Definition touch (a u : Z) (p : t) : t :=
  mk (id p) (apiKeyId p) (name p) (type p) (sourceUrl p) (content p)
     (languageStats p) (status p) (Some a) (createdAt p) u.
End Project.

Module AnalysisSession.
Record t : Type := mk {
  id : jsstring;
  projectId : jsstring;
  status : jsstring;
  overallScore : option Q;
  totalIssues : nat;
  criticalIssues : nat;
  highIssues : nat;
  mediumIssues : nat;
  lowIssues : nat;
  supportedFiles : option jsstring;
  processingTimeMs : option Z;
  aiModelUsed : option jsstring;
  createdAt : Z;
  completedAt : option Z
}.
End AnalysisSession.

Module SecurityIssue.
Record t : Type := mk {
  id : jsstring;
  analysisSessionId : jsstring;
  severity : jsstring;
  type : jsstring;
  category : jsstring;
  filePath : jsstring;
  lineNumber : option Q;
  codeSnippet : option jsstring;
  description : jsstring;
  recommendation : jsstring;
  confidenceScore : option Q;
  falsePositive : bool;
  resolved : bool;
  createdAt : Z
}.

(** [.set({ resolved: b })] *)
Definition set_resolved (b : bool) (i : t) : t :=
  mk (id i) (analysisSessionId i) (severity i) (type i) (category i)
     (filePath i) (lineNumber i) (codeSnippet i) (description i)
     (recommendation i) (confidenceScore i) (falsePositive i) b
     (createdAt i).

(** [.set({ falsePositive: b })] *)
Definition set_falsePositive (b : bool) (i : t) : t :=
  mk (id i) (analysisSessionId i) (severity i) (type i) (category i)
     (filePath i) (lineNumber i) (codeSnippet i) (description i)
     (recommendation i) (confidenceScore i) b (resolved i)
     (createdAt i).
End SecurityIssue.

Record DB : Type := {
  apiKeysTable : list ApiKey.t;
  projectsTable : list Project.t;
  analysisSessionsTable : list AnalysisSession.t;
  securityIssuesTable : list SecurityIssue.t
}.

(** The state a request runs in: the store and how often the
    identifier source and the clock have been asked. *)
Record World : Type := {
  db : DB;
  uuid_calls : nat;
  clock_calls : nat
}.

(** ** Queries *)

Module Sql.

(** [l.leftJoin(r, on)]: every row of [l] with each row of [r] that
    satisfies [on], or once with null columns when none does. *)
Definition leftJoin {A B} (l : list A) (r : list B) (on : A -> B -> bool)
  : list (A * option B) :=
  flat_map (fun a =>
              match filter (on a) r with
              | [] => [(a, None)]
              | b :: bs => map (fun x => (a, Some x)) (b :: bs)
              end) l.

(** [.where(cond)] *)
Definition where_ {A} (cond : A -> bool) (rows : list A) : list A :=
  filter cond rows.

(** [.get()]: the first row, or [undefined] *)
Definition get {A} (rows : list A) : option A := hd_error rows.

(** [eq(column, value)] on a column of a joined table: a null column
    equals nothing. *)
Definition eq_null (column : option jsstring) (value : jsstring) : bool :=
  match column with
  | Some x => JsString.eqb x value
  | None => false
  end.

(** [.update(t).set(f).where(cond).returning()]: the table after the
    update and the rows it changed. *)
Definition update {A} (cond : A -> bool) (f : A -> A) (rows : list A)
  : list A * list A :=
  (map (fun r => if cond r then f r else r) rows,
   map f (filter cond rows)).

End Sql.

(** ** Requests as state transformers that may throw *)

Definition M (A : Type) : Type := World -> Result A * World.

Definition ret {A} (a : A) : M A := fun w => (Ok a, w).

Definition bind {A B} (m : M A) (f : A -> M B) : M B :=
  fun w => match m w with
           | (Ok a, w') => f a w'
           | (Throw e, w') => (Throw e, w')
           end.

(** [try { body } catch (e) { handler }]: what [body] wrote before it
    threw stays written. *)
Definition try_catch {A} (body : M A) (handler : Exn -> M A) : M A :=
  fun w => match body w with
           | (Ok a, w') => (Ok a, w')
           | (Throw e, w') => handler e w'
           end.

Definition lift {A} (r : Result A) : M A := fun w => (r, w).

Declare Scope handler_scope.
Delimit Scope handler_scope with handler.
Notation "x <- m ;; k" := (bind m (fun x => k))
  (at level 100, m at next level, right associativity) : handler_scope.

Definition getDb : M DB := fun w => (Ok (db w), w).

Definition setDb (d : DB) : M unit :=
  fun w => (Ok tt, {| db := d; uuid_calls := uuid_calls w;
                      clock_calls := clock_calls w |}).

(** [crypto.randomUUID()] *)
Definition newUUID (E : Env) : M jsstring :=
  fun w => (Ok (randomUUID E (uuid_calls w)),
            {| db := db w; uuid_calls := S (uuid_calls w);
               clock_calls := clock_calls w |}).

(** [new Date()] and [Date.now()] *)
Definition newDate (E : Env) : M Z :=
  fun w => (Ok (clock E (clock_calls w)),
            {| db := db w; uuid_calls := uuid_calls w;
               clock_calls := S (clock_calls w) |}).

(** [db.insert(analysisSessionsTable).values(row).returning()]; the
    primary key makes the insert throw when the id is taken. *)
Definition insertAnalysisSession (row : AnalysisSession.t)
  : M AnalysisSession.t :=
  (d <- getDb ;;
   if existsb (fun s => JsString.eqb (AnalysisSession.id s)
                                     (AnalysisSession.id row))
              (analysisSessionsTable d)
   then lift (Throw ConstraintError)
   else
     (_ <- setDb {| apiKeysTable := apiKeysTable d;
                    projectsTable := projectsTable d;
                    analysisSessionsTable := analysisSessionsTable d ++ [row];
                    securityIssuesTable := securityIssuesTable d |} ;;
      ret row))%handler.

(** [db.insert(securityIssuesTable).values(row).returning()] *)
Definition insertSecurityIssue (row : SecurityIssue.t) : M SecurityIssue.t :=
  (d <- getDb ;;
   if existsb (fun i => JsString.eqb (SecurityIssue.id i)
                                     (SecurityIssue.id row))
              (securityIssuesTable d)
   then lift (Throw ConstraintError)
   else
     (_ <- setDb {| apiKeysTable := apiKeysTable d;
                    projectsTable := projectsTable d;
                    analysisSessionsTable := analysisSessionsTable d;
                    securityIssuesTable := securityIssuesTable d ++ [row] |} ;;
      ret row))%handler.

(** [db.update(securityIssuesTable).set(f).where(cond).returning()] *)
Definition updateSecurityIssues (cond : SecurityIssue.t -> bool)
           (f : SecurityIssue.t -> SecurityIssue.t)
  : M (list SecurityIssue.t) :=
  (d <- getDb ;;
   let (table, changed) := Sql.update cond f (securityIssuesTable d) in
   _ <- setDb {| apiKeysTable := apiKeysTable d;
                 projectsTable := projectsTable d;
                 analysisSessionsTable := analysisSessionsTable d;
                 securityIssuesTable := table |} ;;
   ret changed)%handler.

(** [db.update(projectsTable).set(f).where(cond)] *)
Definition updateProjects (cond : Project.t -> bool)
           (f : Project.t -> Project.t) : M unit :=
  (d <- getDb ;;
   setDb {| apiKeysTable := apiKeysTable d;
            projectsTable := fst (Sql.update cond f (projectsTable d));
            analysisSessionsTable := analysisSessionsTable d;
            securityIssuesTable := securityIssuesTable d |})%handler.

(* ================================================================== *)
(** * Responses *)
(* ================================================================== *)

Module HttpStatusCodes.
Definition OK : Z := 200.
Definition CREATED : Z := 201.
Definition BAD_REQUEST : Z := 400.
Definition UNAUTHORIZED : Z := 401.
Definition FORBIDDEN : Z := 403.
Definition NOT_FOUND : Z := 404.
Definition INTERNAL_SERVER_ERROR : Z := 500.
End HttpStatusCodes.

(** [exportData] of [exportAnalysis] *)
Record ExportData : Type := {
  exp_analysisSession : AnalysisSession.t;
  exp_projectName : option jsstring;
  exp_securityIssues : list SecurityIssue.t;
  exportedAt : Z
}.

(** The [data] field of a response body, one shape per handler. *)
Inductive Payload : Type :=
| NoData
| AnalysisResults (session : AnalysisSession.t)
                  (securityIssues : list SecurityIssue.t)
| Exported (e : ExportData)
| PdfExport (note : jsstring) (e : ExportData)
| UpdatedIssue (i : option SecurityIssue.t)
| IssueWithContext (i : SecurityIssue.t) (projectName projectId : option jsstring)
                   (sessionStatus : option jsstring)
| BulkResult (updatedCount : nat) (issues : list SecurityIssue.t).

Record Response : Type := {
  status : Z;
  success : bool;
  message : jsstring;
  data : Payload;
  headers : list (jsstring * jsstring)
}.

(** Modelled from the spec: the response helpers are imported from a
    module that is not among the sources.  Following their call sites and
    the tests, [errorResponse(c, message, status)] answers with the given
    status, [success = false], the message and no data, and
    [successResponse(c, data, message, status)] with [success = true] and
    the data; both carry the headers set on the context so far. *)
Definition errorResponse (hs : list (jsstring * jsstring)) (msg : jsstring)
           (code : Z) : Response :=
  {| status := code; success := false; message := msg; data := NoData;
     headers := hs |}.

Definition successResponse (hs : list (jsstring * jsstring)) (d : Payload)
           (msg : jsstring) (code : Z) : Response :=
  {| status := code; success := true; message := msg; data := d;
     headers := hs |}.

(** A handler is a request body wrapped in [try { ... } catch] with a
    fixed answer for whatever was thrown. *)
Definition Handler : Type := World -> Response * World.

Definition catch_all (body : M Response) (on_error : Response) : Handler :=
  fun w => match body w with
           | (Ok r, w') => (r, w')
           | (Throw _, w') => (on_error, w')
           end.

(** The validated request: the [Authorization] header and the
    parameters the route schema let through. *)
Record Context (P : Type) : Type := {
  authorization : option jsstring;
  valid : P
}.

(* ================================================================== *)
(** * Helpers shared by the handlers *)
(* ================================================================== *)

(** [getApiKeyFromHeader] *)
Definition getApiKeyFromHeader {P} (c : Context P) : option jsstring :=
  match authorization c with
  | Some authHeader =>
      if JsString.startsWith authHeader (js "Bearer ")
      then Some (JsString.substring 7 authHeader)
      else None
  | None => None
  end.

(** [validateApiKey]; the final [|| null] turns an empty id into
    [null]. *)
Definition validateApiKey (E : Env) (d : DB) (apiKey : jsstring)
  : option jsstring :=
  let keyHash := sha256_hex E apiKey in
  match Sql.get
          (Sql.where_ (fun k => JsString.eqb (ApiKey.keyHash k) keyHash
                                && Bool.eqb (ApiKey.isActive k) true)
                      (apiKeysTable d)) with
  | Some apiKeyRecord =>
      if JsString.falsy (ApiKey.id apiKeyRecord) then None
      else Some (ApiKey.id apiKeyRecord)
  | None => None
  end.

(** [verifyProjectOwnership] *)
Definition verifyProjectOwnership (d : DB) (projectId apiKeyId : jsstring)
  : bool :=
  match Sql.get
          (Sql.where_ (fun p => JsString.eqb (Project.id p) projectId
                                && JsString.eqb (Project.apiKeyId p) apiKeyId)
                      (projectsTable d)) with
  | Some _ => true
  | None => false
  end.

(** Issues joined with their session and its project, the [FROM] clause
    every issue query shares:
<<
    .from(securityIssuesTable)
    .leftJoin(analysisSessionsTable,
              eq(securityIssuesTable.analysisSessionId, analysisSessionsTable.id))
    .leftJoin(projectsTable, eq(analysisSessionsTable.projectId, projectsTable.id))
>> *)
Definition issueRows (d : DB)
  : list (SecurityIssue.t * option AnalysisSession.t * option Project.t) :=
  Sql.leftJoin
    (Sql.leftJoin (securityIssuesTable d) (analysisSessionsTable d)
       (fun i s => JsString.eqb (SecurityIssue.analysisSessionId i)
                                (AnalysisSession.id s)))
    (projectsTable d)
    (fun row p => Sql.eq_null (option_map AnalysisSession.projectId (snd row))
                              (Project.id p)).

(** Sessions joined with their project. *)
Definition sessionRows (d : DB)
  : list (AnalysisSession.t * option Project.t) :=
  Sql.leftJoin (analysisSessionsTable d) (projectsTable d)
    (fun s p => JsString.eqb (AnalysisSession.projectId s) (Project.id p)).

(** [verifyIssueOwnership] *)
Definition verifyIssueOwnership (d : DB) (issueId apiKeyId : jsstring)
  : bool :=
  match Sql.get
          (Sql.where_
             (fun row =>
                JsString.eqb (SecurityIssue.id (fst (fst row))) issueId
                && Sql.eq_null (option_map Project.apiKeyId (snd row))
                               apiKeyId)
             (issueRows d)) with
  | Some _ => true
  | None => false
  end.

(** The opening every handler repeats: read the bearer token, answer
    401 when it is missing or empty, hash it and look the key up, answer
    401 when there is no active key; otherwise go on as that key. *)
Definition authenticated {P} (E : Env) (c : Context P)
           (k : jsstring -> M Response) : M Response :=
  match getApiKeyFromHeader c with
  | None =>
      ret (errorResponse [] (js "Authorization required")
                         HttpStatusCodes.UNAUTHORIZED)
  | Some apiKey =>
      if JsString.falsy apiKey then
        ret (errorResponse [] (js "Authorization required")
                           HttpStatusCodes.UNAUTHORIZED)
      else
        (d <- getDb ;;
         match validateApiKey E d apiKey with
         | None =>
             ret (errorResponse [] (js "Invalid API key")
                                HttpStatusCodes.UNAUTHORIZED)
         | Some apiKeyId => k apiKeyId
         end)%handler
  end.

(* ================================================================== *)
(** * Analysis handlers *)
(* ================================================================== *)

Definition dq : jsstring := [34%N].

(** [vulnerabilities.filter(v => v.severity === s).length] *)
Definition countSeverity (s : jsstring) (vulnerabilities : list Vuln.t) : nat :=
  List.length
    (filter (fun v => JsString.eqb (Vuln.severity v) s) vulnerabilities).

Record IssueCounts : Type := {
  critical : nat;
  high : nat;
  medium : nat;
  low : nat
}.

Definition issueCounts (vulnerabilities : list Vuln.t) : IssueCounts :=
  {| critical := countSeverity (js "critical") vulnerabilities;
     high := countSeverity (js "high") vulnerabilities;
     medium := countSeverity (js "medium") vulnerabilities;
     low := countSeverity (js "low") vulnerabilities |}.

Definition num (n : nat) : Q := inject_Z (Z.of_nat n).

(** The score of [startAnalysis]:
<<
    let overallScore = 10;
    if (totalIssues > 0) {
      overallScore = Math.max(0, 10 - (
        issueCounts.critical * 3 + issueCounts.high * 2 +
        issueCounts.medium * 1 + issueCounts.low * 0.5));
    }
>> *)
Definition overallScore (vulnerabilities : list Vuln.t) : Q :=
  let counts := issueCounts vulnerabilities in
  let totalIssues := List.length vulnerabilities in
  if (0 <? totalIssues)%nat then
    Qmax 0 (10 - (num (critical counts) * 3 + num (high counts) * 2
                  + num (medium counts) * 1 + num (low counts) * (1 # 2)))
  else 10.

(** [x || d] on an optional number: [undefined] and zero are falsy. *)
Definition or_number (x : option Q) (d : Q) : Q :=
  match x with
  | Some v => if Qeq_bool v 0 then d else v
  | None => d
  end.

(** The row [startAnalysis] inserts for one finding. *)
Definition issueRow (issueId sessionId : jsstring) (vuln : Vuln.t)
           (createdAt : Z) : SecurityIssue.t :=
  {| SecurityIssue.id := issueId;
     SecurityIssue.analysisSessionId := sessionId;
     SecurityIssue.severity := Vuln.severity vuln;
     SecurityIssue.type := Vuln.type vuln;
     SecurityIssue.category := Vuln.category vuln;
     SecurityIssue.filePath := Vuln.filePath vuln;
     SecurityIssue.lineNumber := Vuln.lineNumber vuln;
     SecurityIssue.codeSnippet := Vuln.codeSnippet vuln;
     SecurityIssue.description := Vuln.description vuln;
     SecurityIssue.recommendation := Vuln.recommendation vuln;
     SecurityIssue.confidenceScore :=
       Some (or_number (Vuln.confidenceScore vuln) (8 # 10));
     SecurityIssue.falsePositive := false;
     SecurityIssue.resolved := false;
     SecurityIssue.createdAt := createdAt |}.

(** The loop that stores the findings: a finding whose insert throws is
    skipped. *)
Fixpoint storeIssues (E : Env) (sessionId : jsstring)
         (vulnerabilities : list Vuln.t) (storedIssues : list SecurityIssue.t)
  : M (list SecurityIssue.t) :=
  match vulnerabilities with
  | [] => ret storedIssues
  | vuln :: rest =>
      (stored <- try_catch
                   (issueId <- newUUID E ;;
                    createdAt <- newDate E ;;
                    issue <- insertSecurityIssue
                               (issueRow issueId sessionId vuln createdAt) ;;
                    ret (storedIssues ++ [issue]))
                   (fun error => ret storedIssues) ;;
       storeIssues E sessionId rest stored)%handler
  end.

(** The row [startAnalysis] inserts for the session. *)
Definition sessionRow (sessionId projectId : jsstring)
           (vulnerabilities : list Vuln.t)
           (processingTime now completedAt : Z) : AnalysisSession.t :=
  let counts := issueCounts vulnerabilities in
  {| AnalysisSession.id := sessionId;
     AnalysisSession.projectId := projectId;
     AnalysisSession.status := js "completed";
     AnalysisSession.overallScore := Some (overallScore vulnerabilities);
     AnalysisSession.totalIssues := List.length vulnerabilities;
     AnalysisSession.criticalIssues := critical counts;
     AnalysisSession.highIssues := high counts;
     AnalysisSession.mediumIssues := medium counts;
     AnalysisSession.lowIssues := low counts;
     AnalysisSession.supportedFiles := None;
     AnalysisSession.processingTimeMs := Some processingTime;
     AnalysisSession.aiModelUsed := Some (js "gemini-2.5-flash-lite");
     AnalysisSession.createdAt := now;
     AnalysisSession.completedAt := Some completedAt |}.

(** [startAnalysis]; the validated body is the project id. *)
Definition startAnalysis (E : Env) (c : Context jsstring) : Handler :=
  catch_all
    (authenticated E c (fun apiKeyId =>
       d <- getDb ;;
       if negb (verifyProjectOwnership d (valid c) apiKeyId) then
         ret (errorResponse [] (js "Project not found")
                            HttpStatusCodes.NOT_FOUND)
       else
         match Sql.get (Sql.where_
                          (fun p => JsString.eqb (Project.id p) (valid c))
                          (projectsTable d)) with
         | None =>
             ret (errorResponse [] (js "Project not found")
                                HttpStatusCodes.NOT_FOUND)
         | Some project =>
             sessionId <- newUUID E ;;
             now <- newDate E ;;
             startTime <- newDate E ;;
             vulnerabilities <- lift (analyzeCode E (Project.content project)
                                                  (Project.name project)) ;;
             endTime <- newDate E ;;
             let processingTime := (endTime - startTime)%Z in
             completedAt <- newDate E ;;
             analysisSession <- insertAnalysisSession
                                  (sessionRow sessionId (valid c)
                                     vulnerabilities processingTime now
                                     completedAt) ;;
             storedIssues <- storeIssues E sessionId vulnerabilities [] ;;
             lastAnalyzedAt <- newDate E ;;
             updatedAt <- newDate E ;;
             _ <- updateProjects
                    (fun p => JsString.eqb (Project.id p) (Project.id project))
                    (Project.touch lastAnalyzedAt updatedAt) ;;
             ret (successResponse []
                    (AnalysisResults analysisSession storedIssues)
                    (js "Analysis completed successfully")
                    HttpStatusCodes.CREATED)
         end)%handler)
    (errorResponse [] (js "Error performing analysis")
                   HttpStatusCodes.INTERNAL_SERVER_ERROR).

(** The session query of [getAnalysisResults] and [exportAnalysis]: the
    session row with the owner and the name of its project. *)
Definition selectSession (d : DB) (sessionId : jsstring)
  : option (AnalysisSession.t * option Project.t) :=
  Sql.get (Sql.where_
             (fun row => JsString.eqb (AnalysisSession.id (fst row)) sessionId)
             (sessionRows d)).

(** [analysisSession.projectApiKeyId !== apiKeyId] *)
Definition notOwner (projectApiKeyId : option jsstring) (apiKeyId : jsstring)
  : bool :=
  negb (Sql.eq_null projectApiKeyId apiKeyId).

Definition issuesOfSession (d : DB) (sessionId : jsstring)
  : list SecurityIssue.t :=
  Sql.where_
    (fun i => JsString.eqb (SecurityIssue.analysisSessionId i) sessionId)
    (securityIssuesTable d).

(** [getAnalysisResults]; the validated parameter is the session id. *)
Definition getAnalysisResults (E : Env) (c : Context jsstring) : Handler :=
  catch_all
    (authenticated E c (fun apiKeyId =>
       d <- getDb ;;
       match selectSession d (valid c) with
       | None =>
           ret (errorResponse [] (js "Analysis session not found")
                              HttpStatusCodes.NOT_FOUND)
       | Some analysisSession =>
           if notOwner (option_map Project.apiKeyId (snd analysisSession))
                       apiKeyId
           then ret (errorResponse [] (js "Analysis session not found")
                                   HttpStatusCodes.NOT_FOUND)
           else
             ret (successResponse []
                    (AnalysisResults (fst analysisSession)
                                     (issuesOfSession d (valid c)))
                    (js "Analysis results retrieved successfully")
                    HttpStatusCodes.OK)
       end)%handler)
    (errorResponse [] (js "Error getting analysis results")
                   HttpStatusCodes.INTERNAL_SERVER_ERROR).

Definition attachment (sessionId : jsstring) (ext : jsstring)
  : jsstring * jsstring :=
  (js "Content-Disposition",
   js "attachment; filename=" ++ dq ++ js "analysis_" ++ sessionId
   ++ js "." ++ ext ++ dq).

(** [exportAnalysis]; the validated request is the session id and the
    format. *)
Definition exportAnalysis (E : Env) (c : Context (jsstring * jsstring))
  : Handler :=
  let sessionId := fst (valid c) in
  let format := snd (valid c) in
  catch_all
    (authenticated E c (fun apiKeyId =>
       d <- getDb ;;
       match selectSession d sessionId with
       | None =>
           ret (errorResponse [] (js "Analysis session not found")
                              HttpStatusCodes.NOT_FOUND)
       | Some analysisSession =>
           if notOwner (option_map Project.apiKeyId (snd analysisSession))
                       apiKeyId
           then ret (errorResponse [] (js "Analysis session not found")
                                   HttpStatusCodes.NOT_FOUND)
           else
             now <- newDate E ;;
             let exportData :=
               {| exp_analysisSession := fst analysisSession;
                  exp_projectName :=
                    option_map Project.name (snd analysisSession);
                  exp_securityIssues := issuesOfSession d sessionId;
                  exportedAt := now |} in
             if JsString.eqb format (js "pdf") then
               ret (successResponse
                      [(js "Content-Type", js "application/pdf");
                       attachment sessionId (js "pdf")]
                      (PdfExport (js "PDF export would be generated here")
                                 exportData)
                      (js "PDF export prepared (mock implementation)")
                      HttpStatusCodes.OK)
             else
               ret (successResponse
                      [(js "Content-Type", js "application/json");
                       attachment sessionId (js "json")]
                      (Exported exportData)
                      (js "Analysis exported successfully")
                      HttpStatusCodes.OK)
       end)%handler)
    (errorResponse [] (js "Error exporting analysis")
                   HttpStatusCodes.INTERNAL_SERVER_ERROR).

(* ================================================================== *)
(** * Issue handlers *)
(* ================================================================== *)

(** [getIssue]; the validated parameter is the issue id. *)
Definition getIssue (E : Env) (c : Context jsstring) : Handler :=
  catch_all
    (authenticated E c (fun apiKeyId =>
       d <- getDb ;;
       if negb (verifyIssueOwnership d (valid c) apiKeyId) then
         ret (errorResponse [] (js "Issue not found")
                            HttpStatusCodes.NOT_FOUND)
       else
         match Sql.get (Sql.where_
                          (fun row => JsString.eqb
                                        (SecurityIssue.id (fst (fst row)))
                                        (valid c))
                          (issueRows d)) with
         | None =>
             ret (errorResponse [] (js "Issue not found")
                                HttpStatusCodes.NOT_FOUND)
         | Some issueData =>
             ret (successResponse []
                    (IssueWithContext
                       (fst (fst issueData))
                       (option_map Project.name (snd issueData))
                       (option_map Project.id (snd issueData))
                       (option_map AnalysisSession.status
                                   (snd (fst issueData))))
                    (js "Issue retrieved successfully")
                    HttpStatusCodes.OK)
         end)%handler)
    (errorResponse [] (js "Error getting issue")
                   HttpStatusCodes.INTERNAL_SERVER_ERROR).

(** [resolveIssue] *)
Definition resolveIssue (E : Env) (c : Context jsstring) : Handler :=
  catch_all
    (authenticated E c (fun apiKeyId =>
       d <- getDb ;;
       if negb (verifyIssueOwnership d (valid c) apiKeyId) then
         ret (errorResponse [] (js "Issue not found")
                            HttpStatusCodes.NOT_FOUND)
       else
         updated <- updateSecurityIssues
                      (fun i => JsString.eqb (SecurityIssue.id i) (valid c))
                      (SecurityIssue.set_resolved true) ;;
         ret (successResponse [] (UpdatedIssue (hd_error updated))
                (js "Issue marked as resolved") HttpStatusCodes.OK))%handler)
    (errorResponse [] (js "Error resolving issue")
                   HttpStatusCodes.INTERNAL_SERVER_ERROR).

(** [markFalsePositive] *)
Definition markFalsePositive (E : Env) (c : Context jsstring) : Handler :=
  catch_all
    (authenticated E c (fun apiKeyId =>
       d <- getDb ;;
       if negb (verifyIssueOwnership d (valid c) apiKeyId) then
         ret (errorResponse [] (js "Issue not found")
                            HttpStatusCodes.NOT_FOUND)
       else
         updated <- updateSecurityIssues
                      (fun i => JsString.eqb (SecurityIssue.id i) (valid c))
                      (SecurityIssue.set_falsePositive true) ;;
         ret (successResponse [] (UpdatedIssue (hd_error updated))
                (js "Issue marked as false positive")
                HttpStatusCodes.OK))%handler)
    (errorResponse [] (js "Error marking false positive")
                   HttpStatusCodes.INTERNAL_SERVER_ERROR).

(** The validated body of a bulk update. *)
Record BulkUpdate : Type := {
  issueIds : list jsstring;
  bulk_resolved : option bool;
  bulk_falsePositive : option bool
}.

(** [updateData] of [bulkUpdateIssues] applied to a row: only the fields
    the body gives are set. *)
Definition applyUpdateData (b : BulkUpdate) (i : SecurityIssue.t)
  : SecurityIssue.t :=
  let i1 := match bulk_resolved b with
            | Some r => SecurityIssue.set_resolved r i
            | None => i
            end in
  match bulk_falsePositive b with
  | Some f => SecurityIssue.set_falsePositive f i1
  | None => i1
  end.

(** [bulkUpdateIssues] *)
Definition bulkUpdateIssues (E : Env) (c : Context BulkUpdate) : Handler :=
  let data := valid c in
  catch_all
    (authenticated E c (fun apiKeyId =>
       d <- getDb ;;
       let ownedIssueIds :=
         map (fun row => SecurityIssue.id (fst (fst row)))
             (Sql.where_
                (fun row =>
                   JsString.includes (issueIds data)
                                     (SecurityIssue.id (fst (fst row)))
                   && Sql.eq_null (option_map Project.apiKeyId (snd row))
                                  apiKeyId)
                (issueRows d)) in
       let unauthorizedIds :=
         filter (fun id => negb (JsString.includes ownedIssueIds id))
                (issueIds data) in
       if (0 <? List.length unauthorizedIds)%nat then
         ret (errorResponse []
                (js "Some issues not found or unauthorized: "
                 ++ JsString.join (js ", ") unauthorizedIds)
                HttpStatusCodes.NOT_FOUND)
       else
         match bulk_resolved data, bulk_falsePositive data with
         | None, None =>
             ret (errorResponse [] (js "No update fields provided")
                                HttpStatusCodes.BAD_REQUEST)
         | _, _ =>
             updatedIssues <- updateSecurityIssues
                                (fun i => JsString.includes ownedIssueIds
                                            (SecurityIssue.id i))
                                (applyUpdateData data) ;;
             ret (successResponse []
                    (BulkResult (List.length updatedIssues) updatedIssues)
                    (js "Issues updated successfully") HttpStatusCodes.OK)
         end)%handler)
    (errorResponse [] (js "Error bulk updating issues")
                   HttpStatusCodes.INTERNAL_SERVER_ERROR).

(** ** The routes that read or write findings and sessions *)

(** One constructor for each route of the analysis router and for each
    issue route that reads a single finding or writes findings.  (The
    listing and statistics routes only read; deleting a project removes
    its findings with it.) *)
Inductive Request : Type :=
| StartAnalysis (c : Context jsstring)
| GetAnalysisResults (c : Context jsstring)
| ExportAnalysis (c : Context (jsstring * jsstring))
| GetIssue (c : Context jsstring)
| ResolveIssue (c : Context jsstring)
| MarkFalsePositive (c : Context jsstring)
| BulkUpdateIssues (c : Context BulkUpdate).

Definition handle (E : Env) (r : Request) : Handler :=
  match r with
  | StartAnalysis c => startAnalysis E c
  | GetAnalysisResults c => getAnalysisResults E c
  | ExportAnalysis c => exportAnalysis E c
  | GetIssue c => getIssue E c
  | ResolveIssue c => resolveIssue E c
  | MarkFalsePositive c => markFalsePositive E c
  | BulkUpdateIssues c => bulkUpdateIssues E c
  end.

(* ================================================================== *)
(** * Sample data *)
(* ================================================================== *)

Definition kv (k v : string) : jsstring :=
  dq ++ js k ++ dq ++ js ":" ++ dq ++ js v ++ dq.

(** The text of one finding with the given severity; [extra] is spliced
    in after the last field. *)
Definition finding_text (sev : string) (extra : jsstring) : jsstring :=
  js "{" ++ kv "severity" sev ++ js "," ++ kv "type" "SQL Injection"
  ++ js "," ++ kv "category" "Input Validation"
  ++ js "," ++ kv "filePath" "src/db.js"
  ++ js "," ++ kv "description" "User input reaches the query"
  ++ js "," ++ kv "recommendation" "Use parameterised queries"
  ++ extra ++ js "}".

Definition payload_text (entries : list jsstring) : jsstring :=
  js "{" ++ dq ++ js "vulnerabilities" ++ dq ++ js ":["
  ++ JsString.join (js ",") entries ++ js "]}".

Definition confidence_text (v : string) : jsstring :=
  js "," ++ dq ++ js "confidenceScore" ++ dq ++ js ":" ++ js v.

(** An environment whose reasoning service always gives the answer
    [r]; the digest is the identity, identifiers are [id], [id0],
    [id00], ... and the clock counts calls. *)
Definition envOf (r : Result jsstring) : Env :=
  {| sha256_hex := fun s => s;
     randomUUID := fun n => js "id" ++ repeat 48%N n;
     clock := fun n => Z.of_nat n;
     generateContent := fun _ => r;
     systemPrompt := js "You are a security analyst" |}.

Definition aliceKey : ApiKey.t :=
  ApiKey.mk (js "alice") (js "alice-secret") (js "Alice") 0 true 0.
Definition bobKey : ApiKey.t :=
  ApiKey.mk (js "bob") (js "bob-secret") (js "Bob") 0 true 0.

Definition project1 : Project.t :=
  Project.mk (js "p1") (js "alice") (js "shop") (js "github")
             (js "https://example.org/shop") (js "let x = 1;") None
             (js "active") None 0 0.

Definition session1 : AnalysisSession.t :=
  AnalysisSession.mk (js "s1") (js "p1") (js "completed") (Some (7 # 1))
                     1 1 0 0 0 None (Some 5%Z)
                     (Some (js "gemini-2.5-flash-lite")) 0 (Some 1%Z).

Definition issue1 : SecurityIssue.t :=
  SecurityIssue.mk (js "i1") (js "s1") (js "critical") (js "SQL Injection")
                   (js "Input Validation") (js "src/db.js") None None
                   (js "User input reaches the query")
                   (js "Use parameterised queries") (Some (8 # 10))
                   false false 0.

Definition db0 : DB :=
  {| apiKeysTable := [aliceKey; bobKey];
     projectsTable := [project1];
     analysisSessionsTable := [];
     securityIssuesTable := [] |}.

Definition db1 : DB :=
  {| apiKeysTable := [aliceKey; bobKey];
     projectsTable := [project1];
     analysisSessionsTable := [session1];
     securityIssuesTable := [issue1] |}.

Definition world (d : DB) : World :=
  {| db := d; uuid_calls := 0; clock_calls := 0 |}.

Definition request {P} (token : string) (p : P) : Context P :=
  {| authorization := Some (js "Bearer " ++ js token); valid := p |}.

(* ================================================================== *)
(** * The specification's own formulas *)
(* ================================================================== *)

(** [clamp(x, lo, hi)] *)
Definition clamp (x lo hi : Q) : Q := Qmax lo (Qmin hi x).

(** The score as the specification writes it:
    clamp(10 - (3 critical + 2 high + 1 medium + 0.5 low), 0, 10). *)
Definition spec_overallScore (c : IssueCounts) : Q :=
  clamp (10 - (3 * num (critical c) + 2 * num (high c)
               + 1 * num (medium c) + (1 # 2) * num (low c))) 0 10.

(** The specification's candidate when there is no fenced block: the
    first balanced top-level brace group.  [balanced_end s depth acc]
    reads on from inside a group opened [depth] times, [acc] holding the
    group so far, reversed. *)
Fixpoint balanced_end (s : jsstring) (depth : nat) (acc : jsstring)
  : option jsstring :=
  match s with
  | [] => None
  | c :: s' =>
      if N.eqb c c_lbrace then balanced_end s' (S depth) (c :: acc)
      else if N.eqb c c_rbrace then
        match depth with
        | O => None
        | S O => Some (rev (c :: acc))
        | S d => balanced_end s' d (c :: acc)
        end
      else balanced_end s' depth (c :: acc)
  end.

Fixpoint first_balanced (s : jsstring) : option jsstring :=
  match s with
  | [] => None
  | c :: s' =>
      if N.eqb c c_lbrace then
        match balanced_end s' 1 [c] with
        | Some g => Some g
        | None => first_balanced s'
        end
      else first_balanced s'
  end.

(** A finding of the given severity, as the schema would let it
    through. *)
Definition sample_vuln (sev : string) : Vuln.t :=
  Vuln.mk (js sev) (js "SQL Injection") (js "Input Validation")
          (js "src/db.js") None None (js "User input reaches the query")
          (js "Use parameterised queries") None.

(** Does the text contain three backticks in a row? *)
Fixpoint has_fence (s : jsstring) : bool :=
  JsString.startsWith s (js "```")
  || match s with
     | [] => false
     | _ :: s' => has_fence s'
     end.

(** Answers of the reasoning service used in the examples. *)

(** Two findings in a fenced block between two sentences; the second
    carries an explicit confidence of zero. *)
Definition answer_two_findings : jsstring :=
  js "Here is the report: ```json" ++ nl
  ++ payload_text [finding_text "critical" [];
                   finding_text "low" (confidence_text "0")]
  ++ nl ++ js "``` Let me know if you need more.".

(** A batch whose second entry has a severity outside the enum. *)
Definition answer_one_bad_entry : jsstring :=
  js "```json" ++ nl
  ++ payload_text [finding_text "critical" []; finding_text "severe" []]
  ++ nl ++ js "```".

(** A valid fenced payload after prose that itself holds a fenced brace
    group. *)
Definition answer_prose_with_fence : jsstring :=
  js "As in ```{x}``` above: ```json" ++ nl
  ++ payload_text [finding_text "critical" []] ++ nl ++ js "```".

(** Two brace groups and no fence. *)
Definition answer_two_objects : jsstring :=
  js "{" ++ kv "a" "1" ++ js "} and {" ++ kv "b" "2" ++ js "}".

(** The example of the specification: a brace group, prose, and an
    opening brace that is never closed. *)
Definition answer_trailing_brace : jsstring :=
  js "{" ++ kv "a" "1" ++ js "} trailing prose {".

(** [db1] with its finding already resolved. *)
Definition db2 : DB :=
  {| apiKeysTable := [aliceKey; bobKey];
     projectsTable := [project1];
     analysisSessionsTable := [session1];
     securityIssuesTable := [SecurityIssue.set_resolved true issue1] |}.

Definition quiet : Env := envOf (Throw UpstreamError).

(* ================================================================== *)
(** * Predicates the statements are written with *)
(* ================================================================== *)

Unset Implicit Arguments.

(** The severity of a finding is one of the four values of the enum. *)
Definition severity_ok (v : Vuln.t) : Prop :=
  In (Vuln.severity v) severityValues.

(** A row stored for one of the findings [vs] of session [sid]. *)
Definition stored_from (sid : jsstring) (vs : list Vuln.t)
           (i : SecurityIssue.t) : Prop :=
  exists v issueId createdAt, In v vs /\ i = issueRow issueId sid v createdAt.

(** The session id of a [startAnalysis] run started in world [w]. *)
Definition sessionIdOf (E : Env) (w : World) : jsstring :=
  randomUUID E (uuid_calls w).

(** The session row of a run started in [w] that found [vs]. *)
Definition sessionRowOf (E : Env) (w : World) (projectId : jsstring)
           (vs : list Vuln.t) : AnalysisSession.t :=
  sessionRow (sessionIdOf E w) projectId vs
             (clock E (S (S (clock_calls w))) - clock E (S (clock_calls w)))%Z
             (clock E (clock_calls w)) (clock E (S (S (S (clock_calls w))))).

(** What a run that gets past the checks does. *)
Definition analysed (E : Env) (c : Context jsstring) (w : World)
           (r : Response * World) : Prop :=
  exists project vs new,
    In project (projectsTable (db w)) /\ Project.id project = valid c /\
    analyzeCode E (Project.content project) (Project.name project) = Ok vs /\
    fst r = successResponse []
              (AnalysisResults (sessionRowOf E w (valid c) vs) new)
              (js "Analysis completed successfully") HttpStatusCodes.CREATED /\
    apiKeysTable (db (snd r)) = apiKeysTable (db w) /\
    analysisSessionsTable (db (snd r))
      = analysisSessionsTable (db w) ++ [sessionRowOf E w (valid c) vs] /\
    securityIssuesTable (db (snd r)) = securityIssuesTable (db w) ++ new /\
    Forall (stored_from (sessionIdOf E w) vs) new.

(** The identifier the next [crypto.randomUUID()] hands out is not yet
    the id of a session. *)
Definition fresh_session_id (E : Env) (w : World) : Prop :=
  forall s, In s (analysisSessionsTable (db w)) ->
            AnalysisSession.id s <> sessionIdOf E w.

(** Three backticks. *)
Definition fence : jsstring := js "```".

(** A fenced block: the fence, a tag, white space, the payload, white
    space, the fence, and what follows. *)
Definition fenced (tag ws1 payload ws2 post : jsstring) : jsstring :=
  fence ++ tag ++ ws1 ++ payload ++ ws2 ++ fence ++ post.

(** The findings and the sessions of a world. *)
Definition issues (w : World) : list SecurityIssue.t :=
  securityIssuesTable (db w).

Definition sessions (w : World) : list AnalysisSession.t :=
  analysisSessionsTable (db w).

(** The finding [issueId] hangs, through its session, on a project of
    the key [apiKeyId]. *)
Definition owns_issue (d : DB) (apiKeyId issueId : jsstring) : Prop :=
  exists i s p,
    In i (securityIssuesTable d) /\ In s (analysisSessionsTable d) /\
    In p (projectsTable d) /\
    SecurityIssue.id i = issueId /\
    SecurityIssue.analysisSessionId i = AnalysisSession.id s /\
    AnalysisSession.projectId s = Project.id p /\
    Project.apiKeyId p = apiKeyId.

(** No finding has the id [issueId]. *)
Definition issue_absent (d : DB) (issueId : jsstring) : Prop :=
  forall i, In i (securityIssuesTable d) -> SecurityIssue.id i <> issueId.

(** The finding exists, and no project it hangs on is the caller's. *)
Definition issue_foreign (d : DB) (apiKeyId issueId : jsstring) : Prop :=
  (exists i, In i (securityIssuesTable d) /\ SecurityIssue.id i = issueId)
  /\ ~ owns_issue d apiKeyId issueId.

(** No session has the id [sessionId]. *)
Definition session_absent (d : DB) (sessionId : jsstring) : Prop :=
  forall s, In s (analysisSessionsTable d) -> AnalysisSession.id s <> sessionId.

(** The session [sessionId] belongs to a project of the key
    [apiKeyId]. *)
Definition owns_session (d : DB) (apiKeyId sessionId : jsstring) : Prop :=
  exists s p,
    In s (analysisSessionsTable d) /\ In p (projectsTable d) /\
    AnalysisSession.id s = sessionId /\
    AnalysisSession.projectId s = Project.id p /\
    Project.apiKeyId p = apiKeyId.

(** The session exists, and no project it hangs on is the caller's. *)
Definition session_foreign (d : DB) (apiKeyId sessionId : jsstring) : Prop :=
  (exists s, In s (analysisSessionsTable d) /\ AnalysisSession.id s = sessionId)
  /\ ~ owns_session d apiKeyId sessionId.

(** The request carries a token that maps to the active key [apiKeyId]. *)
Definition principal {P} (E : Env) (d : DB) (c : Context P)
           (apiKeyId : jsstring) : Prop :=
  exists apiKey,
    getApiKeyFromHeader c = Some apiKey /\ JsString.falsy apiKey = false /\
    validateApiKey E d apiKey = Some apiKeyId.

(** The two answers for a target the caller cannot reach. *)
Definition sessionNotFound : Response :=
  errorResponse [] (js "Analysis session not found") HttpStatusCodes.NOT_FOUND.

Definition issueNotFound : Response :=
  errorResponse [] (js "Issue not found") HttpStatusCodes.NOT_FOUND.

(** The statuses the handlers answer with. *)
Definition statuses : list Z :=
  [HttpStatusCodes.OK; HttpStatusCodes.CREATED; HttpStatusCodes.BAD_REQUEST;
   HttpStatusCodes.UNAUTHORIZED; HttpStatusCodes.NOT_FOUND;
   HttpStatusCodes.INTERNAL_SERVER_ERROR].

(** The fields of a finding other than the two toggles. *)
Definition unchanged_fields (i i' : SecurityIssue.t) : Prop :=
  SecurityIssue.id i' = SecurityIssue.id i /\
  SecurityIssue.analysisSessionId i' = SecurityIssue.analysisSessionId i /\
  SecurityIssue.severity i' = SecurityIssue.severity i /\
  SecurityIssue.type i' = SecurityIssue.type i /\
  SecurityIssue.category i' = SecurityIssue.category i /\
  SecurityIssue.filePath i' = SecurityIssue.filePath i /\
  SecurityIssue.lineNumber i' = SecurityIssue.lineNumber i /\
  SecurityIssue.codeSnippet i' = SecurityIssue.codeSnippet i /\
  SecurityIssue.description i' = SecurityIssue.description i /\
  SecurityIssue.recommendation i' = SecurityIssue.recommendation i /\
  SecurityIssue.confidenceScore i' = SecurityIssue.confidenceScore i /\
  SecurityIssue.createdAt i' = SecurityIssue.createdAt i.

(** Only [resolved] may differ. *)
Definition only_resolved (i i' : SecurityIssue.t) : Prop :=
  unchanged_fields i i' /\
  SecurityIssue.falsePositive i' = SecurityIssue.falsePositive i.

(** Only [falsePositive] may differ. *)
Definition only_falsePositive (i i' : SecurityIssue.t) : Prop :=
  unchanged_fields i i' /\ SecurityIssue.resolved i' = SecurityIssue.resolved i.

(** The world after [.update(securityIssuesTable).set(f).where(cond)]. *)
Definition toggled (cond : SecurityIssue.t -> bool)
           (f : SecurityIssue.t -> SecurityIssue.t) (w : World) : World :=
  {| db := {| apiKeysTable := apiKeysTable (db w);
              projectsTable := projectsTable (db w);
              analysisSessionsTable := analysisSessionsTable (db w);
              securityIssuesTable :=
                fst (Sql.update cond f (securityIssuesTable (db w))) |};
     uuid_calls := uuid_calls w;
     clock_calls := clock_calls w |}.

(** [eq(securityIssuesTable.id, issueId)] *)
Definition has_id (issueId : jsstring) (i : SecurityIssue.t) : bool :=
  JsString.eqb (SecurityIssue.id i) issueId.

(** What the reasoning service answers to the prompt of
    [analyzeCode]. *)
Definition prompt_answer (E : Env) (content projectName : jsstring)
  : Result jsstring :=
  generateContent E (userPrompt E content projectName).

(** The entry schema throws on the entry. *)
Definition entry_rejected (entry : Json.value) : Prop :=
  VulnerabilityEntrySchema (Some entry) = Throw ZodError.

(** The ways in which C4 lets an entry miss the schema. *)
Inductive listed_violation (o : list (jsstring * Json.value)) : Prop :=
| bad_severity (s : jsstring) :
    Json.get (js "severity") o = Some (Json.Str s) ->
    ~ In s severityValues -> listed_violation o
| empty_field (k : jsstring) :
    In k [js "type"; js "category"; js "filePath"] ->
    Json.get k o = Some (Json.Str []) -> listed_violation o
| short_text (k s : jsstring) :
    In k [js "description"; js "recommendation"] ->
    Json.get k o = Some (Json.Str s) ->
    (List.length s < 10)%nat -> listed_violation o
| confidence_out_of_range (x : Q) :
    Json.get (js "confidenceScore") o = Some (Json.Num x) ->
    x < 0 \/ 1 < x -> listed_violation o.

(** The counts of a session row add up to its total. *)
Definition counts_consistent (s : AnalysisSession.t) : Prop :=
  (AnalysisSession.criticalIssues s + AnalysisSession.highIssues s
   + AnalysisSession.mediumIssues s + AnalysisSession.lowIssues s
   = AnalysisSession.totalIssues s)%nat.

(** The reasoning call failed: it threw, or answered with the empty
    text, or its answer holds no candidate, or the candidate is not JSON,
    or the JSON does not fit the schema. *)
Definition upstream_failed (answer : Result jsstring) : Prop :=
  match answer with
  | Throw _ => True
  | Ok text =>
      text = [] \/ extractJsonText text = []
      \/ (exists e, Json.parse (extractJsonText text) = Throw e)
      \/ (exists v e, Json.parse (extractJsonText text) = Ok v
                      /\ VulnerabilityDetectionSchema v = Throw e)
  end.

(** The project [projectId] is one of the key [apiKeyId]. *)
Definition owns_project (d : DB) (apiKeyId projectId : jsstring) : Prop :=
  exists p, In p (projectsTable d) /\ Project.id p = projectId
            /\ Project.apiKeyId p = apiKeyId.

(** An entry that fails validation: the schema throws on it, be it for
    one of the listed reasons or any other. *)
Definition entry_fails (entry : Json.value) : Prop :=
  entry_rejected entry
  \/ exists o, entry = Json.Obj o /\ listed_violation o.

(** The batch of [answer_one_bad_entry], parsed. *)
Definition parsed_bad_batch : Result Json.value :=
  Eval vm_compute in Json.parse (extractJsonText answer_one_bad_entry).

(** Its two entries. *)
Definition bad_batch_entries : list Json.value :=
  match parsed_bad_batch with
  | Ok (Json.Obj [(_, Json.Arr entries)]) => entries
  | _ => []
  end.

(** What C5 says of fenced payloads, for arbitrary prose around the
    block. *)
Definition fenced_payload_always_extracted : Prop :=
  forall (E : Env) (content projectName pre ws1 payload ws2 post : jsstring)
         (v : Json.value) (vs : list Vuln.t),
    prompt_answer E content projectName
    = Ok (pre ++ fenced (js "json") ws1 payload ws2 post) ->
    Forall (fun c => Regex.is_space c = true) ws1 ->
    Forall (fun c => Regex.is_space c = true) ws2 ->
    Json.parse payload = Ok v ->
    VulnerabilityDetectionSchema v = Ok vs ->
    analyzeCode E content projectName = Ok vs.

(** The payload of [answer_prose_with_fence], parsed. *)
Definition one_finding_parsed : Json.value :=
  Json.Obj [(js "vulnerabilities",
             Json.Arr [Json.Obj
               [(js "severity", Json.Str (js "critical"));
                (js "type", Json.Str (js "SQL Injection"));
                (js "category", Json.Str (js "Input Validation"));
                (js "filePath", Json.Str (js "src/db.js"));
                (js "description",
                 Json.Str (js "User input reaches the query"));
                (js "recommendation",
                 Json.Str (js "Use parameterised queries"))]])].

(** The findings of [answer_two_findings]. *)
Definition two_findings : list Vuln.t :=
  [sample_vuln "critical";
   Vuln.mk (js "low") (js "SQL Injection") (js "Input Validation")
           (js "src/db.js") None None (js "User input reaches the query")
           (js "Use parameterised queries") (Some 0)].

(** What C6 says: without a fence the candidate is the first balanced
    brace group. *)
Definition candidate_is_first_balanced : Prop :=
  forall text,
    has_fence text = false ->
    extractJsonText text = match first_balanced text with
                           | Some g => g
                           | None => []
                           end.

(** What C9 closes with: only the two toggle routes change findings
    that exist. *)
Definition only_toggle_routes_mutate : Prop :=
  forall (E : Env) (r : Request) (w : World),
    (forall c, r <> ResolveIssue c) -> (forall c, r <> MarkFalsePositive c) ->
    exists new, issues (snd (handle E r w)) = issues w ++ new.

(* ================================================================== *)
(** * Further routes, and the predicates of the further properties *)
(* ================================================================== *)

(** ** Who is asking *)

(** The [Authorization] header a request carries. *)
Definition request_header (r : Request) : option jsstring :=
  match r with
  | StartAnalysis c => authorization c
  | GetAnalysisResults c => authorization c
  | ExportAnalysis c => authorization c
  | GetIssue c => authorization c
  | ResolveIssue c => authorization c
  | MarkFalsePositive c => authorization c
  | BulkUpdateIssues c => authorization c
  end.

(** No active key of the store has the digest of the token the header
    carries: the header is missing, is not of the form [Bearer token],
    carries the empty token, or the token's digest belongs to no key or
    to revoked keys only. *)
Definition no_active_key (E : Env) (d : DB) (header : option jsstring)
  : Prop :=
  forall apiKey row,
    header = Some (js "Bearer " ++ apiKey) -> apiKey <> [] ->
    In row (apiKeysTable d) ->
    ApiKey.keyHash row = sha256_hex E apiKey ->
    ApiKey.isActive row = false.

(** ** The score as a function of the findings *)

(** What one entry takes off the score before the clamp. *)
Definition weight (v : Vuln.t) : Q :=
  num (countSeverity (js "critical") [v]) * 3
  + num (countSeverity (js "high") [v]) * 2
  + num (countSeverity (js "medium") [v]) * 1
  + num (countSeverity (js "low") [v]) * (1 # 2).

(** The sum the score subtracts from ten. *)
Definition penalty (vs : list Vuln.t) : Q :=
  num (critical (issueCounts vs)) * 3 + num (high (issueCounts vs)) * 2
  + num (medium (issueCounts vs)) * 1 + num (low (issueCounts vs)) * (1 # 2).

(** ** What [analyzeCode] lets through *)

(** The bounds the entry schema puts on a finding. *)
Definition within_schema (v : Vuln.t) : Prop :=
  In (Vuln.severity v) severityValues /\
  (1 <= List.length (Vuln.type v))%nat /\
  (1 <= List.length (Vuln.category v))%nat /\
  (1 <= List.length (Vuln.filePath v))%nat /\
  (10 <= List.length (Vuln.description v))%nat /\
  (10 <= List.length (Vuln.recommendation v))%nat /\
  match Vuln.confidenceScore v with
  | Some x => 0 <= x /\ x <= 1
  | None => True
  end.

(** ** A run of [startAnalysis], step by step *)

(** The world once the session row is in: one identifier and four clock
    readings were taken. *)
Definition afterSession (w : World) (row : AnalysisSession.t) : World :=
  {| db := {| apiKeysTable := apiKeysTable (db w);
              projectsTable := projectsTable (db w);
              analysisSessionsTable := analysisSessionsTable (db w) ++ [row];
              securityIssuesTable := securityIssuesTable (db w) |};
     uuid_calls := S (uuid_calls w);
     clock_calls := S (S (S (S (clock_calls w)))) |}.

(** The world once the project is stamped: two more clock readings. *)
Definition afterTouch (E : Env) (project : Project.t) (w : World) : World :=
  {| db := {| apiKeysTable := apiKeysTable (db w);
              projectsTable :=
                fst (Sql.update
                       (fun p => JsString.eqb (Project.id p)
                                              (Project.id project))
                       (Project.touch (clock E (clock_calls w))
                                      (clock E (S (clock_calls w))))
                       (projectsTable (db w)));
              analysisSessionsTable := analysisSessionsTable (db w);
              securityIssuesTable := securityIssuesTable (db w) |};
     uuid_calls := uuid_calls w;
     clock_calls := S (S (clock_calls w)) |}.

(** The row [i] is the finding [v] as stored for session [sid]. *)
Definition stored_as (sid : jsstring) (v : Vuln.t) (i : SecurityIssue.t)
  : Prop :=
  exists issueId createdAt, i = issueRow issueId sid v createdAt.

(** A refused or failed run: an error answer, nothing written. *)
Definition refused (w : World) (r : Response * World) : Prop :=
  db (snd r) = db w /\ data (fst r) = NoData /\ success (fst r) = false /\
  In (status (fst r))
     [HttpStatusCodes.UNAUTHORIZED; HttpStatusCodes.NOT_FOUND;
      HttpStatusCodes.INTERNAL_SERVER_ERROR].

(** A run that got through, with what it went through. *)
Definition completed (E : Env) (c : Context jsstring) (w : World)
           (r : Response * World) (apiKeyId : jsstring) (project : Project.t)
           (vs : list Vuln.t) (stored : list SecurityIssue.t) (w2 : World)
  : Prop :=
  principal E (db w) c apiKeyId /\
  verifyProjectOwnership (db w) (valid c) apiKeyId = true /\
  fresh_session_id E w /\
  Sql.get (Sql.where_ (fun p => JsString.eqb (Project.id p) (valid c))
                      (projectsTable (db w))) = Some project /\
  analyzeCode E (Project.content project) (Project.name project) = Ok vs /\
  storeIssues E (sessionIdOf E w) vs []
              (afterSession w (sessionRowOf E w (valid c) vs))
  = (Ok stored, w2) /\
  r = (successResponse []
         (AnalysisResults (sessionRowOf E w (valid c) vs) stored)
         (js "Analysis completed successfully") HttpStatusCodes.CREATED,
       afterTouch E project w2).

(** The world after the loop stored [new]: every finding took one
    identifier and one clock reading, stored or not. *)
Definition afterStore (w : World) (n : nat) (new : list SecurityIssue.t)
  : World :=
  {| db := {| apiKeysTable := apiKeysTable (db w);
              projectsTable := projectsTable (db w);
              analysisSessionsTable := analysisSessionsTable (db w);
              securityIssuesTable := securityIssuesTable (db w) ++ new |};
     uuid_calls := uuid_calls w + n;
     clock_calls := clock_calls w + n |}.

(** The next [n] identifiers are pairwise distinct and none is the id
    of a finding in [taken]. *)
Definition fresh_ids (E : Env) (taken : list SecurityIssue.t) (from n : nat)
  : Prop :=
  NoDup (map (randomUUID E) (seq from n))
  /\ forall k i, (from <= k < from + n)%nat -> In i taken ->
                 SecurityIssue.id i <> randomUUID E k.

(** ** What a run of [startAnalysis] leaves behind *)

(** A finding as a run stores it for the session [sid]: it points at
    the session, is open, has a severity of the enum and a confidence
    above zero and at most one. *)
Definition newly_stored (sid : jsstring) (i : SecurityIssue.t) : Prop :=
  SecurityIssue.analysisSessionId i = sid /\
  SecurityIssue.resolved i = false /\
  SecurityIssue.falsePositive i = false /\
  In (SecurityIssue.severity i) severityValues /\
  exists x, SecurityIssue.confidenceScore i = Some x /\ 0 < x /\ x <= 1.

(** ** The write routes of the findings *)

(** The ids of the findings a request asks to change. *)
Definition targets (r : Request) : list jsstring :=
  match r with
  | ResolveIssue c => [valid c]
  | MarkFalsePositive c => [valid c]
  | BulkUpdateIssues c => issueIds (valid c)
  | _ => []
  end.

(** A finding after a request: the toggles apart it is as before, and
    it is as before altogether when the request does not name it. *)
Definition kept_as (ids : list jsstring) (i i' : SecurityIssue.t) : Prop :=
  unchanged_fields i i' /\ (~ In (SecurityIssue.id i) ids -> i' = i).

(** The condition of the bulk update, as a function of the caller. *)
Definition ownedIssueIds (d : DB) (data : BulkUpdate) (apiKeyId : jsstring)
  : list jsstring :=
  map (fun row => SecurityIssue.id (fst (fst row)))
      (Sql.where_
         (fun row =>
            JsString.includes (issueIds data)
                              (SecurityIssue.id (fst (fst row)))
            && Sql.eq_null (option_map Project.apiKeyId (snd row)) apiKeyId)
         (issueRows d)).

(** ** The two toggles together *)

(** Does the caller get past the checks of a toggle route? *)
Definition may_toggle (E : Env) (c : Context jsstring) (d : DB) : bool :=
  match getApiKeyFromHeader c with
  | Some apiKey =>
      if JsString.falsy apiKey then false
      else match validateApiKey E d apiKey with
           | Some apiKeyId => verifyIssueOwnership d (valid c) apiKeyId
           | None => false
           end
  | None => false
  end.

(** ** The bulk update *)

(** The requested ids the caller does not own, in the order of the
    request. *)
Definition not_owned (d : DB) (apiKeyId : jsstring) (ids : list jsstring)
  : list jsstring :=
  filter (fun id => negb (verifyIssueOwnership d id apiKeyId)) ids.

(** [inArray(securityIssuesTable.id, ids)] *)
Definition listed (ids : list jsstring) (i : SecurityIssue.t) : bool :=
  JsString.includes ids (SecurityIssue.id i).

(** ** The listing and statistics routes *)

(** The answer of a route whose [data] is not one of the shapes of
    [Payload]: the same envelope, with the data left as a parameter. *)
Record ResponseOf (D : Type) : Type := {
  status_of : Z;
  success_of : bool;
  message_of : jsstring;
  data_of : option D
}.
Arguments status_of {D} _.
Arguments success_of {D} _.
Arguments message_of {D} _.
Arguments data_of {D} _.

(** [errorResponse] and [successResponse] for such a route. *)
Definition errorResponseOf {D} (msg : jsstring) (code : Z) : ResponseOf D :=
  {| status_of := code; success_of := false; message_of := msg;
     data_of := None |}.

Definition successResponseOf {D} (d : D) (msg : jsstring) (code : Z)
  : ResponseOf D :=
  {| status_of := code; success_of := true; message_of := msg;
     data_of := Some d |}.

(** [try { body } catch] with a fixed answer, as [catch_all]. *)
Definition catch_all_of {D} (body : M (ResponseOf D))
           (on_error : ResponseOf D) : World -> ResponseOf D * World :=
  fun w => match body w with
           | (Ok r, w') => (r, w')
           | (Throw _, w') => (on_error, w')
           end.

(** The opening of a handler, as [authenticated]. *)
Definition authenticatedOf {D P} (E : Env) (c : Context P)
           (k : jsstring -> M (ResponseOf D)) : M (ResponseOf D) :=
  match getApiKeyFromHeader c with
  | None =>
      ret (errorResponseOf (js "Authorization required")
                           HttpStatusCodes.UNAUTHORIZED)
  | Some apiKey =>
      if JsString.falsy apiKey then
        ret (errorResponseOf (js "Authorization required")
                             HttpStatusCodes.UNAUTHORIZED)
      else
        (d <- getDb ;;
         match validateApiKey E d apiKey with
         | None =>
             ret (errorResponseOf (js "Invalid API key")
                                  HttpStatusCodes.UNAUTHORIZED)
         | Some apiKeyId => k apiKeyId
         end)%handler
  end.

(** The validated query of [listIssues], as [IssueValidation.listQuery]
    lets it through: every field may be missing; [limit] and [offset]
    are numbers, not necessarily whole. *)
Record ListQuery : Type := {
  q_severity : option jsstring;
  q_resolved : option bool;
  q_falsePositive : option bool;
  q_type : option jsstring;
  q_category : option jsstring;
  q_projectId : option jsstring;
  q_analysisSessionId : option jsstring;
  q_limit : option Q;
  q_offset : option Q
}.

(** One row of the three-way join. *)
Definition IssueRow : Type :=
  (SecurityIssue.t * option AnalysisSession.t * option Project.t)%type.

(** [if (query.f) whereConditions.push(eq(column, query.f))] for a text
    field: a missing or empty value adds no condition. *)
Definition text_filter (f : option jsstring) (column : jsstring) : bool :=
  match f with
  | Some v => if JsString.falsy v then true else JsString.eqb column v
  | None => true
  end.

(** The same for a text field compared with a column of the joined
    project, which is null when the finding has no project. *)
Definition text_filter_null (f : option jsstring) (column : option jsstring)
  : bool :=
  match f with
  | Some v => if JsString.falsy v then true else Sql.eq_null column v
  | None => true
  end.

(** [if (query.f !== undefined) whereConditions.push(eq(column, query.f))] *)
Definition bool_filter (f : option bool) (column : bool) : bool :=
  match f with
  | Some v => Bool.eqb column v
  | None => true
  end.

(** [and(...whereConditions)] of [listIssues] *)
Definition whereConditions (query : ListQuery) (apiKeyId : jsstring)
           (row : IssueRow) : bool :=
  let issue := fst (fst row) in
  Sql.eq_null (option_map Project.apiKeyId (snd row)) apiKeyId
  && text_filter (q_severity query) (SecurityIssue.severity issue)
  && bool_filter (q_resolved query) (SecurityIssue.resolved issue)
  && bool_filter (q_falsePositive query) (SecurityIssue.falsePositive issue)
  && text_filter (q_type query) (SecurityIssue.type issue)
  && text_filter (q_category query) (SecurityIssue.category issue)
  && text_filter_null (q_projectId query) (option_map Project.id (snd row))
  && text_filter (q_analysisSessionId query)
                 (SecurityIssue.analysisSessionId issue).

(** A number the store takes as a row count: one that is a whole number
    of sixty-four bits, which it reads as that integer; it refuses any
    other. *)
Definition whole (x : Q) : option Z :=
  let n := Qnum (Qred x) in
  if ((Qden (Qred x) =? 1)%positive
      && (- 2 ^ 63 <=? n)%Z && (n <? 2 ^ 63)%Z)%bool
  then Some n else None.

(** [.limit(n).offset(k)]: a negative limit is no limit, a negative
    offset is none; the store throws when either is not such a number
    (the handler's [catch] does not look at what was thrown). *)
Definition limit_offset {A} (n k : Q) (rows : list A) : Result (list A) :=
  match whole n, whole k with
  | Some limit, Some offset =>
      let rest := skipn (Z.to_nat offset) rows in
      Ok (if (limit <? 0)%Z then rest else firstn (Z.to_nat limit) rest)
  | _, _ => Throw ConstraintError
  end.

(** An element of the answer of [listIssues]:
    [{ ...row.issue, projectName, projectId }] *)
Record EnhancedIssue : Type := {
  enh_issue : SecurityIssue.t;
  enh_projectName : option jsstring;
  enh_projectId : option jsstring
}.

Definition enhance (row : IssueRow) : EnhancedIssue :=
  {| enh_issue := fst (fst row);
     enh_projectName := option_map Project.name (snd row);
     enh_projectId := option_map Project.id (snd row) |}.

(** [listIssues] *)
Definition listIssues (E : Env) (c : Context ListQuery)
  : World -> ResponseOf (list EnhancedIssue) * World :=
  let query := valid c in
  catch_all_of
    (authenticatedOf E c (fun apiKeyId =>
       d <- getDb ;;
       issues <- lift (limit_offset (or_number (q_limit query) 50)
                                    (or_number (q_offset query) 0)
                                    (Sql.where_
                                       (whereConditions query apiKeyId)
                                       (issueRows d))) ;;
       let enhancedIssues := map enhance issues in
       ret (successResponseOf enhancedIssues
              (js "Issues retrieved successfully")
              HttpStatusCodes.OK))%handler)
    (errorResponseOf (js "Error listing issues")
                     HttpStatusCodes.INTERNAL_SERVER_ERROR).

(** The rows [where(eq(projectsTable.apiKeyId, apiKeyId))] leaves of the
    join: the findings of the caller. *)
Definition ownedRows (d : DB) (apiKeyId : jsstring) : list IssueRow :=
  Sql.where_
    (fun row => Sql.eq_null (option_map Project.apiKeyId (snd row)) apiKeyId)
    (issueRows d).

(** One more row with the key [k]. *)
Fixpoint bump {K} (same : K -> K -> bool) (k : K) (groups : list (K * nat))
  : list (K * nat) :=
  match groups with
  | [] => [(k, 1%nat)]
  | (k', n) :: rest =>
      if same k' k then (k', S n) :: rest
      else (k', n) :: bump same k rest
  end.

(** [.groupBy(key)] with [count( * )]: one row for each key, with the
    number of rows that have it.  The store promises no order of the
    groups; here they come as their keys first occur. *)
Definition groupCount {A K} (same : K -> K -> bool) (key : A -> K)
           (rows : list A) : list (K * nat) :=
  fold_left (fun groups row => bump same (key row) groups) rows [].

Fixpoint insertByCount {K} (g : K * nat) (sorted : list (K * nat))
  : list (K * nat) :=
  match sorted with
  | [] => [g]
  | h :: rest =>
      if (snd h <? snd g)%nat then g :: h :: rest
      else h :: insertByCount g rest
  end.

(** [.orderBy(sql`count( * ) DESC`)]; groups of the same count stay in
    the order they had (the store promises none). *)
Definition orderByCountDesc {K} (groups : list (K * nat)) : list (K * nat) :=
  fold_right insertByCount [] groups.

(** [o[k] = v] on an object kept as the list of its entries. *)
Fixpoint setEntry {V} (k : jsstring) (v : V) (o : list (jsstring * V))
  : list (jsstring * V) :=
  match o with
  | [] => [(k, v)]
  | (k', v') :: rest =>
      if JsString.eqb k' k then (k', v) :: rest
      else (k', v') :: setEntry k v rest
  end.

(** [Object.fromEntries(entries)]: a later entry of the same key
    replaces the value of the earlier one. *)
Definition fromEntries {V} (entries : list (jsstring * V))
  : list (jsstring * V) :=
  fold_left (fun o e => setEntry (fst e) (snd e) o) entries [].

Module StatusSummary.
Record t : Type := mk {
  open : nat;
  resolved : nat;
  falsePositive : nat
}.
End StatusSummary.

(** The body of [issuesByStatus.forEach]: a group of false positives
    counts as such whether resolved or not. *)
Definition addStatus (summary : StatusSummary.t) (row : bool * bool * nat)
  : StatusSummary.t :=
  let resolved := fst (fst row) in
  let falsePositive := snd (fst row) in
  let count := snd row in
  if falsePositive then
    StatusSummary.mk (StatusSummary.open summary)
                     (StatusSummary.resolved summary)
                     (StatusSummary.falsePositive summary + count)
  else if resolved then
    StatusSummary.mk (StatusSummary.open summary)
                     (StatusSummary.resolved summary + count)
                     (StatusSummary.falsePositive summary)
  else
    StatusSummary.mk (StatusSummary.open summary + count)
                     (StatusSummary.resolved summary)
                     (StatusSummary.falsePositive summary).

(** [stats] of [getIssueStats] *)
Record IssueStats : Type := {
  totalIssues : nat;
  severityBreakdown : list (jsstring * nat);
  statusSummary : StatusSummary.t;
  topIssueTypes : list (jsstring * nat)
}.

Definition sameStatus (a b : bool * bool) : bool :=
  Bool.eqb (fst a) (fst b) && Bool.eqb (snd a) (snd b).

(** [getIssueStats].  The count query has no [GROUP BY], so it gives
    one row, and [totalIssues?.count || 0] is its count. *)
Definition getIssueStats (E : Env) (c : Context unit)
  : World -> ResponseOf IssueStats * World :=
  catch_all_of
    (authenticatedOf E c (fun apiKeyId =>
       d <- getDb ;;
       let rows := ownedRows d apiKeyId in
       let totalIssues := List.length rows in
       let issuesBySeverity :=
         groupCount JsString.eqb
                    (fun row : IssueRow =>
                       SecurityIssue.severity (fst (fst row))) rows in
       let issuesByStatus :=
         groupCount sameStatus
                    (fun row : IssueRow =>
                       (SecurityIssue.resolved (fst (fst row)),
                        SecurityIssue.falsePositive (fst (fst row)))) rows in
       let issuesByType :=
         firstn 10
           (orderByCountDesc
              (groupCount JsString.eqb
                          (fun row : IssueRow =>
                             SecurityIssue.type (fst (fst row))) rows)) in
       let statusSummary :=
         fold_left addStatus issuesByStatus (StatusSummary.mk 0 0 0) in
       let stats :=
         {| totalIssues := totalIssues;
            severityBreakdown := fromEntries issuesBySeverity;
            statusSummary := statusSummary;
            topIssueTypes := issuesByType |} in
       ret (successResponseOf stats
              (js "Issue statistics retrieved successfully")
              HttpStatusCodes.OK))%handler)
    (errorResponseOf (js "Error getting issue stats")
                     HttpStatusCodes.INTERNAL_SERVER_ERROR).

(** ** What [listIssues] shows *)

(** The query asks for nothing the finding [i] of the project [p] does
    not have: each field that is given, and not empty, is met. *)
Definition passes (query : ListQuery) (i : SecurityIssue.t) (p : Project.t)
  : Prop :=
  (forall v, q_severity query = Some v -> v <> [] ->
             SecurityIssue.severity i = v) /\
  (forall b, q_resolved query = Some b -> SecurityIssue.resolved i = b) /\
  (forall b, q_falsePositive query = Some b ->
             SecurityIssue.falsePositive i = b) /\
  (forall v, q_type query = Some v -> v <> [] -> SecurityIssue.type i = v) /\
  (forall v, q_category query = Some v -> v <> [] ->
             SecurityIssue.category i = v) /\
  (forall v, q_projectId query = Some v -> v <> [] -> Project.id p = v) /\
  (forall v, q_analysisSessionId query = Some v -> v <> [] ->
             SecurityIssue.analysisSessionId i = v).

(** The finding [i] hangs, through the session [s], on the project [p]
    of the key [apiKeyId]. *)
Definition chain (d : DB) (apiKeyId : jsstring) (i : SecurityIssue.t)
           (s : AnalysisSession.t) (p : Project.t) : Prop :=
  In i (securityIssuesTable d) /\ In s (analysisSessionsTable d) /\
  In p (projectsTable d) /\
  SecurityIssue.analysisSessionId i = AnalysisSession.id s /\
  AnalysisSession.projectId s = Project.id p /\
  Project.apiKeyId p = apiKeyId.

(** An element of the listing as the caller may see it: a finding of
    the caller that passes the query, with the name and the id of its
    project. *)
Definition shown_to (d : DB) (apiKeyId : jsstring) (query : ListQuery)
           (e : EnhancedIssue) : Prop :=
  exists s p,
    chain d apiKeyId (enh_issue e) s p /\ passes query (enh_issue e) p /\
    enh_projectName e = Some (Project.name p) /\
    enh_projectId e = Some (Project.id p).

(** The rows the query selects, before limit and offset. *)
Definition selected (d : DB) (apiKeyId : jsstring) (query : ListQuery)
  : list IssueRow :=
  Sql.where_ (whereConditions query apiKeyId) (issueRows d).

(** ** Grouping and counting *)

(** How many rows meet [f]. *)
Definition count {A} (f : A -> bool) (rows : list A) : nat :=
  List.length (filter f rows).

(** The counts of the groups whose key meets [f], added up. *)
Definition weightIf {K} (f : K -> bool) (groups : list (K * nat)) : nat :=
  fold_right (fun g acc => if f (fst g) then (snd g + acc)%nat else acc)
             0%nat groups.

(** ** Ordering by count *)

(** No group is before one of a larger count. *)
Definition byCountDesc {K} (g h : K * nat) : Prop := (snd h <= snd g)%nat.

(** ** What [getIssueStats] counts *)

Definition issueOf (row : IssueRow) : SecurityIssue.t := fst (fst row).

(** The statistics [stats] are those of the rows [rows]: the total is
    their number; a row counts as a false positive when it is marked so,
    else as resolved when it is resolved, else as open; the breakdown has
    one entry for each severity that occurs, with the number of rows that
    have it; the top types are at most ten types that occur, each with
    the number of rows that have it, and no type left out has more rows
    than one that is in. *)
Definition summarises (rows : list IssueRow) (stats : IssueStats) : Prop :=
  let hasType t := fun row => JsString.eqb (SecurityIssue.type (issueOf row)) t in
  totalIssues stats = List.length rows /\
  StatusSummary.falsePositive (statusSummary stats)
  = count (fun row => SecurityIssue.falsePositive (issueOf row)) rows /\
  StatusSummary.resolved (statusSummary stats)
  = count (fun row => negb (SecurityIssue.falsePositive (issueOf row))
                      && SecurityIssue.resolved (issueOf row)) rows /\
  StatusSummary.open (statusSummary stats)
  = count (fun row => negb (SecurityIssue.falsePositive (issueOf row))
                      && negb (SecurityIssue.resolved (issueOf row))) rows /\
  (StatusSummary.open (statusSummary stats)
   + StatusSummary.resolved (statusSummary stats)
   + StatusSummary.falsePositive (statusSummary stats)
   = totalIssues stats)%nat /\
  list_sum (map snd (severityBreakdown stats)) = totalIssues stats /\
  (forall severity n,
      In (severity, n) (severityBreakdown stats) ->
      n = count (fun row => JsString.eqb (SecurityIssue.severity (issueOf row))
                                         severity) rows
      /\ (0 < n)%nat) /\
  (forall row, In row rows ->
               In (SecurityIssue.severity (issueOf row))
                  (map fst (severityBreakdown stats))) /\
  (List.length (topIssueTypes stats) <= 10)%nat /\
  (forall type n,
      In (type, n) (topIssueTypes stats) ->
      n = count (hasType type) rows /\ (0 < n)%nat) /\
  (forall row, In row rows ->
               In (SecurityIssue.type (issueOf row))
                  (map fst (topIssueTypes stats))
               \/ forall g, In g (topIssueTypes stats) ->
                            (count (hasType (SecurityIssue.type (issueOf row)))
                                   rows <= snd g)%nat).

(** ** The key routes *)

(** [chars] of [generateApiKeyHelper] *)
Definition chars : jsstring :=
  js "ABCDEFGHIJKLMNOPQRSTUVWXYZabcdefghijklmnopqrstuvwxyz0123456789".

(** [s.charAt(n)]: the code unit at [n], or the empty string *)
Definition charAt (s : jsstring) (n : Z) : jsstring :=
  if (n <? 0)%Z then []
  else match nth_error s (Z.to_nat n) with
       | Some c => [c]
       | None => []
       end.

(** [generateApiKeyHelper]; [random i] is what the call number [i] of
    [Math.random()] gives. *)
Definition generateApiKeyHelper (random : nat -> Q) : jsstring :=
  fold_left
    (fun result i =>
       result ++ charAt chars
                        (Qfloor (random i
                                 * inject_Z (Z.of_nat (List.length chars)))))
    (seq 0 48) (js "sk-").

(** [hashApiKey]: the same digest [validateApiKey] takes. *)
Definition hashApiKey (E : Env) (key : jsstring) : jsstring :=
  sha256_hex E key.

(** [db.insert(apiKeysTable).values(row).returning()]; the primary key
    and the unique index on [key_hash] make the insert throw when the id
    or the digest is taken. *)
Definition insertApiKey (row : ApiKey.t) : M ApiKey.t :=
  (d <- getDb ;;
   if existsb (fun k => JsString.eqb (ApiKey.id k) (ApiKey.id row)
                        || JsString.eqb (ApiKey.keyHash k)
                                        (ApiKey.keyHash row))
              (apiKeysTable d)
   then lift (Throw ConstraintError)
   else
     (_ <- setDb {| apiKeysTable := apiKeysTable d ++ [row];
                    projectsTable := projectsTable d;
                    analysisSessionsTable := analysisSessionsTable d;
                    securityIssuesTable := securityIssuesTable d |} ;;
      ret row))%handler.

(** The data of the answer of [generateApiKey]: the row without its
    digest, and the raw key. *)
Record ApiKeyWithKey : Type := {
  akk_id : jsstring;
  akk_key : jsstring;
  akk_name : jsstring;
  akk_createdAt : Z;
  akk_isActive : bool;
  akk_usageCount : Z
}.

(** [generateApiKey]; the validated body is the name.  The route reads
    no [Authorization] header. *)
Definition generateApiKey (E : Env) (random : nat -> Q)
           (c : Context jsstring)
  : World -> ResponseOf ApiKeyWithKey * World :=
  catch_all_of
    (let apiKey := generateApiKeyHelper random in
     let keyHash := hashApiKey E apiKey in
     id <- newUUID E ;;
     createdAt <- newDate E ;;
     newApiKey <- insertApiKey
                    {| ApiKey.id := id;
                       ApiKey.keyHash := keyHash;
                       ApiKey.name := valid c;
                       ApiKey.usageCount := 0;
                       ApiKey.isActive := true;
                       ApiKey.createdAt := createdAt |} ;;
     ret (successResponseOf
            {| akk_id := ApiKey.id newApiKey;
               akk_key := apiKey;
               akk_name := ApiKey.name newApiKey;
               akk_createdAt := ApiKey.createdAt newApiKey;
               akk_isActive := ApiKey.isActive newApiKey;
               akk_usageCount := ApiKey.usageCount newApiKey |}
            (js "API key generated successfully")
            HttpStatusCodes.CREATED))%handler
    (errorResponseOf (js "Error generating API key")
                     HttpStatusCodes.INTERNAL_SERVER_ERROR).

(** ** Deleting a key *)

(** [successResponse(c, null, message, status)] *)
Definition successResponseNull {D} (msg : jsstring) (code : Z)
  : ResponseOf D :=
  {| status_of := code; success_of := true; message_of := msg;
     data_of := None |}.

(** [db.delete(apiKeysTable).where(cond)].  The projects refer to their
    key ([api_key_id] references [api_keys.id], with no action on
    delete), so the store refuses to delete a key that a project still
    names. *)
Definition deleteApiKeys (cond : ApiKey.t -> bool) : M unit :=
  (d <- getDb ;;
   if existsb (fun p =>
                 existsb (fun k => cond k
                                   && JsString.eqb (Project.apiKeyId p)
                                                   (ApiKey.id k))
                         (apiKeysTable d))
              (projectsTable d)
   then lift (Throw ConstraintError)
   else setDb {| apiKeysTable :=
                   filter (fun k => negb (cond k)) (apiKeysTable d);
                 projectsTable := projectsTable d;
                 analysisSessionsTable := analysisSessionsTable d;
                 securityIssuesTable := securityIssuesTable d |})%handler.

(** [deleteApiKey]; the validated parameter is the id of the key.  The
    route reads no [Authorization] header. *)
Definition deleteApiKey (c : Context jsstring)
  : World -> ResponseOf unit * World :=
  catch_all_of
    (d <- getDb ;;
     match Sql.get (Sql.where_
                      (fun k => JsString.eqb (ApiKey.id k) (valid c))
                      (apiKeysTable d)) with
     | None =>
         ret (errorResponseOf (js "API key not found")
                              HttpStatusCodes.NOT_FOUND)
     | Some existingKey =>
         _ <- deleteApiKeys (fun k => JsString.eqb (ApiKey.id k) (valid c)) ;;
         ret (successResponseNull (js "API key deleted successfully")
                                  HttpStatusCodes.OK)
     end)%handler
    (errorResponseOf (js "Error deleting API key")
                     HttpStatusCodes.INTERNAL_SERVER_ERROR).

(** ** The project routes an analysis depends on *)

(** The validated body of [createProject], as
    [ProjectValidation.createProject] lets it through. *)
Record CreateProject : Type := {
  cp_name : jsstring;
  cp_type : jsstring;
  cp_sourceUrl : jsstring;
  cp_content : jsstring;
  cp_languageStats : option jsstring;
  cp_status : option jsstring
}.

(** [x || d] on an optional text: [undefined] and the empty string are
    falsy. *)
Definition or_text (x : option jsstring) (d : jsstring) : jsstring :=
  match x with
  | Some v => if JsString.falsy v then d else v
  | None => d
  end.

(** [db.insert(projectsTable).values(row).returning()]; the primary key
    makes the insert throw when the id is taken.  (The key the row names
    exists: the caller was validated as that key.) *)
Definition insertProject (row : Project.t) : M Project.t :=
  (d <- getDb ;;
   if existsb (fun p => JsString.eqb (Project.id p) (Project.id row))
              (projectsTable d)
   then lift (Throw ConstraintError)
   else
     (_ <- setDb {| apiKeysTable := apiKeysTable d;
                    projectsTable := projectsTable d ++ [row];
                    analysisSessionsTable := analysisSessionsTable d;
                    securityIssuesTable := securityIssuesTable d |} ;;
      ret row))%handler.

(** [createProject] *)
Definition createProject (E : Env) (c : Context CreateProject)
  : World -> ResponseOf Project.t * World :=
  let data := valid c in
  catch_all_of
    (authenticatedOf E c (fun apiKeyId =>
       projectId <- newUUID E ;;
       now <- newDate E ;;
       project <- insertProject
                    {| Project.id := projectId;
                       Project.apiKeyId := apiKeyId;
                       Project.name := cp_name data;
                       Project.type := cp_type data;
                       Project.sourceUrl := cp_sourceUrl data;
                       Project.content := cp_content data;
                       Project.languageStats := cp_languageStats data;
                       Project.status := or_text (cp_status data)
                                                 (js "active");
                       Project.lastAnalyzedAt := None;
                       Project.createdAt := now;
                       Project.updatedAt := now |} ;;
       ret (successResponseOf project (js "Project created successfully")
                              HttpStatusCodes.CREATED))%handler)
    (errorResponseOf (js "Error creating project")
                     HttpStatusCodes.INTERNAL_SERVER_ERROR).

(** [getProjectHistory]; the validated parameter is the project id. *)
Definition getProjectHistory (E : Env) (c : Context jsstring)
  : World -> ResponseOf (list AnalysisSession.t) * World :=
  catch_all_of
    (authenticatedOf E c (fun apiKeyId =>
       d <- getDb ;;
       match Sql.get
               (Sql.where_
                  (fun p => JsString.eqb (Project.id p) (valid c)
                            && JsString.eqb (Project.apiKeyId p) apiKeyId)
                  (projectsTable d)) with
       | None =>
           ret (errorResponseOf (js "Project not found")
                                HttpStatusCodes.NOT_FOUND)
       | Some project =>
           let analysisHistory :=
             Sql.where_ (fun s => JsString.eqb (AnalysisSession.projectId s)
                                               (valid c))
                        (analysisSessionsTable d) in
           ret (successResponseOf analysisHistory
                  (js "Project analysis history retrieved successfully")
                  HttpStatusCodes.OK)
       end)%handler)
    (errorResponseOf (js "Error getting project history")
                     HttpStatusCodes.INTERNAL_SERVER_ERROR).

(** The world after [createProject] stored [p]. *)
Definition afterCreate (w : World) (p : Project.t) : World :=
  {| db := {| apiKeysTable := apiKeysTable (db w);
              projectsTable := projectsTable (db w) ++ [p];
              analysisSessionsTable := analysisSessionsTable (db w);
              securityIssuesTable := securityIssuesTable (db w) |};
     uuid_calls := S (uuid_calls w);
     clock_calls := S (clock_calls w) |}.

(** The row [createProject] makes of the body for the key
    [apiKeyId]. *)
Definition createdProject (E : Env) (w : World) (apiKeyId : jsstring)
           (data : CreateProject) : Project.t :=
  {| Project.id := randomUUID E (uuid_calls w);
     Project.apiKeyId := apiKeyId;
     Project.name := cp_name data;
     Project.type := cp_type data;
     Project.sourceUrl := cp_sourceUrl data;
     Project.content := cp_content data;
     Project.languageStats := cp_languageStats data;
     Project.status := or_text (cp_status data) (js "active");
     Project.lastAnalyzedAt := None;
     Project.createdAt := clock E (clock_calls w);
     Project.updatedAt := clock E (clock_calls w) |}.

(** ** Deleting a project *)

Module ChatMessage.
Record t : Type := mk {
  id : jsstring;
  projectId : jsstring;
  type : jsstring;
  content : jsstring;
  analysisSessionId : option jsstring;
  metadata : option jsstring;
  createdAt : Z
}.
End ChatMessage.

(** The world together with the chat messages, the fifth table
    [deleteProject] writes to. *)
Record Store : Type := {
  main : World;
  chatMessagesTable : list ChatMessage.t
}.

(** Does a row of [children] refer to a row of [deleted]?  The foreign
    keys of the schema take no action on delete, so the store refuses a
    delete that would leave such a reference behind. *)
Definition blocked {A B} (refers : A -> B -> bool) (children : list A)
           (deleted : list B) : bool :=
  existsb (fun a => existsb (refers a) deleted) children.

(** The store after the deletes of [deleteProject] that got through. *)
Definition withTables (st : Store) (projects : list Project.t)
           (analysisSessions : list AnalysisSession.t)
           (securityIssues : list SecurityIssue.t)
           (chatMessages : list ChatMessage.t) : Store :=
  {| main := {| db := {| apiKeysTable := apiKeysTable (db (main st));
                         projectsTable := projects;
                         analysisSessionsTable := analysisSessions;
                         securityIssuesTable := securityIssues |};
                uuid_calls := uuid_calls (main st);
                clock_calls := clock_calls (main st) |};
     chatMessagesTable := chatMessages |}.

(** [deleteProject]; the validated parameter is the project id.  Each
    delete is a statement of its own: what was deleted before the store
    refuses one stays deleted. *)
Definition deleteProject (E : Env) (c : Context jsstring) (st : Store)
  : ResponseOf unit * Store :=
  let id := valid c in
  let d := db (main st) in
  let on_error := errorResponseOf (js "Error deleting project")
                                  HttpStatusCodes.INTERNAL_SERVER_ERROR in
  match getApiKeyFromHeader c with
  | None =>
      (errorResponseOf (js "Authorization required")
                       HttpStatusCodes.UNAUTHORIZED, st)
  | Some apiKey =>
      if JsString.falsy apiKey then
        (errorResponseOf (js "Authorization required")
                         HttpStatusCodes.UNAUTHORIZED, st)
      else
        match validateApiKey E d apiKey with
        | None =>
            (errorResponseOf (js "Invalid API key")
                             HttpStatusCodes.UNAUTHORIZED, st)
        | Some apiKeyId =>
            match Sql.get
                    (Sql.where_
                       (fun p => JsString.eqb (Project.id p) id
                                 && JsString.eqb (Project.apiKeyId p) apiKeyId)
                       (projectsTable d)) with
            | None =>
                (errorResponseOf (js "Project not found")
                                 HttpStatusCodes.NOT_FOUND, st)
            | Some existingProject =>
                (* 1. chat messages: nothing refers to them *)
                let chatMessages :=
                  filter (fun m => negb (JsString.eqb
                                           (ChatMessage.projectId m) id))
                         (chatMessagesTable st) in
                (* 2. the sessions of the project *)
                let analysisSessions :=
                  Sql.where_ (fun s => JsString.eqb
                                         (AnalysisSession.projectId s) id)
                             (analysisSessionsTable d) in
                (* 3. the findings of each: nothing refers to them *)
                let securityIssues :=
                  fold_left
                    (fun issues session =>
                       filter (fun i => negb (JsString.eqb
                                         (SecurityIssue.analysisSessionId i)
                                         (AnalysisSession.id session)))
                              issues)
                    analysisSessions (securityIssuesTable d) in
                (* 4. the sessions: findings and chat messages refer to
                   sessions *)
                if blocked (fun i s => JsString.eqb
                                         (SecurityIssue.analysisSessionId i)
                                         (AnalysisSession.id s))
                           securityIssues analysisSessions
                   || blocked (fun m s => Sql.eq_null
                                            (ChatMessage.analysisSessionId m)
                                            (AnalysisSession.id s))
                              chatMessages analysisSessions
                then
                  (on_error,
                   withTables st (projectsTable d) (analysisSessionsTable d)
                              securityIssues chatMessages)
                else
                  let remainingSessions :=
                    filter (fun s => negb (JsString.eqb
                                             (AnalysisSession.projectId s) id))
                           (analysisSessionsTable d) in
                  (* 5. the project: sessions and chat messages refer to
                     projects *)
                  let deleted :=
                    Sql.where_ (fun p => JsString.eqb (Project.id p) id)
                               (projectsTable d) in
                  if blocked (fun s p => JsString.eqb
                                           (AnalysisSession.projectId s)
                                           (Project.id p))
                             remainingSessions deleted
                     || blocked (fun m p => JsString.eqb
                                              (ChatMessage.projectId m)
                                              (Project.id p))
                                chatMessages deleted
                  then
                    (on_error,
                     withTables st (projectsTable d) remainingSessions
                                securityIssues chatMessages)
                  else
                    (successResponseNull (js "Project deleted successfully")
                                         HttpStatusCodes.OK,
                     withTables st
                       (filter (fun p => negb (JsString.eqb (Project.id p) id))
                               (projectsTable d))
                       remainingSessions securityIssues chatMessages)
            end
        end
  end.

(** What every run of [deleteProject] that gets past the checks has
    done to the findings and to the chat messages of the store [st]:
    the findings of the sessions of the project and the chat messages of
    the project are gone, the others are there. *)
Definition children_gone (st st' : Store) (id : jsstring) : Prop :=
  apiKeysTable (db (main st')) = apiKeysTable (db (main st)) /\
  (forall i, In i (securityIssuesTable (db (main st')))
             <-> In i (securityIssuesTable (db (main st)))
                 /\ forall s, In s (analysisSessionsTable (db (main st))) ->
                              AnalysisSession.projectId s = id ->
                              SecurityIssue.analysisSessionId i
                              <> AnalysisSession.id s) /\
  (forall m, In m (chatMessagesTable st')
             <-> In m (chatMessagesTable st)
                 /\ ChatMessage.projectId m <> id).

(** A chat message of another project names a session of the project
    [id]. *)
Definition named_elsewhere (st : Store) (id : jsstring) : Prop :=
  exists m s,
    In m (chatMessagesTable st) /\ ChatMessage.projectId m <> id /\
    In s (analysisSessionsTable (db (main st))) /\
    AnalysisSession.projectId s = id /\
    ChatMessage.analysisSessionId m = Some (AnalysisSession.id s).

(* ================================================================== *)
(** * Proofs *)
(* ================================================================== *)

Lemma jseqb_eq (a b : jsstring) : JsString.eqb a b = true <-> a = b.
Proof.
  revert b; induction a as [|x a IH]; intros [|y b]; simpl; split; intro H;
    try reflexivity; try discriminate.
  - apply andb_true_iff in H as [Hx Hab].
    apply N.eqb_eq in Hx. apply IH in Hab. now subst.
  - inversion H; subst. apply andb_true_iff; split.
    + apply N.eqb_refl.
    + now apply IH.
Qed.

Lemma jseqb_refl (a : jsstring) : JsString.eqb a a = true.
Proof. now apply jseqb_eq. Qed.

Lemma jseqb_neq (a b : jsstring) : JsString.eqb a b = false <-> a <> b.
Proof.
  split; intro H.
  - intros ->. rewrite jseqb_refl in H. discriminate.
  - destruct (JsString.eqb a b) eqn:E; [|reflexivity].
    apply jseqb_eq in E. contradiction.
Qed.

Lemma num_nonneg (n : nat) : 0 <= num n.
Proof.
  unfold num. change 0 with (inject_Z 0). rewrite <- Zle_Qle. lia.
Qed.

Lemma overallScore_formula (vs : list Vuln.t) :
  overallScore vs == spec_overallScore (issueCounts vs).
Proof.
  unfold overallScore, spec_overallScore, clamp.
  set (cs := issueCounts vs).
  pose proof (num_nonneg (critical cs)) as Hc.
  pose proof (num_nonneg (high cs)) as Hh.
  pose proof (num_nonneg (medium cs)) as Hm.
  pose proof (num_nonneg (low cs)) as Hl.
  destruct (0 <? List.length vs)%nat eqn:E.
  - destruct (Q.max_spec 0 (10 - (num (critical cs) * 3 + num (high cs) * 2
                  + num (medium cs) * 1 + num (low cs) * (1 # 2)))) as [[? ->]|[? ->]];
    destruct (Q.min_spec 10 (10 - (3 * num (critical cs) + 2 * num (high cs)
               + 1 * num (medium cs) + (1 # 2) * num (low cs)))) as [[? E2]|[? E2]];
    match goal with |- _ == Qmax 0 ?m =>
      destruct (Q.max_spec 0 m) as [[? ->]|[? ->]] end; lra.
  - apply Nat.ltb_ge in E.
    assert (vs = []) as -> by (destruct vs; [reflexivity | simpl in E; lia]).
    reflexivity.
Qed.

(** ** The platform model on small inputs *)

Example parse_numbers :
  Json.parse (js "[1, -2.50, 1e2, 0.95, true, null]")
  = Ok (Json.Arr [Json.Num 1; Json.Num (-250 # 100); Json.Num 100;
                  Json.Num (95 # 100); Json.Bool true; Json.Null]).
Proof. vm_compute; reflexivity. Qed.

Example parse_object :
  Json.parse (js " {" ++ kv "a" "x\nA" ++ js ", " ++ kv "a" "y" ++ js "} ")
  = Ok (Json.Obj [(js "a", Json.Str [120; 10; 65]%N); (js "a", Json.Str (js "y"))])
  /\ Json.get (js "a") [(js "a", Json.Str [120; 10; 65]%N);
                        (js "a", Json.Str (js "y"))]
     = Some (Json.Str (js "y")).
Proof. split; vm_compute; reflexivity. Qed.

Example parse_rejects :
  Json.parse (js "{oops}") = Throw SyntaxError /\
  Json.parse (js "01") = Throw SyntaxError /\
  Json.parse (js "[1,]") = Throw SyntaxError /\
  Json.parse (js "[1] x") = Throw SyntaxError /\
  Json.parse [] = Throw SyntaxError.
Proof. repeat split; vm_compute; reflexivity. Qed.

(** The lazy group stops at the first closing brace that is followed by
    a fence; the greedy fallback runs to the last closing brace. *)
Example match_codeBlock :
  option_map Regex.group1
    (Regex.str_match codeBlockRegex
       (js "see ```json" ++ nl ++ js "{a:{b}} ``` and ```{c}```"))
  = Some (Some (js "{a:{b}}")).
Proof. vm_compute; reflexivity. Qed.

Example match_fallback :
  option_map Regex.whole (Regex.str_match jsonRegex (js "x {a} y {b} z }{"))
  = Some (js "{a} y {b} z }") /\
  Regex.str_match jsonRegex (js "} only {") = None.
Proof. split; vm_compute; reflexivity. Qed.

Example schema_accepts_sample :
  option_map (VulnerabilityDetectionSchema)
    (match Json.parse (payload_text [finding_text "high" (confidence_text "0.95")]) with
     | Ok v => Some v
     | Throw _ => None
     end)
  = Some (Ok [Vuln.mk (js "high") (js "SQL Injection") (js "Input Validation")
                (js "src/db.js") None None (js "User input reaches the query")
                (js "Use parameterised queries") (Some (95 # 100))]).
Proof. vm_compute; reflexivity. Qed.

(** ** [JSON.parse] never runs out of fuel *)

Lemma skip_ws_length (s : jsstring) :
  (List.length (Json.skip_ws s) <= List.length s)%nat.
Proof.
  induction s as [|c s IH]; simpl; [lia|].
  destruct (Json.is_ws c); simpl; lia.
Qed.

Lemma digits_length (s : jsstring) :
  forall acc n v m r,
    Json.digits s acc n = (v, m, r) ->
    (List.length r + m = List.length s + n)%nat.
Proof.
  induction s as [|c s IH]; intros acc n v m r H; simpl in H.
  - inversion H; subst. reflexivity.
  - destruct (Json.digit c).
    + apply IH in H. simpl. lia.
    + inversion H; subst. reflexivity.
Qed.

Ltac split_match H :=
  match type of H with
  | (if ?b then _ else _) = Some _ => destruct b eqn:?
  | match ?x with _ => _ end = Some _ => destruct x eqn:?
  | (let (_, _) := ?x in _) = Some _ => destruct x eqn:?
  end.

Ltac crunch :=
  repeat match goal with
         | E : Json.digits _ _ _ = _ |- _ => apply digits_length in E
         | E : (_, _) = (_, _) |- _ => inversion E; subst; clear E
         | E : Some _ = Some _ |- _ => inversion E; subst; clear E
         | E : None = Some _ |- _ => discriminate E
         | E : (if ?b then _ else _) = _ |- _ => destruct b eqn:?
         | E : match ?x with _ => _ end = _ |- _ => destruct x eqn:?
         end.

Lemma number_length (s : jsstring) (x : Q) (r : jsstring) :
  Json.number s = Some (x, r) -> (List.length r < List.length s)%nat.
Proof.
  unfold Json.number. intro H.
  repeat (first [ discriminate H | split_match H ]).
  all: crunch.
  all: simpl in *; lia.
Qed.

Lemma string_body_length (n : nat) :
  forall s acc str r,
    (List.length s <= n)%nat ->
    Json.string_body s acc = Some (str, r) ->
    (List.length r < List.length s)%nat.
Proof.
  induction n as [|n IH]; intros s acc str r Hn H.
  - destruct s; [discriminate H | simpl in Hn; lia].
  - destruct s as [|c s]; [discriminate H|].
    cbn [Json.string_body] in H. simpl in Hn.
    repeat match goal with
           | E : Json.string_body ?t _ = Some _ |- _ =>
               is_var t; apply IH in E; [|simpl in *; lia]
           | E : Some _ = Some _ |- _ => inversion E; subst; clear E
           | E : None = Some _ |- _ => discriminate E
           | E : (if ?b then _ else _) = Some _ |- _ => destruct b eqn:?
           | E : match ?x with _ => _ end = Some _ |- _ => destruct x eqn:?
           end; simpl in *; try lia.
Qed.

Lemma string_body_lt (s acc str r : jsstring) :
  Json.string_body s acc = Some (str, r) ->
  (List.length r < List.length s)%nat.
Proof. apply (string_body_length (List.length s)). lia. Qed.

Lemma startsWith_length (s p : jsstring) :
  JsString.startsWith s p = true -> (List.length p <= List.length s)%nat.
Proof.
  revert s; induction p as [|x p IH]; intros [|y s] H; simpl in *;
    try lia; try discriminate.
  apply andb_true_iff in H as [_ H]. apply IH in H. lia.
Qed.

(** What a successful parse leaves is shorter than what it was given. *)
Lemma parse_consumes (f : nat) :
  (forall s v r, Json.parse_value f s = Some (v, r) ->
                 (List.length r < List.length s)%nat) /\
  (forall s acc v r, Json.parse_elements f s acc = Some (v, r) ->
                     (List.length r < List.length s)%nat) /\
  (forall s acc v r, Json.parse_members f s acc = Some (v, r) ->
                     (List.length r < List.length s)%nat).
Proof.
  induction f as [|f (IHv & IHe & IHm)];
    [repeat split; intros; discriminate|].
  repeat split.
  - intros s v r H. cbn [Json.parse_value] in H.
    pose proof (skip_ws_length s) as Hs.
    destruct (Json.skip_ws s) as [|c t] eqn:Et; [discriminate H|].
    simpl in Hs.
    destruct (N.eqb c 123).
    { pose proof (skip_ws_length t) as Ht.
      destruct (Json.skip_ws t) as [|c2 t2]; [discriminate H|].
      destruct (N.eqb c2 125).
      - inversion H; subst. simpl in Ht. lia.
      - apply IHm in H. lia. }
    destruct (N.eqb c 91).
    { pose proof (skip_ws_length t) as Ht.
      destruct (Json.skip_ws t) as [|c2 t2]; [discriminate H|].
      destruct (N.eqb c2 93).
      - inversion H; subst. simpl in Ht. lia.
      - apply IHe in H. lia. }
    destruct (N.eqb c 34).
    { destruct (Json.string_body t []) as [[str r']|] eqn:Eb;
        [|discriminate H].
      apply string_body_lt in Eb. inversion H; subst. lia. }
    destruct (JsString.startsWith (c :: t) (js "true")) eqn:E1.
    { apply startsWith_length in E1. inversion H; subst.
      pose proof (length_skipn 4 (c :: t)) as Hk. simpl in *. lia. }
    destruct (JsString.startsWith (c :: t) (js "false")) eqn:E2.
    { apply startsWith_length in E2. inversion H; subst.
      pose proof (length_skipn 5 (c :: t)) as Hk. simpl in *. lia. }
    destruct (JsString.startsWith (c :: t) (js "null")) eqn:E3.
    { apply startsWith_length in E3. inversion H; subst.
      pose proof (length_skipn 4 (c :: t)) as Hk. simpl in *. lia. }
    destruct (Json.number (c :: t)) as [[x r']|] eqn:En; [|discriminate H].
    apply number_length in En. inversion H; subst. simpl in *. lia.
  - intros s acc v r H. cbn [Json.parse_elements] in H.
    destruct (Json.parse_value f s) as [[v1 r1]|] eqn:Ev; [|discriminate H].
    apply IHv in Ev. pose proof (skip_ws_length r1) as Hs.
    destruct (Json.skip_ws r1) as [|c t]; [discriminate H|]. simpl in Hs.
    destruct (N.eqb c 44); [apply IHe in H; lia|].
    destruct (N.eqb c 93); [|discriminate H].
    inversion H; subst. lia.
  - intros s acc v r H. cbn [Json.parse_members] in H.
    pose proof (skip_ws_length s) as Hs.
    destruct (Json.skip_ws s) as [|q r0]; [discriminate H|]. simpl in Hs.
    destruct (N.eqb q 34); [|discriminate H].
    destruct (Json.string_body r0 []) as [[key r1]|] eqn:Eb;
      [|discriminate H].
    apply string_body_lt in Eb. pose proof (skip_ws_length r1) as Hs1.
    destruct (Json.skip_ws r1) as [|col r2]; [discriminate H|]. simpl in Hs1.
    destruct (N.eqb col 58); [|discriminate H].
    destruct (Json.parse_value f r2) as [[v1 r3]|] eqn:Ev; [|discriminate H].
    apply IHv in Ev. pose proof (skip_ws_length r3) as Hs3.
    destruct (Json.skip_ws r3) as [|c r4]; [discriminate H|]. simpl in Hs3.
    destruct (N.eqb c 44); [apply IHm in H; lia|].
    destruct (N.eqb c 125); [|discriminate H].
    inversion H; subst. lia.
Qed.

(** One unfolding of each of the three parsers. *)
Lemma parse_value_S (f : nat) (s : jsstring) :
  Json.parse_value (S f) s
  = match Json.skip_ws s with
    | [] => None
    | c :: r =>
        if N.eqb c 123 then
          match Json.skip_ws r with
          | c2 :: r2 => if N.eqb c2 125 then Some (Json.Obj [], r2)
                        else Json.parse_members f r []
          | [] => None
          end
        else if N.eqb c 91 then
          match Json.skip_ws r with
          | c2 :: r2 => if N.eqb c2 93 then Some (Json.Arr [], r2)
                        else Json.parse_elements f r []
          | [] => None
          end
        else if N.eqb c 34 then
          match Json.string_body r [] with
          | Some (str, r') => Some (Json.Str str, r')
          | None => None
          end
        else if JsString.startsWith (c :: r) (js "true") then
          Some (Json.Bool true, skipn 4 (c :: r))
        else if JsString.startsWith (c :: r) (js "false") then
          Some (Json.Bool false, skipn 5 (c :: r))
        else if JsString.startsWith (c :: r) (js "null") then
          Some (Json.Null, skipn 4 (c :: r))
        else
          match Json.number (c :: r) with
          | Some (q, r') => Some (Json.Num q, r')
          | None => None
          end
    end.
Proof. reflexivity. Qed.

Lemma parse_elements_S (f : nat) (s : jsstring) (acc : list Json.value) :
  Json.parse_elements (S f) s acc
  = match Json.parse_value f s with
    | None => None
    | Some (v, r) =>
        match Json.skip_ws r with
        | c :: r' =>
            if N.eqb c 44 then Json.parse_elements f r' (v :: acc)
            else if N.eqb c 93 then Some (Json.Arr (rev (v :: acc)), r')
            else None
        | [] => None
        end
    end.
Proof. reflexivity. Qed.

Lemma parse_members_S (f : nat) (s : jsstring)
      (acc : list (jsstring * Json.value)) :
  Json.parse_members (S f) s acc
  = match Json.skip_ws s with
    | q :: r0 =>
        if N.eqb q 34 then
          match Json.string_body r0 [] with
          | None => None
          | Some (key, r1) =>
              match Json.skip_ws r1 with
              | col :: r2 =>
                  if N.eqb col 58 then
                    match Json.parse_value f r2 with
                    | None => None
                    | Some (v, r3) =>
                        match Json.skip_ws r3 with
                        | c :: r4 =>
                            if N.eqb c 44 then
                              Json.parse_members f r4 ((key, v) :: acc)
                            else if N.eqb c 125 then
                              Some (Json.Obj (rev ((key, v) :: acc)), r4)
                            else None
                        | [] => None
                        end
                    end
                  else None
              | [] => None
              end
          end
        else None
    | [] => None
    end.
Proof. reflexivity. Qed.

(** With the fuel [parse] supplies, one more unit changes nothing. *)
Lemma parse_fuel_step (f : nat) :
  (forall s, (2 * List.length s + 2 <= f)%nat ->
             Json.parse_value (S f) s = Json.parse_value f s) /\
  (forall s acc, (2 * List.length s + 3 <= f)%nat ->
                 Json.parse_elements (S f) s acc = Json.parse_elements f s acc) /\
  (forall s acc, (2 * List.length s + 3 <= f)%nat ->
                 Json.parse_members (S f) s acc = Json.parse_members f s acc).
Proof.
  induction f as [|f (IHv & IHe & IHm)]; [repeat split; intros; lia|].
  destruct (parse_consumes f) as (Cv & _ & _).
  repeat split.
  - intros s Hf. rewrite (parse_value_S (S f)), (parse_value_S f).
    pose proof (skip_ws_length s) as Hs.
    destruct (Json.skip_ws s) as [|c t]; [reflexivity|]. simpl in Hs.
    assert (Ht : (2 * List.length t + 3 <= f)%nat) by lia.
    rewrite (IHm t [] Ht), (IHe t [] Ht). reflexivity.
  - intros s acc Hf. rewrite (parse_elements_S (S f)), (parse_elements_S f).
    rewrite (IHv s) by lia.
    destruct (Json.parse_value f s) as [[v r]|] eqn:Ev; [|reflexivity].
    apply Cv in Ev. pose proof (skip_ws_length r) as Hr.
    destruct (Json.skip_ws r) as [|c r']; [reflexivity|]. simpl in Hr.
    rewrite (IHe r') by lia. reflexivity.
  - intros s acc Hf. rewrite (parse_members_S (S f)), (parse_members_S f).
    pose proof (skip_ws_length s) as Hs.
    destruct (Json.skip_ws s) as [|q r0]; [reflexivity|]. simpl in Hs.
    destruct (N.eqb q 34); [|reflexivity].
    destruct (Json.string_body r0 []) as [[key r1]|] eqn:Eb; [|reflexivity].
    apply string_body_lt in Eb. pose proof (skip_ws_length r1) as Hs1.
    destruct (Json.skip_ws r1) as [|col r2]; [reflexivity|]. simpl in Hs1.
    destruct (N.eqb col 58); [|reflexivity].
    rewrite (IHv r2) by lia.
    destruct (Json.parse_value f r2) as [[v r3]|] eqn:Ev; [|reflexivity].
    apply Cv in Ev. pose proof (skip_ws_length r3) as Hs3.
    destruct (Json.skip_ws r3) as [|c r4]; [reflexivity|]. simpl in Hs3.
    rewrite (IHm r4) by lia. reflexivity.
Qed.

(** Any fuel from [2 * length + 2] on gives the result [parse] works
    with: a [SyntaxError] of the model is never an exhausted fuel. *)
Lemma parse_fuel_enough (s : jsstring) (f : nat) :
  (2 * List.length s + 2 <= f)%nat ->
  Json.parse_value f s = Json.parse_value (2 * List.length s + 2) s.
Proof.
  induction 1 as [|f Hf IH]; [reflexivity|].
  rewrite <- IH. now apply parse_fuel_step.
Qed.

(** ** Severities of validated findings *)

Lemma includes_In (l : list jsstring) (s : jsstring) :
  JsString.includes l s = true <-> In s l.
Proof.
  unfold JsString.includes. rewrite existsb_exists. split.
  - intros (x & Hx & E). apply jseqb_eq in E. now subst.
  - intro H. exists s. split; [assumption | apply jseqb_refl].
Qed.

Lemma counts_one (v : Vuln.t) :
  severity_ok v ->
  (countSeverity (js "critical") [v] + countSeverity (js "high") [v]
   + countSeverity (js "medium") [v] + countSeverity (js "low") [v] = 1)%nat.
Proof.
  unfold severity_ok, severityValues, countSeverity. simpl.
  intros [H|[H|[H|[H|[]]]]]; rewrite <- H; reflexivity.
Qed.

Lemma countSeverity_cons (s : jsstring) (v : Vuln.t) (vs : list Vuln.t) :
  countSeverity s (v :: vs) = (countSeverity s [v] + countSeverity s vs)%nat.
Proof.
  unfold countSeverity. simpl.
  destruct (JsString.eqb (Vuln.severity v) s); reflexivity.
Qed.

Lemma counts_sum (vs : list Vuln.t) :
  Forall severity_ok vs ->
  (critical (issueCounts vs) + high (issueCounts vs)
   + medium (issueCounts vs) + low (issueCounts vs) = List.length vs)%nat.
Proof.
  induction 1 as [|v vs Hv _ IH]; [reflexivity|].
  unfold issueCounts in *. cbn [critical high medium low] in *.
  rewrite 4 (countSeverity_cons _ v vs).
  pose proof (counts_one v Hv). simpl List.length. lia.
Qed.

(** ** What the schema lets through *)

Lemma rbind_Ok {A B} (m : Result A) (f : A -> Result B) (b : B) :
  rbind m f = Ok b -> exists a, m = Ok a /\ f a = Ok b.
Proof. destruct m; simpl; [eauto | discriminate]. Qed.

Lemma enum_Ok (values : list jsstring) (v : option Json.value) (s : jsstring) :
  Zod.enum values v = Ok s -> In s values.
Proof.
  unfold Zod.enum. intro H. apply rbind_Ok in H as (s' & _ & H).
  destruct (JsString.includes values s') eqn:E; [|discriminate].
  inversion H; subst. now apply includes_In.
Qed.

Lemma entry_severity_ok (x : option Json.value) (v : Vuln.t) :
  VulnerabilityEntrySchema x = Ok v -> severity_ok v.
Proof.
  unfold VulnerabilityEntrySchema, Zod.object.
  destruct x as [[| | | | |o]|]; try discriminate.
  intro H.
  apply rbind_Ok in H as (sev & Hsev & H).
  repeat (apply rbind_Ok in H as (? & _ & H)).
  inversion H; subst. unfold severity_ok. cbn [Vuln.severity].
  eapply enum_Ok; eassumption.
Qed.

Lemma all_Forall {A} (item : Zod.check A) (P : A -> Prop) :
  (forall x y, item x = Ok y -> P y) ->
  forall l ys, Zod.all item l = Ok ys -> Forall P ys.
Proof.
  intros HP. induction l as [|x l IH]; simpl; intros ys H.
  - inversion H; constructor.
  - destruct (item (Some x)) eqn:Ex; [|discriminate].
    destruct (Zod.all item l) eqn:El; [|discriminate].
    inversion H; subst. constructor; eauto.
Qed.

Lemma schema_severity_ok (v : Json.value) (vs : list Vuln.t) :
  VulnerabilityDetectionSchema v = Ok vs -> Forall severity_ok vs.
Proof.
  unfold VulnerabilityDetectionSchema, Zod.object, Zod.array.
  destruct v; try discriminate.
  destruct (Json.get _ _) as [[| | | |l|]|]; try discriminate.
  apply all_Forall. apply entry_severity_ok.
Qed.

Lemma analyzeCode_total (E : Env) (content projectName : jsstring) :
  exists vs, analyzeCode E content projectName = Ok vs.
Proof.
  unfold analyzeCode.
  destruct (generateContent E _) as [text|e]; simpl; [|eauto].
  destruct (JsString.falsy text); simpl; [eauto|].
  destruct (JsString.falsy (extractJsonText text)); simpl; [eauto|].
  destruct (Json.parse _) as [p|e]; simpl; [|eauto].
  destruct (VulnerabilityDetectionSchema p); simpl; eauto.
Qed.

Lemma analyzeCode_severity_ok (E : Env) (content projectName : jsstring)
      (vs : list Vuln.t) :
  analyzeCode E content projectName = Ok vs -> Forall severity_ok vs.
Proof.
  unfold analyzeCode.
  destruct (generateContent E _) as [text|e]; simpl;
    [|intro H; inversion H; constructor].
  destruct (JsString.falsy text); simpl; [intro H; inversion H; constructor|].
  destruct (JsString.falsy (extractJsonText text)); simpl;
    [intro H; inversion H; constructor|].
  destruct (Json.parse _) as [p|e]; simpl; [|intro H; inversion H; constructor].
  destruct (VulnerabilityDetectionSchema p) as [l|e] eqn:Es; simpl;
    [|intro H; inversion H; constructor].
  intro H; inversion H; subst. apply schema_severity_ok in Es.
  apply Forall_map. eapply Forall_impl; [|exact Es].
  intros a Ha. exact Ha.
Qed.

(** ** Running [startAnalysis] *)

Ltac run_step :=
  cbv beta iota zeta delta
      [bind ret lift try_catch getDb setDb newUUID newDate
       insertSecurityIssue insertAnalysisSession updateProjects
       updateSecurityIssues];
  cbn [fst snd db uuid_calls clock_calls
       apiKeysTable projectsTable analysisSessionsTable securityIssuesTable].

Lemma stored_from_cons sid v vs i :
  stored_from sid vs i -> stored_from sid (v :: vs) i.
Proof.
  intros (v' & a & b & Hin & ->). exists v', a, b. split; [now right | reflexivity].
Qed.

Lemma storeIssues_effect (E : Env) (sid : jsstring) (vs : list Vuln.t) :
  forall stored w, exists new,
    fst (storeIssues E sid vs stored w) = Ok (stored ++ new) /\
    apiKeysTable (db (snd (storeIssues E sid vs stored w))) = apiKeysTable (db w) /\
    projectsTable (db (snd (storeIssues E sid vs stored w))) = projectsTable (db w) /\
    analysisSessionsTable (db (snd (storeIssues E sid vs stored w)))
      = analysisSessionsTable (db w) /\
    securityIssuesTable (db (snd (storeIssues E sid vs stored w)))
      = securityIssuesTable (db w) ++ new /\
    Forall (stored_from sid vs) new.
Proof.
  induction vs as [|v vs IH]; intros stored w.
  - exists []. simpl. rewrite !app_nil_r. repeat split; constructor.
  - cbn [storeIssues]. run_step. 
    match goal with |- context [existsb ?f ?l] =>
      destruct (existsb f l) eqn:Ex end; run_step.
    + match goal with |- context [storeIssues E sid vs stored ?w1] =>
        destruct (IH stored w1) as (new & H1 & H2 & H3 & H4 & H5 & H6) end.
      exists new. cbn [db apiKeysTable projectsTable analysisSessionsTable
                      securityIssuesTable] in *.
      repeat split; try assumption.
      eapply Forall_impl; [|exact H6]. intros; now apply stored_from_cons.
    + match goal with |- context [storeIssues E sid vs ?st ?w1] =>
        destruct (IH st w1) as (new & H1 & H2 & H3 & H4 & H5 & H6) end.
      cbn [db apiKeysTable projectsTable analysisSessionsTable
              securityIssuesTable] in *.
      eexists (_ :: new). rewrite <- app_assoc in H1, H5. simpl in H1, H5.
      repeat split; try eassumption.
      constructor.
      * eexists v, _, _. split; [now left | reflexivity].
      * eapply Forall_impl; [|exact H6]. intros; now apply stored_from_cons.
Qed.

Lemma owned_project_found (d : DB) (projectId apiKeyId : jsstring) :
  verifyProjectOwnership d projectId apiKeyId = true ->
  exists project,
    Sql.get (Sql.where_ (fun p => JsString.eqb (Project.id p) projectId)
                        (projectsTable d)) = Some project
    /\ In project (projectsTable d) /\ Project.id project = projectId.
Proof.
  unfold verifyProjectOwnership, Sql.get, Sql.where_.
  induction (projectsTable d) as [|p l IH]; simpl; [discriminate|].
  destruct (JsString.eqb (Project.id p) projectId) eqn:Eid; simpl.
  - intros _. exists p. repeat split; [now left | now apply jseqb_eq].
  - intro H. destruct (IH H) as (q & Hq & Hin & Hid).
    exists q. repeat split; [assumption | now right | assumption].
Qed.

Lemma existsb_false_iff {A} (f : A -> bool) (l : list A) :
  existsb f l = false <-> forall x, In x l -> f x = false.
Proof.
  induction l as [|a l IH]; simpl.
  - split; [intros _ x [] | reflexivity].
  - rewrite orb_false_iff, IH. split.
    + intros [Ha Hl] x [<-|Hx]; auto.
    + intro H. split; [apply H; now left | intros x Hx; apply H; now right].
Qed.

Lemma startAnalysis_authorized (E : Env) (c : Context jsstring) (w : World)
      (apiKey apiKeyId : jsstring) :
  getApiKeyFromHeader c = Some apiKey ->
  JsString.falsy apiKey = false ->
  validateApiKey E (db w) apiKey = Some apiKeyId ->
  verifyProjectOwnership (db w) (valid c) apiKeyId = true ->
  fresh_session_id E w ->
  analysed E c w (startAnalysis E c w).
Proof.
  intros Hk Hf Hv Ho Hfresh.
  destruct (owned_project_found _ _ _ Ho) as (project & Hget & Hin & Hid).
  destruct (analyzeCode_total E (Project.content project) (Project.name project))
    as (vs & Hvs).
  unfold analysed. exists project, vs.
  unfold startAnalysis, catch_all, authenticated.
  rewrite Hk, Hf. run_step. rewrite Hv, Ho. cbn [negb]. rewrite Hget.
  run_step. rewrite Hvs.
  assert (Hex : existsb (fun s => JsString.eqb (AnalysisSession.id s)
                   (AnalysisSession.id (sessionRowOf E w (valid c) vs)))
                 (analysisSessionsTable (db w)) = false).
  { apply existsb_false_iff. intros s Hs. apply jseqb_neq. now apply Hfresh. }
  unfold sessionRowOf, sessionIdOf in *.
  rewrite Hex. run_step.
  match goal with |- context [storeIssues E ?sid vs [] ?w1] =>
    destruct (storeIssues_effect E sid vs [] w1) as (new & H1 & H2 & H3 & H4 & H5 & H6);
    destruct (storeIssues E sid vs [] w1) as [[stored|e] w2] eqn:Est end;
    cbn [fst snd db apiKeysTable projectsTable analysisSessionsTable
             securityIssuesTable] in *; [|discriminate].
  inversion H1; subst stored. cbn [app].
  exists new. run_step.
  repeat split; assumption.
Qed.

Ltac pick_status :=
  cbn; solve [repeat (first [left; reflexivity | right])].

(** Every run of [startAnalysis] either leaves the store as it was and
    answers with an error, or is an analysed run. *)
Lemma startAnalysis_effect (E : Env) (c : Context jsstring) (w : World) :
  (db (snd (startAnalysis E c w)) = db w /\
   data (fst (startAnalysis E c w)) = NoData /\
   In (status (fst (startAnalysis E c w)))
      [HttpStatusCodes.UNAUTHORIZED; HttpStatusCodes.NOT_FOUND;
       HttpStatusCodes.INTERNAL_SERVER_ERROR])
  \/ analysed E c w (startAnalysis E c w).
Proof.
  destruct (getApiKeyFromHeader c) as [apiKey|] eqn:Hk.
  2:{ left. unfold startAnalysis, catch_all, authenticated. rewrite Hk.
      simpl. repeat split. pick_status. }
  destruct (JsString.falsy apiKey) eqn:Hf.
  { left. unfold startAnalysis, catch_all, authenticated. rewrite Hk, Hf.
    simpl. repeat split. pick_status. }
  destruct (validateApiKey E (db w) apiKey) as [apiKeyId|] eqn:Hv.
  2:{ left. unfold startAnalysis, catch_all, authenticated. rewrite Hk, Hf.
      run_step. rewrite Hv. simpl. repeat split. pick_status. }
  destruct (verifyProjectOwnership (db w) (valid c) apiKeyId) eqn:Ho.
  2:{ left. unfold startAnalysis, catch_all, authenticated. rewrite Hk, Hf.
      run_step. rewrite Hv, Ho. simpl. repeat split. pick_status. }
  destruct (existsb (fun s => JsString.eqb (AnalysisSession.id s)
                                (sessionIdOf E w))
                    (analysisSessionsTable (db w))) eqn:Hex.
  - left.
    destruct (owned_project_found _ _ _ Ho) as (project & Hget & Hin & Hid).
    destruct (analyzeCode_total E (Project.content project)
                                (Project.name project)) as (vs & Hvs).
    unfold startAnalysis, catch_all, authenticated.
    rewrite Hk, Hf. run_step. rewrite Hv, Ho. cbn [negb]. rewrite Hget.
    run_step. rewrite Hvs. unfold sessionIdOf in Hex.
    cbn [AnalysisSession.id sessionRow]. rewrite Hex. run_step.
    repeat split. pick_status.
  - right. apply (startAnalysis_authorized E c w apiKey apiKeyId);
      try assumption.
    intros s Hs. apply jseqb_neq.
    rewrite existsb_false_iff in Hex. now apply Hex.
Qed.

(** ** The matcher on literals and repetitions *)

Section MatcherFacts.
Context {A : Type}.
Implicit Types (s : jsstring) (cap : option jsstring).

Lemma run_lit_app (l s : jsstring) cap
      (k : jsstring -> option jsstring -> option A) :
  Regex.run (Regex.lit l) (l ++ s) cap k = k s cap.
Proof.
  induction l as [|c l IH]; simpl; [reflexivity|].
  unfold Regex.lit1. rewrite N.eqb_refl. apply IH.
Qed.

Lemma run_lit_fail (l s : jsstring) cap
      (k : jsstring -> option jsstring -> option A) :
  JsString.startsWith s l = false -> Regex.run (Regex.lit l) s cap k = None.
Proof.
  revert s; induction l as [|c l IH]; intros [|x s] H; simpl in *;
    try discriminate; try reflexivity.
  unfold Regex.lit1. destruct (N.eqb c x); simpl in *;
    [now apply IH | reflexivity].
Qed.

Lemma star_greedy_skip (p : N -> bool) (ws s : jsstring)
      (k : jsstring -> option A) (r : A) :
  Forall (fun c => p c = true) ws ->
  Regex.star_greedy p s k = Some r ->
  Regex.star_greedy p (ws ++ s) k = Some r.
Proof.
  intros Hws Hs. induction Hws as [|c ws Hc _ IH]; simpl; [assumption|].
  rewrite Hc, IH. reflexivity.
Qed.

Lemma star_greedy_stop (p : N -> bool) (c : N) (s : jsstring)
      (k : jsstring -> option A) :
  p c = false -> Regex.star_greedy p (c :: s) k = k (c :: s).
Proof. intro H. simpl. now rewrite H. Qed.

(** A greedy repetition fails when the continuation fails wherever
    the repetition may stop. *)
Lemma star_greedy_none (p : N -> bool) (s : jsstring)
      (k : jsstring -> option A) :
  (forall s1 s2, s = s1 ++ s2 -> Forall (fun c => p c = true) s1 ->
                 k s2 = None) ->
  Regex.star_greedy p s k = None.
Proof.
  induction s as [|c s IH]; intros H; simpl.
  - apply (H [] []); [reflexivity | constructor].
  - assert (Hk : k (c :: s) = None)
      by (apply (H [] (c :: s)); [reflexivity | constructor]).
    destruct (p c) eqn:Hc; [|assumption].
    rewrite IH; [assumption|].
    intros s1 s2 -> Hs1. apply (H (c :: s1) s2); [reflexivity|].
    now constructor.
Qed.

(** A lazy repetition stops at the first place where the continuation
    succeeds. *)
Lemma star_lazy_first (p : N -> bool) (a s : jsstring)
      (k : jsstring -> option A) (r : A) :
  Forall (fun c => p c = true) a ->
  (forall a1 a2, a = a1 ++ a2 -> a2 <> [] -> k (a2 ++ s) = None) ->
  k s = Some r ->
  Regex.star_lazy p (a ++ s) k = Some r.
Proof.
  intros Ha. induction Ha as [|c a Hc _ IH]; intros Hnone Hs.
  - simpl. destruct s; simpl; now rewrite Hs.
  - change ((c :: a) ++ s) with (c :: (a ++ s)).
    cbn [Regex.star_lazy].
    pose proof (Hnone [] (c :: a) eq_refl ltac:(discriminate)) as H0.
    simpl in H0. rewrite H0, Hc. apply IH; [|assumption].
    intros a1 a2 -> Hne. apply (Hnone (c :: a1) a2); [reflexivity | assumption].
Qed.

Lemma star_lazy_none (p : N -> bool) (s : jsstring)
      (k : jsstring -> option A) :
  (forall s1 s2, s = s1 ++ s2 -> k s2 = None) ->
  Regex.star_lazy p s k = None.
Proof.
  induction s as [|c s IH]; intros H.
  - simpl. now rewrite (H [] [] eq_refl).
  - cbn [Regex.star_lazy]. rewrite (H [] (c :: s) eq_refl).
    destruct (p c); [|reflexivity].
    apply IH. intros s1 s2 ->. apply (H (c :: s1) s2). reflexivity.
Qed.

(** A greedy repetition over every code unit hands the continuation
    the shortest suffix it accepts. *)
Lemma star_greedy_last (p : N -> bool) (a s : jsstring)
      (k : jsstring -> option A) (r : A) :
  Forall (fun c => p c = true) a ->
  (forall s1 s2, s = s1 ++ s2 -> s1 <> [] -> k s2 = None) ->
  k s = Some r ->
  Regex.star_greedy p (a ++ s) k = Some r.
Proof.
  intros Ha Hnone Hs. apply star_greedy_skip; [assumption|].
  destruct s as [|c s]; simpl; [assumption|].
  destruct (p c); [|assumption].
  rewrite star_greedy_none; [assumption|].
  intros s1 s2 -> _. apply (Hnone (c :: s1) s2); [reflexivity | discriminate].
Qed.
End MatcherFacts.

Lemma any_true (c : N) : Regex.any c = true.
Proof. unfold Regex.any. destruct (Regex.is_space c); reflexivity. Qed.

Lemma Forall_any (s : jsstring) : Forall (fun c => Regex.any c = true) s.
Proof. induction s; constructor; [apply any_true | assumption]. Qed.

Lemma firstn_app_exact {A} (a b : list A) :
  firstn (List.length (a ++ b) - List.length b) (a ++ b) = a.
Proof.
  rewrite length_app, Nat.add_sub.
  rewrite firstn_app, Nat.sub_diag, firstn_all. simpl. apply app_nil_r.
Qed.

(** [str_match] skips the start positions where the matcher fails. *)
Lemma str_match_skip (r : Regex.t) (pre s : jsstring) :
  (forall a b, pre = a ++ b -> b <> [] -> Regex.exec_at r (b ++ s) = None) ->
  Regex.str_match r (pre ++ s) = Regex.str_match r s.
Proof.
  induction pre as [|c pre IH]; intros H; [reflexivity|].
  change ((c :: pre) ++ s) with (c :: (pre ++ s)).
  cbn [Regex.str_match].
  change (c :: (pre ++ s)) with ((c :: pre) ++ s).
  rewrite (H [] (c :: pre) eq_refl) by discriminate.
  apply IH. intros a b -> Hb. apply (H (c :: a) b); [reflexivity | assumption].
Qed.

Lemma str_match_here (r : Regex.t) (s : jsstring) (m : Regex.result) :
  Regex.exec_at r s = Some m -> Regex.str_match r s = Some m.
Proof. intro H. destruct s; simpl; now rewrite H. Qed.

Lemma str_match_none (r : Regex.t) (s : jsstring) :
  (forall a b, s = a ++ b -> Regex.exec_at r b = None) ->
  Regex.str_match r s = None.
Proof.
  induction s as [|c s IH]; intros H.
  - simpl. now rewrite (H [] [] eq_refl).
  - cbn [Regex.str_match]. rewrite (H [] (c :: s) eq_refl).
    apply IH. intros a b ->. apply (H (c :: a) b). reflexivity.
Qed.

(** ** Fences *)

Lemma has_fence_suffix (a b : jsstring) :
  has_fence (a ++ b) = false -> JsString.startsWith b fence = false.
Proof.
  induction a as [|c a IH]; simpl app; intro H.
  - destruct b; [reflexivity|]. cbn [has_fence] in H.
    apply orb_false_iff in H. tauto.
  - apply IH. cbn [has_fence] in H. apply orb_false_iff in H. tauto.
Qed.

Lemma startsWith_app_false (a b p : jsstring) :
  JsString.startsWith (a ++ b) p = false -> JsString.startsWith a p = false.
Proof.
  revert a; induction p as [|c p IH]; intros [|x a] H; simpl in *;
    try discriminate; try reflexivity.
  destruct (N.eqb c x); simpl in *; [now apply IH | reflexivity].
Qed.

Lemma has_fence_app_l (a b : jsstring) :
  has_fence (a ++ b) = false -> has_fence a = false.
Proof.
  induction a as [|c a IH]; [reflexivity|].
  change ((c :: a) ++ b) with (c :: (a ++ b)). cbn [has_fence].
  intro H. apply orb_false_iff in H as [H1 H2].
  apply orb_false_iff. split; [|now apply IH].
  now apply (startsWith_app_false (c :: a) b).
Qed.

Lemma startsWith_fence_brace (a3 tail : jsstring) :
  JsString.startsWith a3 fence = false ->
  JsString.startsWith (a3 ++ c_rbrace :: tail) fence = false.
Proof.
  unfold fence, c_rbrace. change (js "```") with [96%N; 96%N; 96%N].
  destruct a3 as [|x [|y [|z a3]]]; cbn [JsString.startsWith app]; intro H;
    repeat match goal with
           | |- context [N.eqb 96 ?v] =>
               is_var v; destruct (N.eqb 96 v) eqn:?
           end; cbn in *; try reflexivity; try discriminate.
Qed.

Lemma space_prefix_split (s1 a s2 : jsstring) (c : N) (tail : jsstring) :
  Forall (fun x => Regex.is_space x = true) s1 ->
  Regex.is_space c = false ->
  a ++ c :: tail = s1 ++ s2 ->
  exists a3, a = s1 ++ a3 /\ s2 = a3 ++ c :: tail.
Proof.
  intros Hs Hc. revert a. induction Hs as [|x s1 Hx _ IH]; intros a E.
  - exists a. simpl in E. now subst.
  - destruct a as [|y a]; simpl in E; inversion E; subst.
    + congruence.
    + destruct (IH a H1) as (a3 & -> & ->). now exists a3.
Qed.

(** ** The code-block pattern on a fenced payload *)

Section CodeBlock.
Variables (mid ws2 post : jsstring).
Let payload : jsstring := c_lbrace :: mid ++ [c_rbrace].
Hypothesis payload_fence_free : has_fence payload = false.
Hypothesis ws2_space : Forall (fun c => Regex.is_space c = true) ws2.

Let closing : Regex.t :=
  Regex.Seq (Regex.Star true Regex.is_space) (Regex.lit fence).

Lemma closing_here {A} (cap : option jsstring)
      (k : jsstring -> option jsstring -> option A) (r : A) :
  k post cap = Some r ->
  Regex.run closing (ws2 ++ fence ++ post) cap k = Some r.
Proof.
  intro Hk. unfold closing. cbn [Regex.run].
  apply star_greedy_skip; [assumption|].
  change (fence ++ post) with (96%N :: 96%N :: 96%N :: post).
  rewrite star_greedy_stop by reflexivity.
  change (96%N :: 96%N :: 96%N :: post) with (fence ++ post).
  now rewrite run_lit_app.
Qed.

Lemma closing_not_inside {A} (a2 tail : jsstring) (cap : option jsstring)
      (k : jsstring -> option jsstring -> option A) :
  (exists a1, mid = a1 ++ a2) ->
  Regex.run closing (a2 ++ c_rbrace :: tail) cap k = None.
Proof.
  intros (a1 & Hmid). unfold closing. cbn [Regex.run].
  apply star_greedy_none. intros s1 s2 E Hs1.
  destruct (space_prefix_split s1 a2 s2 c_rbrace tail Hs1 eq_refl E)
    as (a3 & -> & ->).
  apply run_lit_fail. apply startsWith_fence_brace.
  apply (has_fence_suffix (c_lbrace :: a1 ++ s1) a3).
  apply (has_fence_app_l _ [c_rbrace]).
  rewrite <- payload_fence_free. unfold payload. rewrite Hmid.
  simpl. now rewrite <- !app_assoc.
Qed.

Let group : Regex.t :=
  Regex.Group (Regex.Seq (Regex.lit1 c_lbrace)
                 (Regex.Seq (Regex.Star false Regex.any)
                            (Regex.lit1 c_rbrace))).

Lemma group_takes_payload {A} (cap : option jsstring)
      (k : jsstring -> option jsstring -> option A) (r : A) :
  k post (Some payload) = Some r ->
  Regex.run (Regex.Seq group closing)
            (payload ++ ws2 ++ fence ++ post) cap k = Some r.
Proof.
  intro Hk. unfold group. cbn [Regex.run].
  unfold payload at 1. cbn [app]. unfold Regex.lit1 at 1.
  cbn [Regex.run]. rewrite N.eqb_refl. rewrite <- app_assoc.
  apply star_lazy_first; [apply Forall_any | |].
  - intros a1 [|c a2] Hm Hne; [contradiction|].
    cbn [app]. unfold Regex.lit1. cbn [Regex.run].
    destruct (N.eqb c_rbrace c); [|reflexivity].
    apply (closing_not_inside a2). exists (a1 ++ [c]).
    rewrite Hm, <- app_assoc. reflexivity.
  - cbn [app]. unfold Regex.lit1. cbn [Regex.run]. rewrite N.eqb_refl.
    apply closing_here.
    replace (firstn _ _) with payload; [assumption|].
    symmetry.
    change (c_lbrace :: mid ++ c_rbrace :: ws2 ++ fence ++ post)
      with ((c_lbrace :: mid) ++ c_rbrace :: ws2 ++ fence ++ post).
    replace ((c_lbrace :: mid) ++ c_rbrace :: ws2 ++ fence ++ post)
      with (payload ++ ws2 ++ fence ++ post)
      by (unfold payload; simpl; now rewrite <- app_assoc).
    apply firstn_app_exact.
Qed.
End CodeBlock.

Lemma run_seq {A} (r1 r2 : Regex.t) (s : jsstring) (cap : option jsstring)
      (k : jsstring -> option jsstring -> option A) :
  Regex.run (Regex.Seq r1 r2) s cap k
  = Regex.run r1 s cap (fun s1 cap1 => Regex.run r2 s1 cap1 k).
Proof. reflexivity. Qed.

Lemma run_opt_take {A} (r1 : Regex.t) (s : jsstring) (cap : option jsstring)
      (k : jsstring -> option jsstring -> option A) (x : A) :
  Regex.run r1 s cap k = Some x -> Regex.run (Regex.Opt r1) s cap k = Some x.
Proof. intro H. cbn [Regex.run]. now rewrite H. Qed.

Lemma codeBlock_exec (ws1 mid ws2 post : jsstring) :
  let payload := c_lbrace :: mid ++ [c_rbrace] in
  Forall (fun c => Regex.is_space c = true) ws1 ->
  Forall (fun c => Regex.is_space c = true) ws2 ->
  has_fence payload = false ->
  exists m,
    Regex.exec_at codeBlockRegex (fenced (js "json") ws1 payload ws2 post)
    = Some m /\ Regex.group1 m = Some payload.
Proof.
  intros payload Hws1 Hws2 Hfree.
  eexists. split.
  - unfold Regex.exec_at, codeBlockRegex, fenced, fence.
    rewrite run_seq, run_lit_app, run_seq.
    apply run_opt_take. rewrite run_lit_app, run_seq.
    cbn [Regex.run]. apply star_greedy_skip; [assumption|].
    unfold payload at 1. cbn [app].
    rewrite star_greedy_stop by reflexivity.
    apply (group_takes_payload mid ws2 post Hfree Hws2).
    reflexivity.
  - reflexivity.
Qed.

Lemma before_fence (b rest : jsstring) :
  b <> [] ->
  JsString.startsWith (b ++ js "``") fence = false ->
  JsString.startsWith (b ++ fence ++ rest) fence = false.
Proof.
  unfold fence. change (js "```") with [96%N; 96%N; 96%N].
  change (js "``") with [96%N; 96%N].
  destruct b as [|x [|y [|z b]]]; cbn [JsString.startsWith app]; intros Hb H;
    try contradiction;
    repeat match goal with
           | |- context [N.eqb 96 ?v] =>
               is_var v; destruct (N.eqb 96 v) eqn:?
           end; cbn in *; try reflexivity; try discriminate.
Qed.

(** The candidate of a fenced answer is the payload. *)
Lemma extract_fenced (pre ws1 mid ws2 post : jsstring) :
  let payload := c_lbrace :: mid ++ [c_rbrace] in
  has_fence (pre ++ js "``") = false ->
  Forall (fun c => Regex.is_space c = true) ws1 ->
  Forall (fun c => Regex.is_space c = true) ws2 ->
  has_fence payload = false ->
  extractJsonText (pre ++ fenced (js "json") ws1 payload ws2 post) = payload.
Proof.
  intros payload Hpre Hws1 Hws2 Hfree. subst payload.
  destruct (codeBlock_exec ws1 mid ws2 post Hws1 Hws2 Hfree) as (m & Hm & Hg).
  unfold extractJsonText.
  rewrite str_match_skip.
  - rewrite (str_match_here _ _ _ Hm), Hg. reflexivity.
  - intros a b -> Hb. unfold Regex.exec_at, codeBlockRegex.
    rewrite run_seq. apply run_lit_fail. unfold fenced.
    apply before_fence; [assumption|].
    apply (has_fence_suffix a). now rewrite app_assoc.
Qed.

(** ** The fallback pattern *)

Lemma codeBlock_no_fence (text : jsstring) :
  has_fence text = false -> Regex.str_match codeBlockRegex text = None.
Proof.
  intro H. apply str_match_none. intros a b ->.
  unfold Regex.exec_at, codeBlockRegex. rewrite run_seq.
  apply run_lit_fail. now apply (has_fence_suffix a).
Qed.

Lemma jsonRegex_exec_fail (s : jsstring) :
  (forall s', s = c_lbrace :: s' -> ~ In c_rbrace s') ->
  Regex.exec_at jsonRegex s = None.
Proof.
  intro H. unfold Regex.exec_at, jsonRegex, Regex.lit1. cbn [Regex.run].
  destruct s as [|c s]; [reflexivity|].
  destruct (N.eqb c_lbrace c) eqn:Ec; [|reflexivity].
  apply N.eqb_eq in Ec. subst c.
  apply star_greedy_none. intros s1 [|x s2] -> _; [reflexivity|].
  destruct (N.eqb c_rbrace x) eqn:Ex; [|reflexivity].
  apply N.eqb_eq in Ex. subst x. exfalso.
  apply (H _ eq_refl). apply in_or_app. right. now left.
Qed.

Lemma jsonRegex_exec (mid post : jsstring) :
  ~ In c_rbrace post ->
  Regex.exec_at jsonRegex (c_lbrace :: mid ++ c_rbrace :: post)
  = Some {| Regex.whole := c_lbrace :: mid ++ [c_rbrace];
            Regex.group1 := None |}.
Proof.
  intro Hpost. unfold Regex.exec_at, jsonRegex, Regex.lit1. cbn [Regex.run].
  rewrite N.eqb_refl.
  apply star_greedy_last; [apply Forall_any | |].
  - intros [|y s1] s2 E Hne; [contradiction|]. inversion E; subst.
    destruct s2 as [|x s2]; [reflexivity|].
    destruct (N.eqb c_rbrace x) eqn:Ex; [|reflexivity].
    apply N.eqb_eq in Ex. subst x. exfalso. apply Hpost.
    apply in_or_app. right. now left.
  - rewrite N.eqb_refl. f_equal. f_equal.
    change (c_lbrace :: mid ++ c_rbrace :: post)
      with ((c_lbrace :: mid) ++ c_rbrace :: post).
    replace ((c_lbrace :: mid) ++ c_rbrace :: post)
      with ((c_lbrace :: mid ++ [c_rbrace]) ++ post)
      by (simpl; now rewrite <- app_assoc).
    apply firstn_app_exact.
Qed.

(** Without a fence the candidate runs from the first opening brace to
    the last closing brace. *)
Lemma extract_fallback (pre mid post : jsstring) :
  let text := pre ++ c_lbrace :: mid ++ c_rbrace :: post in
  has_fence text = false ->
  ~ In c_lbrace pre -> ~ In c_rbrace post ->
  extractJsonText text = c_lbrace :: mid ++ [c_rbrace].
Proof.
  intros text Hf Hpre Hpost. unfold extractJsonText.
  rewrite (codeBlock_no_fence _ Hf). unfold text.
  rewrite str_match_skip.
  - rewrite (str_match_here _ _ _ (jsonRegex_exec mid post Hpost)).
    reflexivity.
  - intros a [|c b] -> Hb; [contradiction|].
    apply jsonRegex_exec_fail. intros s' E. inversion E; subst.
    exfalso. apply Hpre. apply in_or_app. right. now left.
Qed.

(** Without a fence and without a closing brace after an opening one
    there is no candidate. *)
Lemma extract_nothing (text : jsstring) :
  has_fence text = false ->
  (forall a b, text = a ++ c_lbrace :: b -> ~ In c_rbrace b) ->
  extractJsonText text = [].
Proof.
  intros Hf H. unfold extractJsonText.
  rewrite (codeBlock_no_fence _ Hf).
  rewrite str_match_none; [reflexivity|].
  intros a b ->. apply jsonRegex_exec_fail. intros s' ->. now apply (H a).
Qed.

(** ** Joins *)

Lemma In_leftJoin {A B} (l : list A) (r : list B) (on : A -> B -> bool)
      (a : A) (ob : option B) :
  In (a, ob) (Sql.leftJoin l r on) ->
  In a l /\ match ob with
            | Some b => In b r /\ on a b = true
            | None => True
            end.
Proof.
  unfold Sql.leftJoin. rewrite in_flat_map. intros (x & Hx & Hin).
  destruct (filter (on x) r) as [|b bs] eqn:Ef.
  - destruct Hin as [E|[]]. inversion E; subst. now split.
  - apply in_map_iff in Hin as (y & E & Hy). inversion E; subst.
    split; [assumption|]. rewrite <- Ef in Hy. now apply filter_In in Hy.
Qed.

Lemma leftJoin_In {A B} (l : list A) (r : list B) (on : A -> B -> bool)
      (a : A) (b : B) :
  In a l -> In b r -> on a b = true -> In (a, Some b) (Sql.leftJoin l r on).
Proof.
  intros Ha Hb Hon. unfold Sql.leftJoin. apply in_flat_map.
  exists a. split; [assumption|].
  assert (Hf : In b (filter (on a) r)) by (apply filter_In; now split).
  destruct (filter (on a) r) as [|b0 bs]; [contradiction|].
  apply in_map_iff. now exists b.
Qed.

Lemma get_where_Some {A} (cond : A -> bool) (rows : list A) (x : A) :
  Sql.get (Sql.where_ cond rows) = Some x -> In x rows /\ cond x = true.
Proof.
  unfold Sql.get, Sql.where_. intro H.
  apply filter_In. destruct (filter cond rows); [discriminate|].
  inversion H; subst. now left.
Qed.

Lemma get_where_None {A} (cond : A -> bool) (rows : list A) :
  Sql.get (Sql.where_ cond rows) = None <->
  forall x, In x rows -> cond x = false.
Proof.
  unfold Sql.get, Sql.where_. split.
  - intros H x Hx. destruct (cond x) eqn:E; [|reflexivity].
    assert (Hf : In x (filter cond rows)) by (apply filter_In; now split).
    destruct (filter cond rows); [contradiction | discriminate].
  - intro H. destruct (filter cond rows) as [|y ys] eqn:E; [reflexivity|].
    assert (Hy : In y (filter cond rows)) by (rewrite E; now left).
    apply filter_In in Hy as [Hy Hc]. rewrite (H y Hy) in Hc. discriminate.
Qed.

Lemma eq_null_true (column : option jsstring) (value : jsstring) :
  Sql.eq_null column value = true <-> column = Some value.
Proof.
  destruct column as [x|]; simpl.
  - rewrite jseqb_eq. split; [now intros -> | now intros [= ->]].
  - split; discriminate.
Qed.

(** ** Who owns what *)

Lemma In_issueRows (d : DB) i os op :
  In (i, os, op) (issueRows d) ->
  In i (securityIssuesTable d) /\
  match op with
  | Some p =>
      In p (projectsTable d) /\
      exists s, os = Some s /\ In s (analysisSessionsTable d) /\
                SecurityIssue.analysisSessionId i = AnalysisSession.id s /\
                AnalysisSession.projectId s = Project.id p
  | None => True
  end.
Proof.
  unfold issueRows. intro H. apply In_leftJoin in H as [H1 H2].
  apply In_leftJoin in H1 as [Hi Hs]. split; [assumption|].
  destruct op as [p|]; [|exact I]. destruct H2 as [Hp Hon].
  split; [assumption|]. cbn [snd] in Hon.
  apply eq_null_true in Hon. destruct os as [s|]; [|discriminate].
  inversion Hon. destruct Hs as [Hs Hon2]. apply jseqb_eq in Hon2.
  exists s. repeat split; assumption.
Qed.

Lemma verifyIssueOwnership_iff (d : DB) (issueId apiKeyId : jsstring) :
  verifyIssueOwnership d issueId apiKeyId = true <->
  owns_issue d apiKeyId issueId.
Proof.
  unfold verifyIssueOwnership. split.
  - destruct (Sql.get _) as [[[i os] op]|] eqn:E; [intros _ | discriminate].
    apply get_where_Some in E as [Hin Hc]. cbn [fst snd] in Hc.
    apply andb_true_iff in Hc as [Hid Hk].
    apply jseqb_eq in Hid. apply eq_null_true in Hk.
    apply In_issueRows in Hin as [Hi Hop].
    destruct op as [p|]; [|discriminate]. inversion Hk.
    destruct Hop as (Hp & s & -> & Hs & E1 & E2).
    exists i, s, p. repeat split; assumption.
  - intros (i & s & p & Hi & Hs & Hp & Hid & E1 & E2 & Hk).
    destruct (Sql.get _) eqn:E; [reflexivity|]. exfalso.
    rewrite get_where_None in E.
    assert (Hrow : In (i, Some s, Some p) (issueRows d)).
    { unfold issueRows. apply leftJoin_In; [|assumption|].
      - apply leftJoin_In; [assumption | assumption |].
        apply jseqb_eq. assumption.
      - cbn [snd option_map]. apply eq_null_true. now rewrite E2. }
    specialize (E _ Hrow). cbn [fst snd option_map] in E.
    rewrite Hid, Hk, jseqb_refl in E. simpl in E.
    rewrite jseqb_refl in E. discriminate.
Qed.

Lemma not_owned_of_absent (d : DB) (apiKeyId issueId : jsstring) :
  issue_absent d issueId -> ~ owns_issue d apiKeyId issueId.
Proof.
  intros Ha (i & s & p & Hi & _ & _ & Hid & _). exact (Ha i Hi Hid).
Qed.

Lemma selectSession_Some (d : DB) (sessionId : jsstring) s op :
  selectSession d sessionId = Some (s, op) ->
  In s (analysisSessionsTable d) /\ AnalysisSession.id s = sessionId /\
  match op with
  | Some p => In p (projectsTable d)
              /\ AnalysisSession.projectId s = Project.id p
  | None => True
  end.
Proof.
  unfold selectSession, sessionRows. intro H.
  apply get_where_Some in H as [Hin Hc]. cbn [fst] in Hc.
  apply jseqb_eq in Hc. apply In_leftJoin in Hin as [Hs Hop].
  repeat split; try assumption.
  destruct op as [p|]; [|exact I]. destruct Hop as [Hp Hon].
  apply jseqb_eq in Hon. now split.
Qed.

Lemma selectSession_absent (d : DB) (sessionId : jsstring) :
  session_absent d sessionId -> selectSession d sessionId = None.
Proof.
  intro Ha. unfold selectSession. apply get_where_None.
  intros [s op] Hin. cbn [fst]. apply jseqb_neq.
  apply In_leftJoin in Hin as [Hs _]. now apply Ha.
Qed.

Lemma selectSession_foreign (d : DB) (apiKeyId sessionId : jsstring) :
  session_foreign d apiKeyId sessionId ->
  exists row, selectSession d sessionId = Some row /\
              notOwner (option_map Project.apiKeyId (snd row)) apiKeyId = true.
Proof.
  intros [(s0 & Hs0 & Hid0) Hf].
  destruct (selectSession d sessionId) as [[s op]|] eqn:E.
  - exists (s, op). split; [reflexivity|].
    apply selectSession_Some in E as (Hs & Hid & Hop).
    unfold notOwner. apply negb_true_iff.
    destruct (Sql.eq_null _ _) eqn:Ek; [|reflexivity]. exfalso.
    apply eq_null_true in Ek. cbn [snd] in Ek.
    destruct op as [p|]; [|discriminate]. inversion Ek.
    destruct Hop as [Hp Hj]. apply Hf. exists s, p.
    repeat split; assumption.
  - exfalso. unfold selectSession in E. rewrite get_where_None in E.
    destruct (filter (fun p => JsString.eqb (AnalysisSession.projectId s0)
                                            (Project.id p))
                     (projectsTable d)) as [|p ps] eqn:Ef.
    + assert (Hrow : In (s0, None) (sessionRows d)).
      { unfold sessionRows, Sql.leftJoin. apply in_flat_map.
        exists s0. split; [assumption|]. rewrite Ef. now left. }
      specialize (E _ Hrow). cbn [fst] in E. rewrite Hid0, jseqb_refl in E.
      discriminate.
    + assert (Hp : In p (filter (fun p => JsString.eqb
                                   (AnalysisSession.projectId s0) (Project.id p))
                                (projectsTable d))) by (rewrite Ef; now left).
      apply filter_In in Hp as [Hp Hon].
      assert (Hrow : In (s0, Some p) (sessionRows d))
        by (unfold sessionRows; now apply leftJoin_In).
      specialize (E _ Hrow). cbn [fst] in E. rewrite Hid0, jseqb_refl in E.
      discriminate.
Qed.

(** ** The caller *)

Lemma authenticated_principal {P} (E : Env) (c : Context P) (w : World)
      (apiKeyId : jsstring) (k : jsstring -> M Response) :
  principal E (db w) c apiKeyId -> authenticated E c k w = k apiKeyId w.
Proof.
  intros (apiKey & Hk & Hf & Hv). unfold authenticated.
  rewrite Hk, Hf. run_step. now rewrite Hv.
Qed.

Lemma authenticated_cases {P} (E : Env) (c : Context P) (w : World)
      (k : jsstring -> M Response) :
  (exists msg, authenticated E c k w
               = (Ok (errorResponse [] msg HttpStatusCodes.UNAUTHORIZED), w))
  \/ exists apiKeyId, principal E (db w) c apiKeyId
                      /\ authenticated E c k w = k apiKeyId w.
Proof.
  unfold authenticated, principal.
  destruct (getApiKeyFromHeader c) as [apiKey|] eqn:Hk;
    [|left; eexists; reflexivity].
  destruct (JsString.falsy apiKey) eqn:Hf; [left; eexists; reflexivity|].
  run_step.
  destruct (validateApiKey E (db w) apiKey) as [apiKeyId|] eqn:Hv;
    [|left; eexists; reflexivity].
  right. exists apiKeyId. split; [|reflexivity]. exists apiKey. auto.
Qed.

(** ** Not found *)

Lemma session_unreachable (d : DB) (apiKeyId sessionId : jsstring) :
  session_absent d sessionId \/ session_foreign d apiKeyId sessionId ->
  match selectSession d sessionId with
  | None => True
  | Some row => notOwner (option_map Project.apiKeyId (snd row)) apiKeyId = true
  end.
Proof.
  intros [Ha|Hf].
  - now rewrite (selectSession_absent _ _ Ha).
  - destruct (selectSession_foreign _ _ _ Hf) as (row & -> & Hn). exact Hn.
Qed.

Lemma getAnalysisResults_notFound (E : Env) (c : Context jsstring) (w : World)
      (apiKeyId : jsstring) :
  principal E (db w) c apiKeyId ->
  session_absent (db w) (valid c) \/ session_foreign (db w) apiKeyId (valid c) ->
  getAnalysisResults E c w = (sessionNotFound, w).
Proof.
  intros Hp Hs. apply session_unreachable in Hs.
  unfold getAnalysisResults, catch_all.
  rewrite (authenticated_principal E c w apiKeyId _ Hp). run_step.
  destruct (selectSession (db w) (valid c)) as [row|]; [|reflexivity].
  now rewrite Hs.
Qed.

Lemma exportAnalysis_notFound (E : Env) (c : Context (jsstring * jsstring))
      (w : World) (apiKeyId : jsstring) :
  principal E (db w) c apiKeyId ->
  session_absent (db w) (fst (valid c))
  \/ session_foreign (db w) apiKeyId (fst (valid c)) ->
  exportAnalysis E c w = (sessionNotFound, w).
Proof.
  intros Hp Hs. apply session_unreachable in Hs.
  unfold exportAnalysis, catch_all.
  rewrite (authenticated_principal E c w apiKeyId _ Hp). run_step.
  destruct (selectSession (db w) (fst (valid c))) as [row|]; [|reflexivity].
  now rewrite Hs.
Qed.

Lemma not_owned_false (d : DB) (apiKeyId issueId : jsstring) :
  ~ owns_issue d apiKeyId issueId ->
  verifyIssueOwnership d issueId apiKeyId = false.
Proof.
  intro H. destruct (verifyIssueOwnership d issueId apiKeyId) eqn:E;
    [|reflexivity].
  apply verifyIssueOwnership_iff in E. contradiction.
Qed.

Lemma getIssue_notFound (E : Env) (c : Context jsstring) (w : World)
      (apiKeyId : jsstring) :
  principal E (db w) c apiKeyId -> ~ owns_issue (db w) apiKeyId (valid c) ->
  getIssue E c w = (issueNotFound, w).
Proof.
  intros Hp Hn. unfold getIssue, catch_all.
  rewrite (authenticated_principal E c w apiKeyId _ Hp). run_step.
  now rewrite (not_owned_false _ _ _ Hn).
Qed.

Lemma resolveIssue_notFound (E : Env) (c : Context jsstring) (w : World)
      (apiKeyId : jsstring) :
  principal E (db w) c apiKeyId -> ~ owns_issue (db w) apiKeyId (valid c) ->
  resolveIssue E c w = (issueNotFound, w).
Proof.
  intros Hp Hn. unfold resolveIssue, catch_all.
  rewrite (authenticated_principal E c w apiKeyId _ Hp). run_step.
  now rewrite (not_owned_false _ _ _ Hn).
Qed.

Lemma markFalsePositive_notFound (E : Env) (c : Context jsstring) (w : World)
      (apiKeyId : jsstring) :
  principal E (db w) c apiKeyId -> ~ owns_issue (db w) apiKeyId (valid c) ->
  markFalsePositive E c w = (issueNotFound, w).
Proof.
  intros Hp Hn. unfold markFalsePositive, catch_all.
  rewrite (authenticated_principal E c w apiKeyId _ Hp). run_step.
  now rewrite (not_owned_false _ _ _ Hn).
Qed.

(** ** The statuses a handler answers with *)

Ltac by_cases_on_auth E c w :=
  unfold catch_all;
  let k := fresh "k" in
  match goal with |- context [authenticated E c ?f w] => set (k := f) end;
  destruct (authenticated_cases E c w k) as [(msg & ->)|(kid & _ & ->)];
  [pick_status | subst k; run_step].

Lemma handle_status (E : Env) (r : Request) (w : World) :
  In (status (fst (handle E r w))) statuses.
Proof.
  destruct r as [c|c|c|c|c|c|c]; cbn [handle].
  - destruct (startAnalysis_effect E c w) as [(_ & _ & H)|H].
    + unfold statuses. cbn in H |- *. tauto.
    + destruct H as (? & ? & ? & _ & _ & _ & -> & _). pick_status.
  - unfold getAnalysisResults. by_cases_on_auth E c w.
    destruct (selectSession _ _); [destruct (notOwner _ _)|]; pick_status.
  - unfold exportAnalysis. by_cases_on_auth E c w.
    destruct (selectSession _ _); [destruct (notOwner _ _)|];
      try (pick_status).
    run_step.
    match goal with |- context [if ?b then _ else _] => destruct b end;
      pick_status.
  - unfold getIssue. by_cases_on_auth E c w.
    destruct (verifyIssueOwnership _ _ _); cbn [negb]; [|pick_status].
    destruct (Sql.get _); pick_status.
  - unfold resolveIssue. by_cases_on_auth E c w.
    destruct (verifyIssueOwnership _ _ _); cbn [negb]; pick_status.
  - unfold markFalsePositive. by_cases_on_auth E c w.
    destruct (verifyIssueOwnership _ _ _); cbn [negb]; pick_status.
  - unfold bulkUpdateIssues. by_cases_on_auth E c w.
    destruct (0 <? _)%nat; [pick_status|].
    destruct (bulk_resolved (valid c)), (bulk_falsePositive (valid c));
      pick_status.
Qed.

(** ** Updates of the findings table *)

Lemma unchanged_refl (i : SecurityIssue.t) : unchanged_fields i i.
Proof. unfold unchanged_fields. repeat split. Qed.

Lemma only_resolved_set (b : bool) (i : SecurityIssue.t) :
  only_resolved i (SecurityIssue.set_resolved b i).
Proof. unfold only_resolved, unchanged_fields. repeat split. Qed.

Lemma only_falsePositive_set (b : bool) (i : SecurityIssue.t) :
  only_falsePositive i (SecurityIssue.set_falsePositive b i).
Proof. unfold only_falsePositive, unchanged_fields. repeat split. Qed.

Lemma unchanged_applyUpdateData (b : BulkUpdate) (i : SecurityIssue.t) :
  unchanged_fields i (applyUpdateData b i).
Proof.
  unfold applyUpdateData, unchanged_fields.
  destruct (bulk_resolved b), (bulk_falsePositive b); repeat split.
Qed.

Lemma Forall2_refl {A} (R : A -> A -> Prop) (l : list A) :
  (forall x, R x x) -> Forall2 R l l.
Proof. intro H. induction l; constructor; auto. Qed.

Lemma update_Forall2 {A} (R : A -> A -> Prop) (cond : A -> bool) (f : A -> A)
      (rows : list A) :
  (forall x, R x x) -> (forall x, R x (f x)) ->
  Forall2 R rows (fst (Sql.update cond f rows)).
Proof.
  intros Hr Hf. unfold Sql.update. cbn [fst].
  induction rows as [|x rows IH]; simpl; constructor; [|assumption].
  destruct (cond x); auto.
Qed.

Lemma resolveIssue_owned (E : Env) (c : Context jsstring) (w : World)
      (apiKeyId : jsstring) :
  principal E (db w) c apiKeyId -> owns_issue (db w) apiKeyId (valid c) ->
  resolveIssue E c w
  = (successResponse []
       (UpdatedIssue
          (hd_error (snd (Sql.update (has_id (valid c))
                                     (SecurityIssue.set_resolved true)
                                     (securityIssuesTable (db w))))))
       (js "Issue marked as resolved") HttpStatusCodes.OK,
     toggled (has_id (valid c)) (SecurityIssue.set_resolved true) w).
Proof.
  intros Hp Ho. apply verifyIssueOwnership_iff in Ho.
  unfold resolveIssue, catch_all.
  rewrite (authenticated_principal E c w apiKeyId _ Hp). run_step.
  rewrite Ho. reflexivity.
Qed.

Lemma owns_issue_dec (d : DB) (apiKeyId issueId : jsstring) :
  owns_issue d apiKeyId issueId \/ ~ owns_issue d apiKeyId issueId.
Proof.
  destruct (verifyIssueOwnership d issueId apiKeyId) eqn:E.
  - left. now apply verifyIssueOwnership_iff.
  - right. intro H. apply verifyIssueOwnership_iff in H. congruence.
Qed.

(** What [resolveIssue] does to the findings, whoever calls. *)
Lemma resolveIssue_issues (E : Env) (c : Context jsstring) (w : World) :
  snd (resolveIssue E c w) = w
  \/ snd (resolveIssue E c w)
     = toggled (has_id (valid c)) (SecurityIssue.set_resolved true) w.
Proof.
  unfold resolveIssue, catch_all.
  match goal with |- context [authenticated E c ?f w] => set (k := f) end.
  destruct (authenticated_cases E c w k) as [(msg & ->)|(kid & _ & ->)];
    [now left|]. subst k. run_step.
  destruct (verifyIssueOwnership _ _ _); cbn [negb]; [now right | now left].
Qed.

Lemma markFalsePositive_issues (E : Env) (c : Context jsstring) (w : World) :
  snd (markFalsePositive E c w) = w
  \/ snd (markFalsePositive E c w)
     = toggled (has_id (valid c)) (SecurityIssue.set_falsePositive true) w.
Proof.
  unfold markFalsePositive, catch_all.
  match goal with |- context [authenticated E c ?f w] => set (k := f) end.
  destruct (authenticated_cases E c w k) as [(msg & ->)|(kid & _ & ->)];
    [now left|]. subst k. run_step.
  destruct (verifyIssueOwnership _ _ _); cbn [negb]; [now right | now left].
Qed.

Lemma bulkUpdateIssues_issues (E : Env) (c : Context BulkUpdate) (w : World) :
  snd (bulkUpdateIssues E c w) = w
  \/ exists cond,
       snd (bulkUpdateIssues E c w) = toggled cond (applyUpdateData (valid c)) w.
Proof.
  unfold bulkUpdateIssues, catch_all.
  match goal with |- context [authenticated E c ?f w] => set (k := f) end.
  destruct (authenticated_cases E c w k) as [(msg & ->)|(kid & _ & ->)];
    [now left|]. subst k. run_step.
  destruct (0 <? _)%nat; [now left|].
  destruct (bulk_resolved (valid c)), (bulk_falsePositive (valid c));
    try (now left); right; eexists; reflexivity.
Qed.

Lemma frame_resolveIssue (E : Env) (c : Context jsstring) (w : World) :
  Forall2 only_resolved (issues w) (issues (snd (resolveIssue E c w))).
Proof.
  destruct (resolveIssue_issues E c w) as [-> | ->].
  - apply Forall2_refl. intro i. split; [apply unchanged_refl | reflexivity].
  - unfold issues, toggled. cbn [db securityIssuesTable].
    apply update_Forall2.
    + intro i. split; [apply unchanged_refl | reflexivity].
    + apply only_resolved_set.
Qed.

Lemma frame_markFalsePositive (E : Env) (c : Context jsstring) (w : World) :
  Forall2 only_falsePositive (issues w)
          (issues (snd (markFalsePositive E c w))).
Proof.
  destruct (markFalsePositive_issues E c w) as [-> | ->].
  - apply Forall2_refl. intro i. split; [apply unchanged_refl | reflexivity].
  - unfold issues, toggled. cbn [db securityIssuesTable].
    apply update_Forall2.
    + intro i. split; [apply unchanged_refl | reflexivity].
    + apply only_falsePositive_set.
Qed.

Lemma frame_bulkUpdateIssues (E : Env) (c : Context BulkUpdate) (w : World) :
  Forall2 unchanged_fields (issues w) (issues (snd (bulkUpdateIssues E c w))).
Proof.
  destruct (bulkUpdateIssues_issues E c w) as [-> | (cond & ->)].
  - apply Forall2_refl, unchanged_refl.
  - unfold issues, toggled. cbn [db securityIssuesTable].
    apply update_Forall2; [apply unchanged_refl|].
    apply unchanged_applyUpdateData.
Qed.

Lemma Forall2_impl {A B} (R S : A -> B -> Prop) (l : list A) (l' : list B) :
  (forall x y, R x y -> S x y) -> Forall2 R l l' -> Forall2 S l l'.
Proof. intros H; induction 1; constructor; auto. Qed.

Lemma read_only_db (E : Env) (r : Request) (w : World) :
  match r with
  | GetAnalysisResults _ | ExportAnalysis _ | GetIssue _ =>
      db (snd (handle E r w)) = db w
  | _ => True
  end.
Proof.
  destruct r as [c|c|c|c|c|c|c]; cbn [handle]; try exact I.
  - unfold getAnalysisResults, catch_all.
    match goal with |- context [authenticated E c ?f w] => set (k := f) end.
    destruct (authenticated_cases E c w k) as [(msg & ->)|(kid & _ & ->)];
      [reflexivity|]. subst k. run_step.
    destruct (selectSession _ _); [destruct (notOwner _ _)|]; reflexivity.
  - unfold exportAnalysis, catch_all.
    match goal with |- context [authenticated E c ?f w] => set (k := f) end.
    destruct (authenticated_cases E c w k) as [(msg & ->)|(kid & _ & ->)];
      [reflexivity|]. subst k. run_step.
    destruct (selectSession _ _); [destruct (notOwner _ _)|];
      try reflexivity.
    run_step.
    match goal with |- context [if ?b then _ else _] => destruct b end;
      reflexivity.
  - unfold getIssue, catch_all.
    match goal with |- context [authenticated E c ?f w] => set (k := f) end.
    destruct (authenticated_cases E c w k) as [(msg & ->)|(kid & _ & ->)];
      [reflexivity|]. subst k. run_step.
    destruct (verifyIssueOwnership _ _ _); cbn [negb]; [|reflexivity].
    destruct (Sql.get _); reflexivity.
Qed.

(** Whatever the request, the findings that were there keep every field
    but the toggles, and only new findings are added. *)
Lemma handle_frame (E : Env) (r : Request) (w : World) :
  exists kept new,
    issues (snd (handle E r w)) = kept ++ new /\
    Forall2 unchanged_fields (issues w) kept.
Proof.
  destruct r as [c|c|c|c|c|c|c].
  - cbn [handle].
    destruct (startAnalysis_effect E c w) as [(Hdb & _)|H].
    + exists (issues w), []. unfold issues. rewrite Hdb, app_nil_r.
      split; [reflexivity | apply Forall2_refl, unchanged_refl].
    + destruct H as (? & ? & new & _ & _ & _ & _ & _ & _ & Hi & _).
      exists (issues w), new. split; [exact Hi|].
      apply Forall2_refl, unchanged_refl.
  - exists (issues w), []. unfold issues.
    rewrite (read_only_db E (GetAnalysisResults c) w), app_nil_r.
    split; [reflexivity | apply Forall2_refl, unchanged_refl].
  - exists (issues w), []. unfold issues.
    rewrite (read_only_db E (ExportAnalysis c) w), app_nil_r.
    split; [reflexivity | apply Forall2_refl, unchanged_refl].
  - exists (issues w), []. unfold issues.
    rewrite (read_only_db E (GetIssue c) w), app_nil_r.
    split; [reflexivity | apply Forall2_refl, unchanged_refl].
  - exists (issues (snd (resolveIssue E c w))), []. rewrite app_nil_r.
    split; [reflexivity|].
    eapply Forall2_impl; [|apply frame_resolveIssue]. now intros x y [H _].
  - exists (issues (snd (markFalsePositive E c w))), []. rewrite app_nil_r.
    split; [reflexivity|].
    eapply Forall2_impl; [|apply frame_markFalsePositive]. now intros x y [H _].
  - exists (issues (snd (bulkUpdateIssues E c w))), []. rewrite app_nil_r.
    split; [reflexivity | apply frame_bulkUpdateIssues].
Qed.

(** ** Resolving twice *)

Lemma principal_toggled {P} (E : Env) (c : Context P) (w : World)
      cond f (apiKeyId : jsstring) :
  principal E (db w) c apiKeyId ->
  principal E (db (toggled cond f w)) c apiKeyId.
Proof. intros (k & H1 & H2 & H3). exists k. repeat split; assumption. Qed.

Lemma owns_issue_toggled (w : World) cond f (apiKeyId issueId : jsstring) :
  (forall i, unchanged_fields i (f i)) ->
  owns_issue (db w) apiKeyId issueId ->
  owns_issue (db (toggled cond f w)) apiKeyId issueId.
Proof.
  intros Hf (i & s & p & Hi & Hs & Hp & Hid & E1 & E2 & Hk).
  exists (if cond i then f i else i), s, p.
  unfold toggled, Sql.update. cbn [db securityIssuesTable fst
    analysisSessionsTable projectsTable].
  repeat split; try assumption.
  - apply in_map_iff. now exists i.
  - destruct (cond i); [|assumption].
    destruct (Hf i) as (H & _). now rewrite H.
  - destruct (cond i); [|assumption].
    destruct (Hf i) as (_ & H & _). now rewrite H.
Qed.

Lemma toggled_resolved (w : World) (issueId : jsstring) (i : SecurityIssue.t) :
  In i (issues (toggled (has_id issueId) (SecurityIssue.set_resolved true) w)) ->
  SecurityIssue.id i = issueId -> SecurityIssue.resolved i = true.
Proof.
  unfold issues, toggled, Sql.update. cbn [db securityIssuesTable fst].
  intros Hin Hid. apply in_map_iff in Hin as (x & Hx & _).
  destruct (has_id issueId x) eqn:E; subst i; [reflexivity|].
  unfold has_id in E. rewrite Hid, jseqb_refl in E. discriminate.
Qed.

Lemma toggled_twice (w : World) (issueId : jsstring) :
  toggled (has_id issueId) (SecurityIssue.set_resolved true)
          (toggled (has_id issueId) (SecurityIssue.set_resolved true) w)
  = toggled (has_id issueId) (SecurityIssue.set_resolved true) w.
Proof.
  unfold toggled, Sql.update. cbn [db securityIssuesTable fst apiKeysTable
    projectsTable analysisSessionsTable uuid_calls clock_calls].
  do 2 f_equal. rewrite map_map. apply map_ext. intro i.
  destruct (has_id issueId i) eqn:E.
  - unfold has_id in *. cbn [SecurityIssue.id SecurityIssue.set_resolved].
    rewrite E. reflexivity.
  - now rewrite E.
Qed.

Lemma updated_first (d : DB) (apiKeyId issueId : jsstring)
      (f : SecurityIssue.t -> SecurityIssue.t) :
  owns_issue d apiKeyId issueId ->
  exists i, In i (securityIssuesTable d) /\ SecurityIssue.id i = issueId /\
            hd_error (snd (Sql.update (has_id issueId) f
                                      (securityIssuesTable d)))
            = Some (f i).
Proof.
  intros (i & _ & _ & Hi & _ & _ & Hid & _).
  unfold Sql.update. cbn [snd].
  assert (Hin : In i (filter (has_id issueId) (securityIssuesTable d))).
  { apply filter_In. split; [assumption|]. unfold has_id.
    rewrite Hid. apply jseqb_refl. }
  destruct (filter (has_id issueId) (securityIssuesTable d)) as [|x xs] eqn:Ef;
    [contradiction|].
  assert (Hx : In x (filter (has_id issueId) (securityIssuesTable d)))
    by (rewrite Ef; now left).
  apply filter_In in Hx as [Hx Hc]. exists x.
  split; [assumption|]. split; [now apply jseqb_eq | reflexivity].
Qed.

(** ** The matcher only ever continues on a suffix of its input *)

Lemma run_none {A} (r : Regex.t) :
  forall (s : jsstring) (cap : option jsstring)
         (k : jsstring -> option jsstring -> option A),
    (forall s1 s2 cap', s = s1 ++ s2 -> k s2 cap' = None) ->
    Regex.run r s cap k = None.
Proof.
  induction r as [|p|r1 IH1 r2 IH2|r1 IH1|[|] p|r1 IH1]; intros s cap k H;
    cbn [Regex.run].
  - apply (H [] s cap eq_refl).
  - destruct s as [|c s]; [reflexivity|]. destruct (p c); [|reflexivity].
    apply (H [c] s cap eq_refl).
  - apply IH1. intros s1 s2 cap' ->. apply IH2.
    intros s3 s4 cap'' ->. apply (H (s1 ++ s3) s4). now rewrite app_assoc.
  - rewrite IH1 by assumption. apply (H [] s cap eq_refl).
  - apply star_greedy_none. intros s1 s2 -> _. now apply (H s1 s2).
  - apply star_lazy_none. intros s1 s2 ->. now apply (H s1 s2).
  - apply IH1. intros s1 s2 cap' ->. now apply (H s1 s2).
Qed.

Lemma no_brace_no_candidate (text : jsstring) :
  ~ In c_lbrace text -> extractJsonText text = [].
Proof.
  intro Hno.
  assert (Hhead : forall s, ~ In c_lbrace s ->
            forall A cap (k : jsstring -> option jsstring -> option A),
              Regex.run (Regex.lit1 c_lbrace) s cap k = None).
  { intros [|c s] Hs A cap k; unfold Regex.lit1; cbn [Regex.run];
      [reflexivity|].
    destruct (N.eqb c_lbrace c) eqn:E; [|reflexivity].
    apply N.eqb_eq in E. exfalso. apply Hs. now left. }
  assert (Hsuf : forall s1 s2, text = s1 ++ s2 -> ~ In c_lbrace s2).
  { intros s1 s2 -> Hin. apply Hno. apply in_or_app. now right. }
  unfold extractJsonText.
  rewrite (str_match_none codeBlockRegex).
  - rewrite (str_match_none jsonRegex); [reflexivity|].
    intros a b E. unfold Regex.exec_at, jsonRegex. rewrite run_seq.
    apply Hhead. now apply (Hsuf a).
  - intros a b E. unfold Regex.exec_at, codeBlockRegex.
    rewrite run_seq. apply run_none. intros s1 s2 cap1 E1.
    rewrite run_seq. apply run_none. intros s3 s4 cap2 E2.
    rewrite run_seq. apply run_none. intros s5 s6 cap3 E3.
    rewrite run_seq. cbn [Regex.run]. apply Hhead.
    apply (Hsuf (a ++ s1 ++ s3 ++ s5)). subst.
    now rewrite <- !app_assoc.
Qed.

(** ** What [analyzeCode] returns *)

Lemma analyzeCode_no_candidate (E : Env) (content projectName text : jsstring) :
  prompt_answer E content projectName = Ok text ->
  extractJsonText text = [] ->
  analyzeCode E content projectName = Ok [].
Proof.
  unfold prompt_answer, analyzeCode. intros -> Hc. simpl.
  destruct (JsString.falsy text); [reflexivity|]. rewrite Hc. reflexivity.
Qed.

Lemma analyzeCode_parse_error (E : Env) (content projectName text : jsstring)
      (e : Exn) :
  prompt_answer E content projectName = Ok text ->
  Json.parse (extractJsonText text) = Throw e ->
  analyzeCode E content projectName = Ok [].
Proof.
  unfold prompt_answer, analyzeCode. intros -> Hp. simpl.
  destruct (JsString.falsy text); [reflexivity|].
  destruct (JsString.falsy (extractJsonText text)); [reflexivity|].
  rewrite Hp. reflexivity.
Qed.

Lemma analyzeCode_schema_error (E : Env) (content projectName text : jsstring)
      (v : Json.value) (e : Exn) :
  prompt_answer E content projectName = Ok text ->
  Json.parse (extractJsonText text) = Ok v ->
  VulnerabilityDetectionSchema v = Throw e ->
  analyzeCode E content projectName = Ok [].
Proof.
  unfold prompt_answer, analyzeCode. intros -> Hp Hs. simpl.
  destruct (JsString.falsy text); [reflexivity|].
  destruct (JsString.falsy (extractJsonText text)); [reflexivity|].
  rewrite Hp. simpl. rewrite Hs. reflexivity.
Qed.

Lemma string_min_nonempty (n : nat) (v : option Json.value) (s : jsstring) :
  Zod.string_min (S n) v = Ok s -> JsString.falsy s = false.
Proof.
  unfold Zod.string_min. intro H. apply rbind_Ok in H as (s' & _ & H).
  destruct (S n <=? List.length s')%nat eqn:E; [|discriminate].
  inversion H; subst. destruct s; [discriminate | reflexivity].
Qed.

Lemma entry_filePath_nonempty (x : option Json.value) (v : Vuln.t) :
  VulnerabilityEntrySchema x = Ok v -> JsString.falsy (Vuln.filePath v) = false.
Proof.
  unfold VulnerabilityEntrySchema, Zod.object.
  destruct x as [[| | | | |o]|]; try discriminate.
  intro H.
  apply rbind_Ok in H as (? & _ & H).
  apply rbind_Ok in H as (? & _ & H).
  apply rbind_Ok in H as (? & _ & H).
  apply rbind_Ok in H as (fp & Hfp & H).
  repeat (apply rbind_Ok in H as (? & _ & H)).
  inversion H; subst. cbn [Vuln.filePath].
  eapply string_min_nonempty; eassumption.
Qed.

Lemma with_filePath_same (v : Vuln.t) : Vuln.with_filePath (Vuln.filePath v) v = v.
Proof. destruct v; reflexivity. Qed.

Lemma analyzeCode_valid (E : Env) (content projectName text : jsstring)
      (v : Json.value) (vs : list Vuln.t) :
  prompt_answer E content projectName = Ok text ->
  text <> [] -> extractJsonText text <> [] ->
  Json.parse (extractJsonText text) = Ok v ->
  VulnerabilityDetectionSchema v = Ok vs ->
  analyzeCode E content projectName = Ok vs.
Proof.
  unfold prompt_answer, analyzeCode. intros -> Ht Hc Hp Hs. simpl.
  destruct text; [contradiction|]. cbn [JsString.falsy].
  destruct (extractJsonText _); [contradiction|]. cbn [JsString.falsy].
  rewrite Hp. simpl. rewrite Hs. simpl. f_equal.
  assert (Hfp : Forall (fun x => JsString.falsy (Vuln.filePath x) = false) vs).
  { unfold VulnerabilityDetectionSchema, Zod.object, Zod.array in Hs.
    destruct v; try discriminate.
    destruct (Json.get _ _) as [[| | | |l|]|]; try discriminate.
    eapply all_Forall; [|exact Hs]. apply entry_filePath_nonempty. }
  clear Hs. induction Hfp as [|x l Hx _ IH]; [reflexivity|].
  simpl. rewrite Hx, with_filePath_same, IH. reflexivity.
Qed.

(** ** Entries the schema turns down *)

Lemma schema_throws_ZodError (x : option Json.value) (e : Exn) :
  VulnerabilityEntrySchema x = Throw e -> e = ZodError.
Proof.
  unfold VulnerabilityEntrySchema, Zod.object, Zod.enum, Zod.string_min,
    Zod.optional, Zod.number_min_max, Zod.number, Zod.string.
  destruct x as [[| | | | |o]|]; try (now intros [= <-]).
  repeat match goal with
         | |- context [Json.get ?k o] =>
             destruct (Json.get k o) as [[| | | | |]|]; simpl
         | |- context [if ?b then _ else _] => destruct b; simpl
         end; try discriminate; now intros [= <-].
Qed.

Lemma rejected_intro (o : list (jsstring * Json.value)) :
  (forall v, VulnerabilityEntrySchema (Some (Json.Obj o)) <> Ok v) ->
  entry_rejected (Json.Obj o).
Proof.
  intro H. unfold entry_rejected.
  destruct (VulnerabilityEntrySchema (Some (Json.Obj o))) as [v|e] eqn:E.
  - exfalso. now apply (H v).
  - now rewrite (schema_throws_ZodError _ _ E).
Qed.

Lemma schema_Ok_fields (o : list (jsstring * Json.value)) (v : Vuln.t) :
  VulnerabilityEntrySchema (Some (Json.Obj o)) = Ok v ->
  Zod.enum severityValues (Json.get (js "severity") o) = Ok (Vuln.severity v)
  /\ Zod.string_min 1 (Json.get (js "type") o) = Ok (Vuln.type v)
  /\ Zod.string_min 1 (Json.get (js "category") o) = Ok (Vuln.category v)
  /\ Zod.string_min 1 (Json.get (js "filePath") o) = Ok (Vuln.filePath v)
  /\ Zod.string_min 10 (Json.get (js "description") o)
     = Ok (Vuln.description v)
  /\ Zod.string_min 10 (Json.get (js "recommendation") o)
     = Ok (Vuln.recommendation v)
  /\ Zod.optional (Zod.number_min_max 0 1)
                  (Json.get (js "confidenceScore") o)
     = Ok (Vuln.confidenceScore v).
Proof.
  unfold VulnerabilityEntrySchema, Zod.object. intro H.
  apply rbind_Ok in H as (a1 & H1 & H).
  apply rbind_Ok in H as (a2 & H2 & H).
  apply rbind_Ok in H as (a3 & H3 & H).
  apply rbind_Ok in H as (a4 & H4 & H).
  apply rbind_Ok in H as (a5 & H5 & H).
  apply rbind_Ok in H as (a6 & H6 & H).
  apply rbind_Ok in H as (a7 & H7 & H).
  apply rbind_Ok in H as (a8 & H8 & H).
  apply rbind_Ok in H as (a9 & H9 & H).
  inversion H; subst. cbn. repeat split; assumption.
Qed.

Lemma string_min_short (n : nat) (s : jsstring) (r : jsstring) :
  (List.length s < n)%nat -> Zod.string_min n (Some (Json.Str s)) <> Ok r.
Proof.
  intros Hlt H. unfold Zod.string_min, Zod.string in H. simpl in H.
  destruct (n <=? List.length s)%nat eqn:E. 2:{ discriminate H. }
  apply Nat.leb_le in E. lia.
Qed.

Lemma listed_violation_rejected (o : list (jsstring * Json.value)) :
  listed_violation o -> entry_rejected (Json.Obj o).
Proof.
  intro Hv. apply rejected_intro. intros v Hok.
  apply schema_Ok_fields in Hok as (Hsev & Hty & Hcat & Hfp & Hd & Hr & Hc).
  destruct Hv as [s Hg Hn | k Hk Hg | k s Hk Hg Hlen | x Hg Hx].
  - rewrite Hg in Hsev. unfold Zod.enum, Zod.string in Hsev.
    cbn [rbind] in Hsev.
    destruct (JsString.includes severityValues s) eqn:Ei;
      [|discriminate Hsev].
    apply includes_In in Ei. contradiction.
  - destruct Hk as [<-|[<-|[<-|[]]]]; rewrite Hg in *.
    + now apply (string_min_short 1 [] (Vuln.type v)) in Hty; [|simpl; lia].
    + now apply (string_min_short 1 [] (Vuln.category v)) in Hcat;
        [|simpl; lia].
    + now apply (string_min_short 1 [] (Vuln.filePath v)) in Hfp;
        [|simpl; lia].
  - destruct Hk as [<-|[<-|[]]]; rewrite Hg in *.
    + now apply (string_min_short 10 s (Vuln.description v)) in Hd.
    + now apply (string_min_short 10 s (Vuln.recommendation v)) in Hr.
  - rewrite Hg in Hc. unfold Zod.optional, Zod.number_min_max, Zod.number in Hc.
    simpl in Hc.
    destruct (Qle_bool 0 x) eqn:E0; simpl in Hc; [|discriminate].
    destruct (Qle_bool x 1) eqn:E1; simpl in Hc; [|discriminate].
    apply Qle_bool_iff in E0, E1. destruct Hx as [Hx|Hx]; lra.
Qed.

Lemma all_rejects (l : list Json.value) :
  Exists entry_rejected l ->
  Zod.all VulnerabilityEntrySchema l = Throw ZodError.
Proof.
  induction 1 as [x l Hx | x l _ IH]; cbn [Zod.all].
  - unfold entry_rejected in Hx. now rewrite Hx.
  - rewrite IH. destruct (VulnerabilityEntrySchema (Some x)); reflexivity.
Qed.

(* ================================================================== *)
(** * The claims *)
(* ================================================================== *)


Lemma sessionRow_consistent sessionId projectId vs processingTime now
      completedAt :
  Forall severity_ok vs ->
  counts_consistent
    (sessionRow sessionId projectId vs processingTime now completedAt).
Proof. intro H. unfold counts_consistent. cbn. now apply counts_sum. Qed.

(** C2.  For a finding list whose severities lie in the four-value enum
    the four counts add up to the number of findings, and every session
    row [startAnalysis] writes or returns satisfies
    critical + high + medium + low = totalIssues. *)
Theorem counts_sum_to_total (E : Env) (c : Context jsstring) (w : World)
        (vs : list Vuln.t) :
  Forall severity_ok vs ->
  Forall counts_consistent (sessions w) ->
  (critical (issueCounts vs) + high (issueCounts vs)
   + medium (issueCounts vs) + low (issueCounts vs) = List.length vs)%nat /\
  Forall counts_consistent (sessions (snd (startAnalysis E c w))) /\
  (forall s stored,
      data (fst (startAnalysis E c w)) = AnalysisResults s stored ->
      counts_consistent s).
Proof.
  intros Hvs Hw. split; [now apply counts_sum|].
  destruct (startAnalysis_effect E c w) as [(Hdb & Hdata & _)|H].
  - split.
    + unfold sessions. now rewrite Hdb.
    + intros s stored Hs. rewrite Hdata in Hs. discriminate.
  - destruct H as (project & vs' & new & _ & _ & Hvs' & Hresp & _ & Hs & _).
    apply analyzeCode_severity_ok in Hvs'.
    assert (Hrow : counts_consistent (sessionRowOf E w (valid c) vs'))
      by (now apply sessionRow_consistent).
    split.
    + unfold sessions. rewrite Hs. apply Forall_app. split; [assumption|].
      now constructor.
    + intros s stored Hd. rewrite Hresp in Hd. cbn in Hd.
      inversion Hd; subst. assumption.
Qed.

Lemma principal_alice {P} (E : Env) (d : DB) (p : P) :
  sha256_hex E = (fun s => s) -> apiKeysTable d = [aliceKey; bobKey] ->
  principal E d (request "alice-secret" p) (js "alice").
Proof.
  intros HE Hd. exists (js "alice-secret"). unfold validateApiKey.
  rewrite HE, Hd. repeat split.
Defined.

Lemma principal_bob {P} (E : Env) (d : DB) (p : P) :
  sha256_hex E = (fun s => s) -> apiKeysTable d = [aliceKey; bobKey] ->
  principal E d (request "bob-secret" p) (js "bob").
Proof.
  intros HE Hd. exists (js "bob-secret"). unfold validateApiKey.
  rewrite HE, Hd. repeat split.
Defined.

Lemma counts_sum_to_total_witness :
  let vs := [sample_vuln "critical"; sample_vuln "low"] in
  let E := envOf (Ok answer_two_findings) in
  let c := request "alice-secret" (js "p1") in
  Forall severity_ok vs /\ Forall counts_consistent (sessions (world db1)) /\
  (critical (issueCounts vs) + high (issueCounts vs)
   + medium (issueCounts vs) + low (issueCounts vs) = 2)%nat /\
  Forall counts_consistent (sessions (snd (startAnalysis E c (world db1)))).
Proof.
  intros vs E c.
  assert (Hvs : Forall severity_ok vs).
  { repeat apply Forall_cons; try apply Forall_nil;
      unfold severity_ok, severityValues; pick_status. }
  assert (Hw : Forall counts_consistent (sessions (world db1))).
  { apply Forall_cons; [reflexivity | apply Forall_nil]. }
  split; [exact Hvs|]. split; [exact Hw|].
  destruct (counts_sum_to_total E c (world db1) vs Hvs Hw) as (H1 & H2 & _).
  split; [exact H1 | exact H2].
Defined.

Lemma upstream_failed_nil (E : Env) (content projectName : jsstring) :
  upstream_failed (prompt_answer E content projectName) ->
  analyzeCode E content projectName = Ok [].
Proof.
  destruct (prompt_answer E content projectName) as [text|e] eqn:Ea; cbn.
  - intros [->|[H|[(e & H)|(v & e & H1 & H2)]]].
    + unfold prompt_answer in Ea. unfold analyzeCode. now rewrite Ea.
    + now apply (analyzeCode_no_candidate E content projectName text).
    + now apply (analyzeCode_parse_error E content projectName text e).
    + now apply (analyzeCode_schema_error E content projectName text v e).
  - intros _. unfold prompt_answer in Ea. unfold analyzeCode. now rewrite Ea.
Qed.

Lemma owns_project_verified (d : DB) (apiKeyId projectId : jsstring) :
  owns_project d apiKeyId projectId ->
  verifyProjectOwnership d projectId apiKeyId = true.
Proof.
  intros (p & Hp & Hid & Hk). unfold verifyProjectOwnership.
  destruct (Sql.get _) eqn:E; [reflexivity|]. exfalso.
  rewrite get_where_None in E. specialize (E p Hp).
  rewrite Hid, Hk, !jseqb_refl in E. discriminate.
Qed.

(** C3.  When the reasoning call fails (throws, answers with empty text,
    or answers with something that cannot be parsed), [startAnalysis],
    called by the owner of the project, still answers 201 with a session
    of status completed, no issues and score 10, and that session is the
    row it has stored; no finding is stored. *)
Theorem upstream_failure_absorbed (E : Env) (c : Context jsstring) (w : World)
        (apiKeyId : jsstring) :
  principal E (db w) c apiKeyId ->
  owns_project (db w) apiKeyId (valid c) ->
  fresh_session_id E w ->
  (forall p, In p (projectsTable (db w)) -> Project.id p = valid c ->
             upstream_failed
               (prompt_answer E (Project.content p) (Project.name p))) ->
  let row := sessionRowOf E w (valid c) [] in
  fst (startAnalysis E c w)
  = successResponse [] (AnalysisResults row [])
      (js "Analysis completed successfully") HttpStatusCodes.CREATED /\
  AnalysisSession.status row = js "completed" /\
  AnalysisSession.totalIssues row = 0%nat /\
  AnalysisSession.overallScore row = Some 10 /\
  sessions (snd (startAnalysis E c w)) = sessions w ++ [row] /\
  issues (snd (startAnalysis E c w)) = issues w.
Proof.
  intros (apiKey & Hk & Hf & Hv) Ho Hfresh Hfail row.
  apply owns_project_verified in Ho.
  destruct (startAnalysis_authorized E c w apiKey apiKeyId Hk Hf Hv Ho Hfresh)
    as (project & vs & new & Hin & Hid & Hvs & Hresp & _ & Hs & Hi & Hnew).
  rewrite (upstream_failed_nil _ _ _ (Hfail project Hin Hid)) in Hvs.
  inversion Hvs; subst vs.
  assert (new = []) as ->.
  { destruct new as [|i new]; [reflexivity|].
    inversion Hnew as [|? ? (v & ? & ? & [] & _)]. }
  rewrite app_nil_r in Hi.
  repeat split; assumption.
Qed.

Lemma upstream_failure_absorbed_witness :
  let c := request "alice-secret" (js "p1") in
  upstream_failed (prompt_answer quiet (Project.content project1)
                                 (Project.name project1)) /\
  status (fst (startAnalysis quiet c (world db0))) = HttpStatusCodes.CREATED /\
  sessions (snd (startAnalysis quiet c (world db0)))
  = [sessionRowOf quiet (world db0) (js "p1") []].
Proof.
  intro c. split; [exact I|].
  assert (Hp : principal quiet (db (world db0)) c (js "alice"))
    by (apply principal_alice; reflexivity).
  assert (Ho : owns_project (db (world db0)) (js "alice") (valid c)).
  { exists project1. repeat split. now left. }
  assert (Hfresh : fresh_session_id quiet (world db0)) by (intros s []).
  assert (Hfail : forall p, In p (projectsTable (db (world db0))) ->
            Project.id p = valid c ->
            upstream_failed (prompt_answer quiet (Project.content p)
                                           (Project.name p)))
    by (intros p _ _; exact I).
  destruct (upstream_failure_absorbed quiet c (world db0) (js "alice")
              Hp Ho Hfresh Hfail) as (H1 & _ & _ & _ & H2 & _).
  split; [now rewrite H1 | exact H2].
Defined.









Lemma principal_header {P P'} (E : Env) (d : DB) (c : Context P)
      (c' : Context P') (apiKeyId : jsstring) :
  authorization c = authorization c' ->
  principal E d c apiKeyId -> principal E d c' apiKeyId.
Proof.
  intros Hh (k & H1 & H2 & H3). exists k. repeat split; try assumption.
  unfold getApiKeyFromHeader in *. now rewrite <- Hh.
Qed.

(** C7.  A caller who asks for a session (results, export) or a finding
    (read, resolve, mark as false positive) gets the very same 404 answer,
    and leaves the store untouched, whether the target does not exist
    ([w1]) or exists under a project of another key ([w2]); and no route
    ever answers 403. *)
Theorem not_found_hides_ownership (E : Env) (auth : option jsstring)
        (apiKeyId sessionId issueId format : jsstring) (w1 w2 : World) :
  let cs := {| authorization := auth; valid := sessionId |} in
  let ce := {| authorization := auth; valid := (sessionId, format) |} in
  let ci := {| authorization := auth; valid := issueId |} in
  principal E (db w1) cs apiKeyId ->
  principal E (db w2) cs apiKeyId ->
  (session_absent (db w1) sessionId ->
   session_foreign (db w2) apiKeyId sessionId ->
   getAnalysisResults E cs w1 = (sessionNotFound, w1) /\
   getAnalysisResults E cs w2 = (sessionNotFound, w2) /\
   exportAnalysis E ce w1 = (sessionNotFound, w1) /\
   exportAnalysis E ce w2 = (sessionNotFound, w2)) /\
  (issue_absent (db w1) issueId ->
   issue_foreign (db w2) apiKeyId issueId ->
   getIssue E ci w1 = (issueNotFound, w1) /\
   getIssue E ci w2 = (issueNotFound, w2) /\
   resolveIssue E ci w1 = (issueNotFound, w1) /\
   resolveIssue E ci w2 = (issueNotFound, w2) /\
   markFalsePositive E ci w1 = (issueNotFound, w1) /\
   markFalsePositive E ci w2 = (issueNotFound, w2)) /\
  status sessionNotFound = HttpStatusCodes.NOT_FOUND /\
  status issueNotFound = HttpStatusCodes.NOT_FOUND /\
  (forall r w, status (fst (handle E r w)) <> HttpStatusCodes.FORBIDDEN).
Proof.
  intros cs ce ci Hp1 Hp2.
  assert (He1 : principal E (db w1) ce apiKeyId)
    by (now apply (principal_header E (db w1) cs ce)).
  assert (He2 : principal E (db w2) ce apiKeyId)
    by (now apply (principal_header E (db w2) cs ce)).
  assert (Hi1 : principal E (db w1) ci apiKeyId)
    by (now apply (principal_header E (db w1) cs ci)).
  assert (Hi2 : principal E (db w2) ci apiKeyId)
    by (now apply (principal_header E (db w2) cs ci)).
  split; [|split; [|split; [reflexivity | split; [reflexivity|]]]].
  - intros Ha Hf. repeat split.
    + apply (getAnalysisResults_notFound E cs w1 apiKeyId Hp1). now left.
    + apply (getAnalysisResults_notFound E cs w2 apiKeyId Hp2). now right.
    + apply (exportAnalysis_notFound E ce w1 apiKeyId He1). now left.
    + apply (exportAnalysis_notFound E ce w2 apiKeyId He2). now right.
  - intros Ha [_ Hf].
    pose proof (not_owned_of_absent (db w1) apiKeyId issueId Ha) as Hn.
    repeat split.
    + now apply (getIssue_notFound E ci w1 apiKeyId).
    + now apply (getIssue_notFound E ci w2 apiKeyId).
    + now apply (resolveIssue_notFound E ci w1 apiKeyId).
    + now apply (resolveIssue_notFound E ci w2 apiKeyId).
    + now apply (markFalsePositive_notFound E ci w1 apiKeyId).
    + now apply (markFalsePositive_notFound E ci w2 apiKeyId).
  - intros r w H. pose proof (handle_status E r w) as Hs.
    rewrite H in Hs. cbn in Hs.
    repeat destruct Hs as [Hs|Hs]; try discriminate Hs. exact Hs.
Qed.

Lemma js_alice_not_bob : js "alice" <> js "bob".
Proof. intro H. vm_compute in H. discriminate H. Defined.

Lemma not_found_hides_ownership_witness :
  let auth := Some (js "Bearer bob-secret") in
  let cs := {| authorization := auth; valid := js "s1" |} in
  let ci := {| authorization := auth; valid := js "i1" |} in
  session_absent db0 (js "s1") /\ session_foreign db1 (js "bob") (js "s1") /\
  issue_absent db0 (js "i1") /\ issue_foreign db1 (js "bob") (js "i1") /\
  fst (getAnalysisResults quiet cs (world db0))
  = fst (getAnalysisResults quiet cs (world db1)) /\
  fst (resolveIssue quiet ci (world db0))
  = fst (resolveIssue quiet ci (world db1)) /\
  snd (resolveIssue quiet ci (world db1)) = world db1.
Proof.
  intros auth cs ci.
  assert (Hsa : session_absent db0 (js "s1")) by (intros s []).
  assert (Hia : issue_absent db0 (js "i1")) by (intros i []).
  assert (Hsf : session_foreign db1 (js "bob") (js "s1")).
  { split.
    - exists session1. split; [now left | reflexivity].
    - intros (s & p & _ & [<-|[]] & _ & _ & Hk).
      apply js_alice_not_bob. exact Hk. }
  assert (Hif : issue_foreign db1 (js "bob") (js "i1")).
  { split.
    - exists issue1. split; [now left | reflexivity].
    - intros (i & s & p & _ & _ & [<-|[]] & _ & _ & _ & Hk).
      apply js_alice_not_bob. exact Hk. }
  assert (Hp0 : principal quiet (db (world db0)) cs (js "bob"))
    by (apply (principal_bob quiet db0 (js "s1")); reflexivity).
  assert (Hp1 : principal quiet (db (world db1)) cs (js "bob"))
    by (apply (principal_bob quiet db1 (js "s1")); reflexivity).
  destruct (not_found_hides_ownership quiet auth (js "bob") (js "s1")
              (js "i1") (js "json") (world db0) (world db1) Hp0 Hp1)
    as (Hs & Hi & _).
  destruct (Hs Hsa Hsf) as (G1 & G2 & _).
  destruct (Hi Hia Hif) as (_ & _ & R1 & R2 & _).
  split; [exact Hsa|]. split; [exact Hsf|].
  split; [exact Hia|]. split; [exact Hif|].
  split; [exact (eq_trans (f_equal fst G1) (eq_sym (f_equal fst G2)))|].
  split; [exact (eq_trans (f_equal fst R1) (eq_sym (f_equal fst R2)))|].
  exact (f_equal snd R2).
Defined.

(** C8.  The owner of a finding may resolve it twice in a row: both
    calls answer 200 with the finding, [resolved] set; after the first
    call every finding with that id is resolved and the second call
    changes nothing.  A caller with a valid key gets 404 exactly when the
    finding is not one of theirs (absent, or under another key). *)
Theorem resolve_twice (E : Env) (c : Context jsstring) (w : World)
        (apiKeyId : jsstring) :
  principal E (db w) c apiKeyId ->
  owns_issue (db w) apiKeyId (valid c) ->
  let r1 := resolveIssue E c w in
  let r2 := resolveIssue E c (snd r1) in
  status (fst r1) = HttpStatusCodes.OK /\
  status (fst r2) = HttpStatusCodes.OK /\
  (exists i, data (fst r1) = UpdatedIssue (Some i)
             /\ SecurityIssue.id i = valid c
             /\ SecurityIssue.resolved i = true) /\
  (exists i, data (fst r2) = UpdatedIssue (Some i)
             /\ SecurityIssue.id i = valid c
             /\ SecurityIssue.resolved i = true) /\
  (forall i, In i (issues (snd r1)) -> SecurityIssue.id i = valid c ->
             SecurityIssue.resolved i = true) /\
  snd r2 = snd r1 /\
  (forall w0 k, principal E (db w0) c k ->
                (status (fst (resolveIssue E c w0)) = HttpStatusCodes.NOT_FOUND
                 <-> ~ owns_issue (db w0) k (valid c))).
Proof.
  intros Hp Ho r1 r2.
  set (w1 := toggled (has_id (valid c)) (SecurityIssue.set_resolved true) w).
  assert (H1 : r1 = (successResponse []
                       (UpdatedIssue
                          (hd_error (snd (Sql.update (has_id (valid c))
                                            (SecurityIssue.set_resolved true)
                                            (securityIssuesTable (db w))))))
                       (js "Issue marked as resolved") HttpStatusCodes.OK, w1))
    by (now apply (resolveIssue_owned E c w apiKeyId)).
  assert (Hp1 : principal E (db w1) c apiKeyId)
    by (now apply principal_toggled).
  assert (Ho1 : owns_issue (db w1) apiKeyId (valid c)).
  { apply owns_issue_toggled; [|assumption].
    intro i. apply (only_resolved_set true i). }
  assert (H2 : r2 = (successResponse []
                       (UpdatedIssue
                          (hd_error (snd (Sql.update (has_id (valid c))
                                            (SecurityIssue.set_resolved true)
                                            (securityIssuesTable (db w1))))))
                       (js "Issue marked as resolved") HttpStatusCodes.OK,
                     toggled (has_id (valid c))
                             (SecurityIssue.set_resolved true) w1)).
  { unfold r2. rewrite H1. cbn [snd].
    now apply (resolveIssue_owned E c w1 apiKeyId). }
  rewrite H2, H1. cbn [fst snd status data successResponse].
  split; [reflexivity|]. split; [reflexivity|].
  split.
  { destruct (updated_first (db w) apiKeyId (valid c)
                (SecurityIssue.set_resolved true) Ho) as (i & _ & Hid & ->).
    exists (SecurityIssue.set_resolved true i). repeat split. exact Hid. }
  split.
  { destruct (updated_first (db w1) apiKeyId (valid c)
                (SecurityIssue.set_resolved true) Ho1) as (i & _ & Hid & ->).
    exists (SecurityIssue.set_resolved true i). repeat split. exact Hid. }
  split; [intros i; apply toggled_resolved|].
  split; [apply toggled_twice|].
  intros w0 k Hk. destruct (owns_issue_dec (db w0) k (valid c)) as [Hy|Hn].
  - rewrite (resolveIssue_owned E c w0 k Hk Hy). cbn. split.
    + discriminate.
    + intro H. contradiction.
  - rewrite (resolveIssue_notFound E c w0 k Hk Hn). cbn. split.
    + intros _. exact Hn.
    + reflexivity.
Qed.

Lemma resolve_twice_witness :
  let c := request "alice-secret" (js "i1") in
  let r1 := resolveIssue quiet c (world db1) in
  let r2 := resolveIssue quiet c (snd r1) in
  owns_issue db1 (js "alice") (js "i1") /\
  status (fst r1) = 200%Z /\ status (fst r2) = 200%Z /\
  issues (snd r2) = [SecurityIssue.set_resolved true issue1].
Proof.
  intros c r1 r2.
  assert (Ho : owns_issue db1 (js "alice") (js "i1")).
  { exists issue1, session1, project1. repeat split; now left. }
  assert (Hp : principal quiet (db (world db1)) c (js "alice"))
    by (apply principal_alice; reflexivity).
  destruct (resolve_twice quiet c (world db1) (js "alice") Hp Ho)
    as (H1 & H2 & _ & _ & _ & H3 & _).
  split; [exact Ho|]. split; [exact H1|]. split; [exact H2|].
  exact (eq_trans (f_equal issues H3) eq_refl).
Defined.

(** A bulk update by the owner sets a resolved finding back to
    unresolved: in [db2] the finding [i1] of Alice is resolved; her
    request with [issueIds = [i1]] and [resolved = false] is answered 200
    and leaves the finding unresolved. *)
Lemma bulk_update_unresolves :
  let c := request "alice-secret"
             {| issueIds := [js "i1"]; bulk_resolved := Some false;
                bulk_falsePositive := None |} in
  issues (world db2) = [SecurityIssue.set_resolved true issue1] /\
  status (fst (bulkUpdateIssues quiet c (world db2))) = HttpStatusCodes.OK /\
  issues (snd (bulkUpdateIssues quiet c (world db2)))
  = [SecurityIssue.set_resolved false issue1] /\
  ~ only_toggle_routes_mutate.
Proof.
  intro c. repeat (split; [vm_compute; reflexivity|]).
  intro H.
  destruct (H quiet (BulkUpdateIssues c) (world db2)) as (new & Hnew);
    [intros c' Hc; discriminate Hc | intros c' Hc; discriminate Hc |].
  vm_compute in Hnew. discriminate Hnew.
Qed.

(** C9, as the code has it.  [resolveIssue] changes at most [resolved]
    and [markFalsePositive] at most [falsePositive]; the bulk update is a
    third route that changes findings, and it too leaves every field but
    the two toggles alone.  Under every route the findings that exist
    keep id, analysisSessionId, severity, type, category, filePath,
    lineNumber, codeSnippet, description, recommendation, confidenceScore
    and createdAt, and the table only grows at its end. *)
Theorem only_toggles_change :
  (forall E c w,
      Forall2 only_resolved (issues w) (issues (snd (resolveIssue E c w)))) /\
  (forall E c w,
      Forall2 only_falsePositive (issues w)
              (issues (snd (markFalsePositive E c w)))) /\
  (forall E c w,
      Forall2 unchanged_fields (issues w)
              (issues (snd (bulkUpdateIssues E c w)))) /\
  (forall E r w,
      exists kept new,
        issues (snd (handle E r w)) = kept ++ new /\
        Forall2 unchanged_fields (issues w) kept).
Proof.
  split; [exact frame_resolveIssue|].
  split; [exact frame_markFalsePositive|].
  split; [exact frame_bulkUpdateIssues | exact handle_frame].
Qed.



(* ================================================================== *)
(** * Further properties *)
(* ================================================================== *)

(** ** Who is asking *)

Lemma startsWith_prefix (s p : jsstring) :
  JsString.startsWith s p = true <-> exists rest, s = p ++ rest.
Proof.
  revert s; induction p as [|x p IH]; intros s; simpl.
  - split; [intros _; now exists s | reflexivity].
  - destruct s as [|y s].
    + split; [discriminate | intros (rest & H); discriminate H].
    + rewrite andb_true_iff, N.eqb_eq, IH. split.
      * intros [-> (rest & ->)]. now exists rest.
      * intros (rest & H). inversion H; subst. split; [reflexivity|].
        now exists rest.
Qed.

Lemma bearer_token_prefix {P} (c : Context P) (apiKey : jsstring) :
  getApiKeyFromHeader c = Some apiKey ->
  authorization c = Some (js "Bearer " ++ apiKey).
Proof.
  unfold getApiKeyFromHeader.
  destruct (authorization c) as [h|]; [|discriminate].
  destruct (JsString.startsWith h (js "Bearer ")) eqn:E; [|discriminate].
  apply startsWith_prefix in E as (rest & ->).
  change (JsString.substring 7 (js "Bearer " ++ rest)) with rest.
  now intros [= ->].
Qed.

Lemma bearer_token_of_header {P} (c : Context P) (apiKey : jsstring) :
  authorization c = Some (js "Bearer " ++ apiKey) ->
  getApiKeyFromHeader c = Some apiKey.
Proof.
  unfold getApiKeyFromHeader. intros ->.
  assert (Ht : JsString.startsWith (js "Bearer " ++ apiKey) (js "Bearer ")
               = true) by (apply startsWith_prefix; now exists apiKey).
  rewrite Ht. reflexivity.
Qed.

Lemma validateApiKey_Some (E : Env) (d : DB) (apiKey apiKeyId : jsstring) :
  validateApiKey E d apiKey = Some apiKeyId ->
  apiKeyId <> [] /\
  exists row, In row (apiKeysTable d) /\
              ApiKey.keyHash row = sha256_hex E apiKey /\
              ApiKey.isActive row = true /\ ApiKey.id row = apiKeyId.
Proof.
  unfold validateApiKey. intro H.
  destruct (Sql.get _) as [row|] eqn:Eg; [|discriminate H].
  apply get_where_Some in Eg as [Hin Hc].
  apply andb_true_iff in Hc as [Hh Ha].
  apply jseqb_eq in Hh. apply eqb_prop in Ha.
  destruct (ApiKey.id row) as [|x k] eqn:Eid; [discriminate H|].
  cbn [JsString.falsy] in H. inversion H; subst.
  split; [discriminate|]. exists row. repeat split; assumption.
Qed.

Lemma no_active_key_no_principal {P} (E : Env) (d : DB) (c : Context P)
      (apiKeyId : jsstring) :
  no_active_key E d (authorization c) -> ~ principal E d c apiKeyId.
Proof.
  intros Hno (apiKey & Hk & Hf & Hv).
  apply bearer_token_prefix in Hk.
  destruct (validateApiKey_Some E d apiKey apiKeyId Hv)
    as (_ & row & Hin & Hh & Ha & _).
  assert (Hne : apiKey <> []) by (intros ->; discriminate Hf).
  rewrite (Hno apiKey row Hk Hne Hin Hh) in Ha. discriminate Ha.
Qed.

Lemma authenticated_rejects {P} (E : Env) (c : Context P) (w : World)
      (k : jsstring -> M Response) (on_error : Response) :
  no_active_key E (db w) (authorization c) ->
  status (fst (catch_all (authenticated E c k) on_error w))
  = HttpStatusCodes.UNAUTHORIZED
  /\ success (fst (catch_all (authenticated E c k) on_error w)) = false
  /\ data (fst (catch_all (authenticated E c k) on_error w)) = NoData
  /\ snd (catch_all (authenticated E c k) on_error w) = w.
Proof.
  intro Hno. unfold catch_all.
  destruct (authenticated_cases E c w k) as [(msg & ->)|(kid & Hp & _)].
  - repeat split.
  - exfalso. exact (no_active_key_no_principal E (db w) c kid Hno Hp).
Qed.

(** X1. [getApiKeyFromHeader] gives a token exactly for a header that is
    [Bearer ] followed by the token; the token may be empty. *)
Theorem bearer_token_exact {P} (c : Context P) (apiKey : jsstring) :
  getApiKeyFromHeader c = Some apiKey
  <-> authorization c = Some (js "Bearer " ++ apiKey).
Proof.
  split; [apply bearer_token_prefix | apply bearer_token_of_header].
Qed.

(** X2. The key [validateApiKey] answers with is the id, not empty, of
    an active key of the store whose digest is the token's.  It answers
    with none only when no active key has that digest, or when one that
    has it has the empty id. *)
Theorem validateApiKey_sound (E : Env) (d : DB) (apiKey : jsstring) :
  match validateApiKey E d apiKey with
  | Some apiKeyId =>
      apiKeyId <> [] /\
      exists row, In row (apiKeysTable d) /\
                  ApiKey.keyHash row = sha256_hex E apiKey /\
                  ApiKey.isActive row = true /\ ApiKey.id row = apiKeyId
  | None =>
      (forall row, In row (apiKeysTable d) ->
                   ApiKey.keyHash row = sha256_hex E apiKey ->
                   ApiKey.isActive row = false)
      \/ exists row, In row (apiKeysTable d) /\
                     ApiKey.keyHash row = sha256_hex E apiKey /\
                     ApiKey.isActive row = true /\ ApiKey.id row = []
  end.
Proof.
  destruct (validateApiKey E d apiKey) as [apiKeyId|] eqn:Hv;
    [now apply validateApiKey_Some|].
  unfold validateApiKey in Hv.
  destruct (Sql.get _) as [row|] eqn:Eg.
  - right. apply get_where_Some in Eg as [Hin Hc].
    apply andb_true_iff in Hc as [Hh Ha].
    apply jseqb_eq in Hh. apply eqb_prop in Ha.
    destruct (ApiKey.id row) as [|x k] eqn:Eid; [|discriminate Hv].
    exists row. repeat split; assumption.
  - left. rewrite get_where_None in Eg. intros row Hin Hh.
    specialize (Eg row Hin). rewrite Hh, jseqb_refl in Eg.
    destruct (ApiKey.isActive row); [discriminate Eg | reflexivity].
Qed.

(** X3. [verifyProjectOwnership] says yes exactly when the store has a
    project with that id under that key. *)
Theorem verifyProjectOwnership_exact (d : DB) (projectId apiKeyId : jsstring) :
  verifyProjectOwnership d projectId apiKeyId = true
  <-> exists p, In p (projectsTable d) /\ Project.id p = projectId
                /\ Project.apiKeyId p = apiKeyId.
Proof.
  split; [|apply owns_project_verified].
  unfold verifyProjectOwnership.
  destruct (Sql.get _) as [p|] eqn:Eg; [intros _ | discriminate].
  apply get_where_Some in Eg as [Hin Hc].
  apply andb_true_iff in Hc as [H1 H2].
  apply jseqb_eq in H1. apply jseqb_eq in H2. now exists p.
Qed.

(** X4. [verifyIssueOwnership] says yes exactly when a finding with that
    id hangs, through its session, on a project of that key. *)
Theorem verifyIssueOwnership_exact (d : DB) (issueId apiKeyId : jsstring) :
  verifyIssueOwnership d issueId apiKeyId = true
  <-> exists i s p,
        In i (securityIssuesTable d) /\ In s (analysisSessionsTable d) /\
        In p (projectsTable d) /\
        SecurityIssue.id i = issueId /\
        SecurityIssue.analysisSessionId i = AnalysisSession.id s /\
        AnalysisSession.projectId s = Project.id p /\
        Project.apiKeyId p = apiKeyId.
Proof. apply verifyIssueOwnership_iff. Qed.

(** X5. A request that carries no token of an active key is answered
    401 on every route, with no data, and nothing is written: not even
    an identifier or a clock reading is consumed. *)
Theorem unauthenticated_rejected (E : Env) (r : Request) (w : World) :
  no_active_key E (db w) (request_header r) ->
  status (fst (handle E r w)) = HttpStatusCodes.UNAUTHORIZED
  /\ success (fst (handle E r w)) = false
  /\ data (fst (handle E r w)) = NoData
  /\ snd (handle E r w) = w.
Proof.
  destruct r as [c|c|c|c|c|c|c]; cbn [handle request_header]; intro Hno;
    apply authenticated_rejects; exact Hno.
Qed.

Lemma unauthenticated_rejected_witness :
  let r := ResolveIssue (request "mallory-secret" (js "i1")) in
  no_active_key (envOf (Ok [])) (db (world db1)) (request_header r)
  /\ status (fst (handle (envOf (Ok [])) r (world db1)))
     = HttpStatusCodes.UNAUTHORIZED
  /\ snd (handle (envOf (Ok [])) r (world db1)) = world db1.
Proof.
  intro r.
  assert (Hno : no_active_key (envOf (Ok [])) (db (world db1))
                              (request_header r)).
  { intros apiKey row Hh _ Hin Hk. cbn in Hh. inversion Hh; subst apiKey.
    cbn in Hin. destruct Hin as [<-|[<-|[]]]; discriminate Hk. }
  split; [exact Hno|].
  destruct (unauthenticated_rejected (envOf (Ok [])) r (world db1) Hno)
    as (H1 & _ & _ & H2).
  split; assumption.
Defined.

(** ** The score as a function of the findings *)

Lemma countSeverity_perm (s : jsstring) (vs vs' : list Vuln.t) :
  Permutation vs vs' -> countSeverity s vs = countSeverity s vs'.
Proof.
  unfold countSeverity. induction 1; simpl.
  - reflexivity.
  - destruct (JsString.eqb _ _); simpl; now rewrite IHPermutation.
  - destruct (JsString.eqb (Vuln.severity x) s),
             (JsString.eqb (Vuln.severity y) s); reflexivity.
  - congruence.
Qed.

Lemma num_add (a b : nat) : num (a + b) == num a + num b.
Proof. unfold num. rewrite Nat2Z.inj_add, inject_Z_plus. reflexivity. Qed.

Lemma penalty_cons (v : Vuln.t) (vs : list Vuln.t) :
  penalty (v :: vs) == weight v + penalty vs.
Proof.
  unfold penalty, weight, issueCounts. cbn [critical high medium low].
  rewrite 4 (countSeverity_cons _ v vs), !num_add. ring.
Qed.

Lemma weight_bounds (v : Vuln.t) : 0 <= weight v /\ weight v <= 3.
Proof.
  unfold weight, countSeverity. cbn [filter].
  destruct (JsString.eqb (Vuln.severity v) (js "critical")) eqn:E1.
  - apply jseqb_eq in E1. rewrite E1. cbn. split; discriminate.
  - destruct (JsString.eqb (Vuln.severity v) (js "high")) eqn:E2.
    + apply jseqb_eq in E2. rewrite E2. cbn. split; discriminate.
    + destruct (JsString.eqb (Vuln.severity v) (js "medium")) eqn:E3.
      * apply jseqb_eq in E3. rewrite E3. cbn. split; discriminate.
      * destruct (JsString.eqb (Vuln.severity v) (js "low")) eqn:E4;
          cbn; split; discriminate.
Qed.

Lemma penalty_nonneg (vs : list Vuln.t) : 0 <= penalty vs.
Proof.
  induction vs as [|v vs IH].
  - cbn. discriminate.
  - rewrite penalty_cons. pose proof (weight_bounds v). lra.
Qed.

Lemma overallScore_penalty (vs : list Vuln.t) :
  overallScore vs == Qmax 0 (10 - penalty vs).
Proof.
  unfold overallScore. fold (penalty vs).
  destruct vs as [|v vs]; [reflexivity|]. reflexivity.
Qed.

(** X6. The score depends on the findings only through how many there
    are of each severity: reordering them leaves it as it is.  One more
    finding, wherever it is put, never raises the score and lowers it by
    at most three. *)
Theorem overallScore_monotone (v : Vuln.t) (vs vs' : list Vuln.t) :
  Permutation vs vs' ->
  overallScore vs = overallScore vs'
  /\ overallScore (v :: vs') <= overallScore vs
  /\ overallScore vs - 3 <= overallScore (v :: vs').
Proof.
  intro Hp.
  assert (He : overallScore vs = overallScore vs').
  { unfold overallScore, issueCounts. rewrite (Permutation_length Hp).
    now rewrite !(countSeverity_perm _ vs vs' Hp). }
  split; [exact He|]. rewrite He.
  rewrite !overallScore_penalty, penalty_cons.
  pose proof (weight_bounds v) as [H0 H3].
  destruct (Q.max_spec 0 (10 - (weight v + penalty vs'))) as [[? ->]|[? ->]];
    destruct (Q.max_spec 0 (10 - penalty vs')) as [[? ->]|[? ->]];
    split; lra.
Qed.

Lemma overallScore_monotone_witness :
  Permutation [sample_vuln "high"; sample_vuln "low"]
              [sample_vuln "low"; sample_vuln "high"]
  /\ overallScore [sample_vuln "critical"; sample_vuln "low";
                   sample_vuln "high"]
     <= overallScore [sample_vuln "high"; sample_vuln "low"].
Proof.
  split; [apply perm_swap|].
  apply (overallScore_monotone (sample_vuln "critical")
           [sample_vuln "high"; sample_vuln "low"]
           [sample_vuln "low"; sample_vuln "high"]).
  apply perm_swap.
Defined.

(** ** What a match looks like *)

Lemma star_greedy_Some {A} (p : N -> bool) (s : jsstring)
      (k : jsstring -> option A) (x : A) :
  Regex.star_greedy p s k = Some x ->
  exists s1 s2, s = s1 ++ s2 /\ Forall (fun c => p c = true) s1
                /\ k s2 = Some x.
Proof.
  induction s as [|c s IH]; simpl; intro H.
  - exists [], []. repeat split; [constructor | assumption].
  - destruct (p c) eqn:Hc.
    + destruct (Regex.star_greedy p s k) as [y|] eqn:Es.
      * inversion H; subst y.
        destruct (IH eq_refl) as (s1 & s2 & -> & Hs1 & Hk).
        exists (c :: s1), s2. repeat split; [now constructor | assumption].
      * exists [], (c :: s). repeat split; [constructor | assumption].
    + exists [], (c :: s). repeat split; [constructor | assumption].
Qed.

Lemma star_lazy_Some {A} (p : N -> bool) (s : jsstring)
      (k : jsstring -> option A) (x : A) :
  Regex.star_lazy p s k = Some x ->
  exists s1 s2, s = s1 ++ s2 /\ Forall (fun c => p c = true) s1
                /\ k s2 = Some x.
Proof.
  induction s as [|c s IH]; cbn [Regex.star_lazy]; intro H.
  - destruct (k []) eqn:Ek; [|discriminate H].
    exists [], []. repeat split; [constructor | congruence].
  - destruct (k (c :: s)) eqn:Ek.
    + exists [], (c :: s). repeat split; [constructor | congruence].
    + destruct (p c) eqn:Hc; [|discriminate H].
      destruct (IH H) as (s1 & s2 & -> & Hs1 & Hk).
      exists (c :: s1), s2. repeat split; [now constructor | assumption].
Qed.

(** A greedy repetition finds a match whenever the continuation has
    one at some point it may stop at. *)
Lemma star_greedy_finds {A} (p : N -> bool) (s1 s2 : jsstring)
      (k : jsstring -> option A) (x : A) :
  Forall (fun c => p c = true) s1 -> k s2 = Some x ->
  exists y, Regex.star_greedy p (s1 ++ s2) k = Some y.
Proof.
  intros Hs1 Hk. induction Hs1 as [|c s1 Hc _ IH].
  - simpl. destruct s2 as [|c s2]; simpl; [eauto|].
    destruct (p c); [|eauto].
    destruct (Regex.star_greedy p s2 k); eauto.
  - simpl. rewrite Hc. destruct IH as (y & ->). eauto.
Qed.

Lemma run_lit1_Some {A} (c : N) (s : jsstring) (cap : option jsstring)
      (k : jsstring -> option jsstring -> option A) (x : A) :
  Regex.run (Regex.lit1 c) s cap k = Some x ->
  exists s', s = c :: s' /\ k s' cap = Some x.
Proof.
  unfold Regex.lit1. cbn [Regex.run]. destruct s as [|y s]; [discriminate|].
  destruct (N.eqb c y) eqn:E; [|discriminate].
  apply N.eqb_eq in E. subst y. eauto.
Qed.

Lemma run_lit_Some {A} (l s : jsstring) (cap : option jsstring)
      (k : jsstring -> option jsstring -> option A) (x : A) :
  Regex.run (Regex.lit l) s cap k = Some x ->
  exists s', s = l ++ s' /\ k s' cap = Some x.
Proof.
  revert s. induction l as [|c l IH]; intros s H.
  - exists s. now split.
  - cbn [Regex.lit] in H. rewrite run_seq in H.
    apply run_lit1_Some in H as (s1 & -> & H).
    apply IH in H as (s' & -> & H). exists s'. now split.
Qed.

Lemma str_match_Some (r : Regex.t) (s : jsstring) (m : Regex.result) :
  Regex.str_match r s = Some m ->
  exists pre b, s = pre ++ b /\ Regex.exec_at r b = Some m.
Proof.
  induction s as [|c s IH]; cbn [Regex.str_match]; intro H.
  - destruct (Regex.exec_at r []) eqn:E; [|discriminate H].
    exists [], []. split; [reflexivity | congruence].
  - destruct (Regex.exec_at r (c :: s)) eqn:E.
    + exists [], (c :: s). split; [reflexivity | congruence].
    + destruct (IH H) as (pre & b & -> & Hb). exists (c :: pre), b.
      now split.
Qed.

Lemma str_match_finds (r : Regex.t) (pre b : jsstring) (m : Regex.result) :
  Regex.exec_at r b = Some m ->
  exists m', Regex.str_match r (pre ++ b) = Some m'.
Proof.
  intro H. induction pre as [|c pre IH].
  - exists m. now apply str_match_here.
  - change ((c :: pre) ++ b) with (c :: (pre ++ b)).
    cbn [Regex.str_match]. destruct (Regex.exec_at r (c :: pre ++ b)); eauto.
Qed.

(** A match of the fallback pattern starts with an opening brace and
    ends with a closing one. *)
Lemma jsonRegex_Some (b : jsstring) (m : Regex.result) :
  Regex.exec_at jsonRegex b = Some m ->
  exists mid post, b = c_lbrace :: mid ++ c_rbrace :: post
                   /\ Regex.whole m = c_lbrace :: mid ++ [c_rbrace].
Proof.
  unfold Regex.exec_at, jsonRegex. rewrite run_seq. intro H.
  apply run_lit1_Some in H as (s1 & -> & H).
  rewrite run_seq in H. cbn [Regex.run] in H.
  apply star_greedy_Some in H as (mid & s2 & -> & _ & H).
  fold (Regex.lit1 c_rbrace) in H.
  change (match s2 with
          | [] => None
          | c :: s' => if N.eqb c_rbrace c then ?[k] else None
          end) with (Regex.run (Regex.lit1 c_rbrace) s2 None
                       (fun s' cap => Some {| Regex.whole :=
                          firstn (List.length (c_lbrace :: mid ++ s2)
                                  - List.length s') (c_lbrace :: mid ++ s2);
                          Regex.group1 := cap |})) in H.
  apply run_lit1_Some in H as (post & -> & H).
  exists mid, post. split; [reflexivity|].
  injection H as <-. cbn [Regex.whole].
  replace (c_lbrace :: mid ++ c_rbrace :: post)
    with ((c_lbrace :: mid ++ [c_rbrace]) ++ post)
    by (simpl; now rewrite <- app_assoc).
  etransitivity;
    [|apply (firstn_app_exact (c_lbrace :: mid ++ [c_rbrace]) post)].
  f_equal. rewrite !length_app. cbn [List.length]. rewrite !length_app.
  cbn [List.length]. destruct (List.length post); lia.
Qed.

Lemma run_opt_Some {A} (r : Regex.t) (s : jsstring) (cap : option jsstring)
      (k : jsstring -> option jsstring -> option A) (x : A) :
  Regex.run (Regex.Opt r) s cap k = Some x ->
  Regex.run r s cap k = Some x \/ k s cap = Some x.
Proof.
  cbn [Regex.run]. destruct (Regex.run r s cap k); [now left | now right].
Qed.

Lemma run_star_Some {A} (greedy : bool) (p : N -> bool) (s : jsstring)
      (cap : option jsstring)
      (k : jsstring -> option jsstring -> option A) (x : A) :
  Regex.run (Regex.Star greedy p) s cap k = Some x ->
  exists s1 s2, s = s1 ++ s2 /\ Forall (fun c => p c = true) s1
                /\ k s2 cap = Some x.
Proof.
  destruct greedy; cbn [Regex.run]; intro H.
  - now apply star_greedy_Some in H.
  - now apply star_lazy_Some in H.
Qed.

Lemma run_group (r : Regex.t) {A} (s : jsstring) (cap : option jsstring)
      (k : jsstring -> option jsstring -> option A) :
  Regex.run (Regex.Group r) s cap k
  = Regex.run r s cap
      (fun s' _ => k s' (Some (firstn (List.length s - List.length s') s))).
Proof. reflexivity. Qed.

Lemma codeBlock_rest {A} (s2 : jsstring)
      (k : jsstring -> option jsstring -> option A) (x : A) :
  Regex.run
    (Regex.Seq (Regex.Star true Regex.is_space)
       (Regex.Seq
          (Regex.Group
             (Regex.Seq (Regex.lit1 c_lbrace)
                (Regex.Seq (Regex.Star false Regex.any)
                           (Regex.lit1 c_rbrace))))
          (Regex.Seq (Regex.Star true Regex.is_space)
                     (Regex.lit (js "```"))))) s2 None k = Some x ->
  exists ws1 mid ws2 post,
    s2 = ws1 ++ (c_lbrace :: mid ++ [c_rbrace]) ++ ws2 ++ fence ++ post
    /\ Forall (fun c => Regex.is_space c = true) ws1
    /\ Forall (fun c => Regex.is_space c = true) ws2
    /\ k post (Some (c_lbrace :: mid ++ [c_rbrace])) = Some x.
Proof.
  intro H.
  rewrite run_seq in H. apply run_star_Some in H as (ws1 & s3 & -> & Hws1 & H).
  rewrite run_seq, run_group, run_seq in H.
  apply run_lit1_Some in H as (s4 & -> & H).
  rewrite run_seq in H. apply run_star_Some in H as (mid & s5 & -> & _ & H).
  apply run_lit1_Some in H as (s6 & -> & H).
  rewrite run_seq in H. apply run_star_Some in H as (ws2 & s7 & -> & Hws2 & H).
  apply run_lit_Some in H as (post & -> & H).
  exists ws1, mid, ws2, post.
  split; [|repeat split; try assumption].
  - unfold fence. now rewrite <- !app_comm_cons, <- !app_assoc.
  - rewrite <- H. do 2 f_equal.
    replace (c_lbrace :: mid ++ c_rbrace :: ws2 ++ js "```" ++ post)
      with ((c_lbrace :: mid ++ [c_rbrace]) ++ ws2 ++ js "```" ++ post)
      by (simpl; now rewrite <- app_assoc).
    symmetry. apply firstn_app_exact.
Qed.

(** A match of the fenced pattern: the fence, an optional tag, white
    space, a group from an opening to a closing brace, white space, the
    fence.  The capture is the group. *)
Lemma codeBlockRegex_Some (b : jsstring) (m : Regex.result) :
  Regex.exec_at codeBlockRegex b = Some m ->
  exists tag ws1 mid ws2 post,
    b = fence ++ tag ++ ws1 ++ (c_lbrace :: mid ++ [c_rbrace]) ++ ws2
        ++ fence ++ post
    /\ (tag = [] \/ tag = js "json")
    /\ Forall (fun c => Regex.is_space c = true) ws1
    /\ Forall (fun c => Regex.is_space c = true) ws2
    /\ Regex.group1 m = Some (c_lbrace :: mid ++ [c_rbrace]).
Proof.
  unfold Regex.exec_at, codeBlockRegex. intro H.
  rewrite run_seq in H. apply run_lit_Some in H as (s1 & -> & H).
  rewrite run_seq in H. apply run_opt_Some in H as [H|H].
  - apply run_lit_Some in H as (s2 & -> & H).
    apply codeBlock_rest in H as (ws1 & mid & ws2 & post & -> & H1 & H2 & H).
    exists (js "json"), ws1, mid, ws2, post.
    injection H as <-. repeat split; try assumption. now right.
  - apply codeBlock_rest in H as (ws1 & mid & ws2 & post & -> & H1 & H2 & H).
    exists [], ws1, mid, ws2, post.
    injection H as <-. repeat split; try assumption. now left.
Qed.

(** X7. The candidate [analyzeCode] reads out of an answer is a part of
    the answer that starts with an opening brace and ends with a closing
    one.  It is empty exactly when no opening brace of the answer has a
    closing brace after it. *)
Theorem candidate_shape (text : jsstring) :
  (extractJsonText text = []
   /\ forall a b, text = a ++ c_lbrace :: b -> ~ In c_rbrace b)
  \/ exists pre mid post,
       text = pre ++ (c_lbrace :: mid ++ [c_rbrace]) ++ post
       /\ extractJsonText text = c_lbrace :: mid ++ [c_rbrace].
Proof.
  unfold extractJsonText.
  destruct (Regex.str_match codeBlockRegex text) as [m|] eqn:Ec.
  - right. apply str_match_Some in Ec as (pre & b & -> & Hb).
    apply codeBlockRegex_Some in Hb
      as (tag & ws1 & mid & ws2 & post & -> & _ & _ & _ & ->).
    exists (pre ++ fence ++ tag ++ ws1), mid, (ws2 ++ fence ++ post).
    split; [|reflexivity]. now rewrite <- !app_assoc.
  - destruct (Regex.str_match jsonRegex text) as [m|] eqn:Ej.
    + right. apply str_match_Some in Ej as (pre & b & -> & Hb).
      apply jsonRegex_Some in Hb as (mid & post & -> & ->).
      exists pre, mid, post. split; [|reflexivity].
      simpl. now rewrite <- app_assoc.
    + left. split; [reflexivity|]. intros a b -> Hin.
      apply in_split in Hin as (mid & post & ->).
      assert (Hex : exists y, Regex.exec_at jsonRegex
                      (c_lbrace :: mid ++ c_rbrace :: post) = Some y).
      { unfold Regex.exec_at, jsonRegex. rewrite run_seq.
        unfold Regex.lit1 at 1. cbn [Regex.run]. rewrite N.eqb_refl.
        eapply star_greedy_finds; [apply Forall_any|].
        cbn. reflexivity. }
      destruct Hex as (y & Hy).
      destruct (str_match_finds jsonRegex a _ y Hy) as (m' & Hm').
      rewrite Hm' in Ej. discriminate Ej.
Qed.

(** ** What [analyzeCode] lets through *)

Lemma string_min_length (n : nat) (v : option Json.value) (s : jsstring) :
  Zod.string_min n v = Ok s -> (n <= List.length s)%nat.
Proof.
  unfold Zod.string_min. intro H. apply rbind_Ok in H as (s' & _ & H).
  destruct (n <=? List.length s')%nat eqn:E; [|discriminate H].
  inversion H; subst. now apply Nat.leb_le.
Qed.

Lemma optional_range (lo hi : Q) (v : option Json.value) (o : option Q) :
  Zod.optional (Zod.number_min_max lo hi) v = Ok o ->
  match o with Some x => lo <= x /\ x <= hi | None => True end.
Proof.
  unfold Zod.optional. destruct v as [j|]; [|intros [= <-]; exact I].
  intro H. apply rbind_Ok in H as (x & Hx & H). inversion H; subst o.
  unfold Zod.number_min_max in Hx. apply rbind_Ok in Hx as (y & _ & Hx).
  destruct (Qle_bool lo y && Qle_bool y hi)%bool eqn:E; [|discriminate Hx].
  inversion Hx; subst y. apply andb_true_iff in E as [E1 E2].
  split; now apply Qle_bool_iff.
Qed.

Lemma entry_within_schema (x : option Json.value) (v : Vuln.t) :
  VulnerabilityEntrySchema x = Ok v -> within_schema v.
Proof.
  unfold VulnerabilityEntrySchema, Zod.object.
  destruct x as [[| | | | |o]|]; try discriminate.
  intro H.
  apply rbind_Ok in H as (sev & Hsev & H).
  apply rbind_Ok in H as (ty & Hty & H).
  apply rbind_Ok in H as (cat & Hcat & H).
  apply rbind_Ok in H as (fp & Hfp & H).
  apply rbind_Ok in H as (ln & _ & H).
  apply rbind_Ok in H as (cs & _ & H).
  apply rbind_Ok in H as (de & Hde & H).
  apply rbind_Ok in H as (re & Hre & H).
  apply rbind_Ok in H as (co & Hco & H).
  inversion H; subst v. unfold within_schema.
  cbn [Vuln.severity Vuln.type Vuln.category Vuln.filePath Vuln.description
       Vuln.recommendation Vuln.confidenceScore].
  repeat split.
  - eapply enum_Ok; eassumption.
  - eapply string_min_length; eassumption.
  - eapply string_min_length; eassumption.
  - eapply string_min_length; eassumption.
  - eapply string_min_length; eassumption.
  - eapply string_min_length; eassumption.
  - eapply optional_range; eassumption.
Qed.

Lemma schema_within (v : Json.value) (vs : list Vuln.t) :
  VulnerabilityDetectionSchema v = Ok vs -> Forall within_schema vs.
Proof.
  unfold VulnerabilityDetectionSchema, Zod.object, Zod.array.
  destruct v; try discriminate.
  destruct (Json.get _ _) as [[| | | |l|]|]; try discriminate.
  apply all_Forall. apply entry_within_schema.
Qed.

(** What [analyzeCode] gives, by cases on how far it gets. *)
Lemma analyzeCode_cases (E : Env) (content projectName : jsstring) :
  analyzeCode E content projectName = Ok []
  \/ exists text v vs,
       prompt_answer E content projectName = Ok text
       /\ Json.parse (extractJsonText text) = Ok v
       /\ VulnerabilityDetectionSchema v = Ok vs
       /\ analyzeCode E content projectName = Ok vs.
Proof.
  destruct (prompt_answer E content projectName) as [text|e] eqn:Ea.
  2:{ left. unfold analyzeCode. unfold prompt_answer in Ea. now rewrite Ea. }
  destruct text as [|c text].
  { left. unfold analyzeCode. unfold prompt_answer in Ea. now rewrite Ea. }
  destruct (extractJsonText (c :: text)) as [|c' cand] eqn:Ec.
  { left. now apply (analyzeCode_no_candidate E content projectName (c :: text)). }
  destruct (Json.parse (c' :: cand)) as [v|e] eqn:Ep.
  2:{ left. apply (analyzeCode_parse_error E content projectName (c :: text) e);
        [assumption | now rewrite Ec]. }
  destruct (VulnerabilityDetectionSchema v) as [vs|e] eqn:Es.
  2:{ left. apply (analyzeCode_schema_error E content projectName
                     (c :: text) v e); [assumption | now rewrite Ec | assumption]. }
  right. exists (c :: text), v, vs. rewrite Ec.
  repeat split; try assumption.
  apply (analyzeCode_valid E content projectName (c :: text) v vs);
    try assumption; try discriminate; now rewrite Ec.
Qed.

Lemma analyzeCode_within (E : Env) (content projectName : jsstring)
      (vs : list Vuln.t) :
  analyzeCode E content projectName = Ok vs -> Forall within_schema vs.
Proof.
  destruct (analyzeCode_cases E content projectName)
    as [->|(text & v & vs' & _ & _ & Hs & ->)]; intros [= <-].
  - constructor.
  - now apply schema_within in Hs.
Qed.

(** X8. [analyzeCode] never throws.  What it returns is either the
    empty list or exactly the list the schema let through for the
    candidate of the answer; the entries are handed on as validated (the
    replacement path for an empty [filePath] changes none), so each one
    is within the bounds of the schema. *)
Theorem analyzeCode_findings (E : Env) (content projectName : jsstring) :
  exists vs,
    analyzeCode E content projectName = Ok vs
    /\ Forall within_schema vs
    /\ (vs = []
        \/ exists text v,
             generateContent E (userPrompt E content projectName) = Ok text
             /\ Json.parse (extractJsonText text) = Ok v
             /\ VulnerabilityDetectionSchema v = Ok vs).
Proof.
  destruct (analyzeCode_cases E content projectName)
    as [H|(text & v & vs & Ha & Hp & Hs & H)].
  - exists []. repeat split; [assumption | constructor | now left].
  - exists vs. repeat split; [assumption | now apply schema_within in Hs|].
    right. now exists text, v.
Qed.

(** ** A run of [startAnalysis], step by step *)

Lemma storeIssues_Ok (E : Env) (sid : jsstring) (vs : list Vuln.t)
      (stored : list SecurityIssue.t) (w : World) :
  exists out w2, storeIssues E sid vs stored w = (Ok out, w2).
Proof.
  destruct (storeIssues_effect E sid vs stored w) as (new & H & _).
  destruct (storeIssues E sid vs stored w) as [[out|e] w2]; cbn [fst] in H;
    [eauto | discriminate H].
Qed.

Lemma startAnalysis_completed (E : Env) (c : Context jsstring) (w : World)
      (apiKeyId : jsstring) :
  principal E (db w) c apiKeyId ->
  verifyProjectOwnership (db w) (valid c) apiKeyId = true ->
  fresh_session_id E w ->
  exists project vs stored w2,
    completed E c w (startAnalysis E c w) apiKeyId project vs stored w2.
Proof.
  intros Hp Ho Hfresh.
  destruct (owned_project_found _ _ _ Ho) as (project & Hget & Hin & Hid).
  destruct (analyzeCode_total E (Project.content project)
                              (Project.name project)) as (vs & Hvs).
  destruct (storeIssues_Ok E (sessionIdOf E w) vs []
              (afterSession w (sessionRowOf E w (valid c) vs)))
    as (stored & w2 & Hst).
  exists project, vs, stored, w2.
  repeat (split; [assumption|]).
  assert (Hex : existsb (fun s => JsString.eqb (AnalysisSession.id s)
                                    (sessionIdOf E w))
                        (analysisSessionsTable (db w)) = false).
  { apply existsb_false_iff. intros s Hs. apply jseqb_neq. now apply Hfresh. }
  destruct Hp as (apiKey & Hk & Hf & Hv).
  unfold startAnalysis, catch_all, authenticated.
  rewrite Hk, Hf. run_step. rewrite Hv, Ho. cbn [negb]. rewrite Hget.
  run_step. rewrite Hvs.
  unfold sessionRowOf, sessionIdOf, afterSession in *.
  cbn [AnalysisSession.id sessionRow]. rewrite Hex. run_step.
  rewrite Hst. reflexivity.
Qed.

Lemma startAnalysis_cases (E : Env) (c : Context jsstring) (w : World) :
  refused w (startAnalysis E c w)
  \/ exists apiKeyId project vs stored w2,
       completed E c w (startAnalysis E c w) apiKeyId project vs stored w2.
Proof.
  unfold refused.
  destruct (getApiKeyFromHeader c) as [apiKey|] eqn:Hk.
  2:{ left. unfold startAnalysis, catch_all, authenticated. rewrite Hk.
      simpl. repeat split. pick_status. }
  destruct (JsString.falsy apiKey) eqn:Hf.
  { left. unfold startAnalysis, catch_all, authenticated. rewrite Hk, Hf.
    simpl. repeat split. pick_status. }
  destruct (validateApiKey E (db w) apiKey) as [apiKeyId|] eqn:Hv.
  2:{ left. unfold startAnalysis, catch_all, authenticated. rewrite Hk, Hf.
      run_step. rewrite Hv. simpl. repeat split. pick_status. }
  destruct (verifyProjectOwnership (db w) (valid c) apiKeyId) eqn:Ho.
  2:{ left. unfold startAnalysis, catch_all, authenticated. rewrite Hk, Hf.
      run_step. rewrite Hv, Ho. simpl. repeat split. pick_status. }
  destruct (existsb (fun s => JsString.eqb (AnalysisSession.id s)
                                (sessionIdOf E w))
                    (analysisSessionsTable (db w))) eqn:Hex.
  - left.
    destruct (owned_project_found _ _ _ Ho) as (project & Hget & Hin & Hid).
    destruct (analyzeCode_total E (Project.content project)
                                (Project.name project)) as (vs & Hvs).
    unfold startAnalysis, catch_all, authenticated.
    rewrite Hk, Hf. run_step. rewrite Hv, Ho. cbn [negb]. rewrite Hget.
    run_step. rewrite Hvs. unfold sessionIdOf in Hex.
    cbn [AnalysisSession.id sessionRow]. rewrite Hex. run_step.
    repeat split. pick_status.
  - right. exists apiKeyId.
    apply startAnalysis_completed; [now exists apiKey | assumption |].
    intros s Hs. apply jseqb_neq.
    rewrite existsb_false_iff in Hex. now apply Hex.
Qed.

Lemma afterStore_nil (w : World) : afterStore w 0 [] = w.
Proof.
  destruct w as [[a p s i] u k]. unfold afterStore. cbn.
  now rewrite app_nil_r, !Nat.add_0_r.
Qed.

Lemma afterStore_step (w : World) (n : nat) (row : SecurityIssue.t)
      (new : list SecurityIssue.t) (skip : bool) :
  afterStore
    {| db := {| apiKeysTable := apiKeysTable (db w);
                projectsTable := projectsTable (db w);
                analysisSessionsTable := analysisSessionsTable (db w);
                securityIssuesTable :=
                  securityIssuesTable (db w) ++ (if skip then [] else [row]) |};
       uuid_calls := S (uuid_calls w);
       clock_calls := S (clock_calls w) |} n new
  = afterStore w (S n) ((if skip then [] else [row]) ++ new).
Proof.
  unfold afterStore. cbn. now rewrite <- app_assoc, !Nat.add_succ_r.
Qed.

Lemma storeIssues_shape (E : Env) (sid : jsstring) (vs : list Vuln.t) :
  forall stored w, exists new,
    storeIssues E sid vs stored w
    = (Ok (stored ++ new), afterStore w (List.length vs) new)
    /\ (List.length new <= List.length vs)%nat
    /\ Forall (stored_from sid vs) new.
Proof.
  induction vs as [|v vs IH]; intros stored w.
  - exists []. cbn [storeIssues List.length]. rewrite afterStore_nil, app_nil_r.
    repeat split; constructor.
  - cbn [storeIssues]. run_step.
    match goal with |- context [existsb ?f ?l] =>
      destruct (existsb f l) eqn:Ex end; run_step.
    + match goal with |- context [storeIssues E sid vs stored ?w1] =>
        destruct (IH stored w1) as (new & H1 & H2 & H3) end.
      exists new. rewrite H1. split; [|split].
      * f_equal.
        pose proof (afterStore_step w (List.length vs)
                      (issueRow [] sid v 0) new true) as Hs.
        cbn [app] in Hs. rewrite app_nil_r in Hs.
        destruct w as [[a p s i] u k]. exact Hs.
      * cbn [List.length]. lia.
      * eapply Forall_impl; [|exact H3]. intros; now apply stored_from_cons.
    + match goal with |- context [storeIssues E sid vs ?st ?w1] =>
        destruct (IH st w1) as (new & H1 & H2 & H3) end.
      match type of H1 with context [issueRow ?a sid v ?b] =>
        exists (issueRow a sid v b :: new);
        pose proof (afterStore_step w (List.length vs)
                      (issueRow a sid v b) new false) as Hs
      end.
      rewrite H1. rewrite <- app_assoc. split; [|split].
      * f_equal. exact Hs.
      * cbn [List.length]. lia.
      * constructor.
        -- eexists v, _, _. split; [now left | reflexivity].
        -- eapply Forall_impl; [|exact H3].
           intros; now apply stored_from_cons.
Qed.

Lemma NoDup_map_seq {A} (f : nat -> A) (from n : nat) :
  (forall a b, f a = f b -> a = b) -> NoDup (map f (seq from n)).
Proof.
  intro Hinj. revert from. induction n as [|n IH]; intro from; cbn [seq map].
  - constructor.
  - constructor; [|apply IH]. intro Hin.
    apply in_map_iff in Hin as (k & Hk & Hin). apply Hinj in Hk. subst k.
    apply in_seq in Hin. lia.
Qed.

Lemma fresh_ids_step (E : Env) (taken : list SecurityIssue.t) (from n : nat)
      (row : SecurityIssue.t) :
  fresh_ids E taken from (S n) ->
  SecurityIssue.id row = randomUUID E from ->
  fresh_ids E (taken ++ [row]) (S from) n.
Proof.
  intros [Hnd Hout] Hid. cbn [seq map] in Hnd.
  apply NoDup_cons_iff in Hnd as [Hhd Hnd]. split; [assumption|].
  intros k i Hk Hin. apply in_app_or in Hin as [Hin|[<-|[]]].
  - apply Hout; [lia | assumption].
  - rewrite Hid. intro Heq. apply Hhd. rewrite Heq.
    apply in_map. apply in_seq. lia.
Qed.

Lemma storeIssues_fresh (E : Env) (sid : jsstring) (vs : list Vuln.t) :
  forall stored w,
    fresh_ids E (securityIssuesTable (db w)) (uuid_calls w) (List.length vs) ->
    exists new,
      storeIssues E sid vs stored w
      = (Ok (stored ++ new), afterStore w (List.length vs) new)
      /\ Forall2 (stored_as sid) vs new.
Proof.
  induction vs as [|v vs IH]; intros stored w Hfresh.
  - exists []. cbn [storeIssues List.length]. rewrite afterStore_nil, app_nil_r.
    split; [reflexivity | constructor].
  - cbn [storeIssues]. run_step.
    match goal with |- context [existsb ?f ?l] =>
      assert (Ex : existsb f l = false) end.
    { apply existsb_false_iff. intros i Hi. apply jseqb_neq.
      cbn [SecurityIssue.id issueRow]. destruct Hfresh as [_ Hout].
      apply Hout; [cbn [List.length]; lia | assumption]. }
    rewrite Ex. run_step.
    match goal with |- context [storeIssues E sid vs ?st ?w1] =>
      destruct (IH st w1) as (new & H1 & H2) end.
    { cbn [db securityIssuesTable uuid_calls].
      apply fresh_ids_step; [exact Hfresh | reflexivity]. }
    match type of H1 with context [issueRow ?a sid v ?b] =>
      exists (issueRow a sid v b :: new);
      pose proof (afterStore_step w (List.length vs)
                    (issueRow a sid v b) new false) as Hs
    end.
    rewrite H1. rewrite <- app_assoc. split.
    + f_equal. exact Hs.
    + constructor; [|assumption]. eexists _, _. reflexivity.
Qed.

(** ** What a run of [startAnalysis] leaves behind *)

Lemma or_number_range (o : option Q) :
  match o with Some x => 0 <= x /\ x <= 1 | None => True end ->
  0 < or_number o (8 # 10) /\ or_number o (8 # 10) <= 1.
Proof.
  unfold or_number. destruct o as [x|]; [|intros _; split; lra].
  intros [H0 H1]. destruct (Qeq_bool x 0) eqn:E.
  - split; lra.
  - split; [|assumption]. apply Qeq_bool_neq in E.
    apply Qle_lteq in H0 as [H0|H0]; [assumption|].
    exfalso. apply E. now symmetry.
Qed.

Lemma stored_from_newly (sid : jsstring) (vs : list Vuln.t)
      (i : SecurityIssue.t) :
  Forall within_schema vs -> stored_from sid vs i -> newly_stored sid i.
Proof.
  intros Hvs (v & issueId & createdAt & Hin & ->).
  rewrite Forall_forall in Hvs. destruct (Hvs v Hin) as (Hsev & _ & _ & _ & _ & _ & Hc).
  unfold newly_stored.
  cbn [issueRow SecurityIssue.analysisSessionId SecurityIssue.resolved
       SecurityIssue.falsePositive SecurityIssue.severity
       SecurityIssue.confidenceScore].
  repeat split; try assumption.
  exists (or_number (Vuln.confidenceScore v) (8 # 10)).
  split; [reflexivity|]. now apply or_number_range.
Qed.

(** What a completed run wrote, read off its steps. *)
Lemma completed_world (E : Env) (c : Context jsstring) (w : World)
      (r : Response * World) apiKeyId project vs stored w2 :
  completed E c w r apiKeyId project vs stored w2 ->
  w2 = afterStore (afterSession w (sessionRowOf E w (valid c) vs))
                  (List.length vs) stored
  /\ (List.length stored <= List.length vs)%nat
  /\ Forall (stored_from (sessionIdOf E w) vs) stored
  /\ In project (projectsTable (db w)) /\ Project.id project = valid c.
Proof.
  intros (_ & _ & _ & Hget & _ & Hst & _).
  destruct (storeIssues_shape E (sessionIdOf E w) vs []
              (afterSession w (sessionRowOf E w (valid c) vs)))
    as (new & H1 & H2 & H3).
  rewrite Hst in H1. cbn [app] in H1. inversion H1; subst.
  repeat split; try assumption.
  - apply get_where_Some in Hget. tauto.
  - apply get_where_Some in Hget as [_ Hc]. now apply jseqb_eq.
Qed.

(** X9. [startAnalysis] writes only when it answers 201.  A refused or
    failed run answers 401, 404 or 500 without data and leaves the store
    as it was.  A run that answers 201 adds exactly one session, for the
    requested project and completed, and the findings of the answer, of
    which there are at most [totalIssues]; each points at the new
    session, is open, has a severity of the enum and a confidence above
    zero and at most one.  The keys are never touched. *)
Theorem startAnalysis_outcome (E : Env) (c : Context jsstring) (w : World) :
  refused w (startAnalysis E c w)
  \/ exists s new,
       fst (startAnalysis E c w)
       = successResponse [] (AnalysisResults s new)
           (js "Analysis completed successfully") HttpStatusCodes.CREATED
       /\ AnalysisSession.projectId s = valid c
       /\ AnalysisSession.status s = js "completed"
       /\ apiKeysTable (db (snd (startAnalysis E c w))) = apiKeysTable (db w)
       /\ sessions (snd (startAnalysis E c w)) = sessions w ++ [s]
       /\ issues (snd (startAnalysis E c w)) = issues w ++ new
       /\ (List.length new <= AnalysisSession.totalIssues s)%nat
       /\ Forall (newly_stored (AnalysisSession.id s)) new.
Proof.
  destruct (startAnalysis_cases E c w)
    as [H|(kid & project & vs & stored & w2 & H)]; [now left | right].
  destruct (completed_world _ _ _ _ _ _ _ _ _ H) as (-> & Hlen & Hfrom & _).
  destruct H as (_ & _ & _ & _ & Hvs & _ & ->).
  exists (sessionRowOf E w (valid c) vs), stored.
  repeat split; try assumption.
  apply analyzeCode_within in Hvs.
  eapply Forall_impl; [|exact Hfrom]. intro i. now apply stored_from_newly.
Qed.



(** X11. A run of [startAnalysis] that answers 201 stamps
    [lastAnalyzedAt] and [updatedAt] on the project with the requested
    id; no other column and no other project changes.  Any other run
    leaves the projects as they were. *)
Theorem startAnalysis_projects (E : Env) (c : Context jsstring) (w : World) :
  refused w (startAnalysis E c w)
  \/ exists lastAnalyzedAt updatedAt,
       status (fst (startAnalysis E c w)) = HttpStatusCodes.CREATED
       /\ projectsTable (db (snd (startAnalysis E c w)))
          = map (fun p => if JsString.eqb (Project.id p) (valid c)
                          then Project.touch lastAnalyzedAt updatedAt p
                          else p)
                (projectsTable (db w)).
Proof.
  destruct (startAnalysis_cases E c w)
    as [H|(kid & project & vs & stored & w2 & H)]; [now left | right].
  destruct (completed_world _ _ _ _ _ _ _ _ _ H) as (-> & _ & _ & _ & Hid).
  destruct H as (_ & _ & _ & _ & _ & _ & ->).
  eexists _, _. split; [reflexivity|].
  cbn [snd afterTouch db projectsTable afterStore afterSession].
  unfold Sql.update. cbn [fst]. now rewrite Hid.
Qed.

(** ** Reading back what a run wrote *)

Lemma leftJoin_app {A B} (l1 l2 : list A) (r : list B) (on : A -> B -> bool) :
  Sql.leftJoin (l1 ++ l2) r on = Sql.leftJoin l1 r on ++ Sql.leftJoin l2 r on.
Proof. unfold Sql.leftJoin. apply flat_map_app. Qed.

Lemma filter_none {A} (f : A -> bool) (l : list A) :
  (forall x, In x l -> f x = false) -> filter f l = [].
Proof.
  induction l as [|a l IH]; intro H; [reflexivity|]. simpl.
  rewrite (H a) by now left. apply IH. intros x Hx. apply H. now right.
Qed.

Lemma filter_all {A} (f : A -> bool) (l : list A) :
  (forall x, In x l -> f x = true) -> filter f l = l.
Proof.
  induction l as [|a l IH]; intro H; [reflexivity|]. simpl.
  rewrite (H a) by now left. f_equal. apply IH. intros x Hx. apply H.
  now right.
Qed.

(** The session query finds a session whose id no other session has,
    with the first project that has the id the session names. *)
Lemma selectSession_last (d : DB) (before : list AnalysisSession.t)
      (row : AnalysisSession.t) (p : Project.t) :
  analysisSessionsTable d = before ++ [row] ->
  (forall s, In s before -> AnalysisSession.id s <> AnalysisSession.id row) ->
  In p (projectsTable d) -> Project.id p = AnalysisSession.projectId row ->
  exists p1, selectSession d (AnalysisSession.id row) = Some (row, Some p1)
             /\ In p1 (projectsTable d)
             /\ Project.id p1 = AnalysisSession.projectId row.
Proof.
  intros Hs Hfresh Hp Hid.
  unfold selectSession, sessionRows, Sql.get, Sql.where_.
  rewrite Hs, leftJoin_app, filter_app.
  rewrite (filter_none _ (Sql.leftJoin before _ _)).
  2:{ intros [s op] Hin. apply In_leftJoin in Hin as [Hin _]. cbn [fst].
      apply jseqb_neq. now apply Hfresh. }
  cbn [app]. unfold Sql.leftJoin. cbn [flat_map]. rewrite app_nil_r.
  destruct (filter _ (projectsTable d)) as [|p1 ps] eqn:Ef.
  - exfalso.
    assert (Hin : In p (filter (fun p0 => JsString.eqb
                                  (AnalysisSession.projectId row)
                                  (Project.id p0)) (projectsTable d))).
    { apply filter_In. split; [assumption|]. rewrite Hid. apply jseqb_refl. }
    rewrite Ef in Hin. contradiction.
  - assert (Hin : In p1 (filter (fun p0 => JsString.eqb
                                   (AnalysisSession.projectId row)
                                   (Project.id p0)) (projectsTable d)))
      by (rewrite Ef; now left).
    apply filter_In in Hin as [Hin Hon]. apply jseqb_eq in Hon.
    exists p1. cbn [map filter fst]. rewrite jseqb_refl. cbn [hd_error].
    repeat split; [assumption | now symmetry].
Qed.

(** X12. What [startAnalysis] answers is what [getAnalysisResults] gives
    back: after an authorised run, the same caller asking for the new
    session gets the session row and the stored findings of the 201
    answer.  (The session id is new, no finding points at it yet, and the
    projects with the requested id are the caller's.) *)
Theorem start_then_get (E : Env) (c : Context jsstring) (w : World)
        (apiKeyId : jsstring) :
  principal E (db w) c apiKeyId ->
  owns_project (db w) apiKeyId (valid c) ->
  (forall p, In p (projectsTable (db w)) -> Project.id p = valid c ->
             Project.apiKeyId p = apiKeyId) ->
  fresh_session_id E w ->
  (forall i, In i (issues w) ->
             SecurityIssue.analysisSessionId i <> sessionIdOf E w) ->
  exists s new,
    fst (startAnalysis E c w)
    = successResponse [] (AnalysisResults s new)
        (js "Analysis completed successfully") HttpStatusCodes.CREATED
    /\ AnalysisSession.id s = sessionIdOf E w
    /\ fst (getAnalysisResults E
              {| authorization := authorization c;
                 valid := sessionIdOf E w |}
              (snd (startAnalysis E c w)))
       = successResponse [] (AnalysisResults s new)
           (js "Analysis results retrieved successfully") HttpStatusCodes.OK.
Proof.
  intros Hp Ho Huniq Hs Hnone.
  pose proof (owns_project_verified _ _ _ Ho) as Hv.
  destruct (startAnalysis_completed E c w apiKeyId Hp Hv Hs)
    as (project & vs & stored & w2 & H).
  destruct (completed_world _ _ _ _ _ _ _ _ _ H)
    as (-> & _ & Hfrom & Hin & Hid).
  destruct H as (_ & _ & _ & _ & _ & _ & ->).
  exists (sessionRowOf E w (valid c) vs), stored.
  split; [reflexivity|]. split; [reflexivity|].
  cbn [fst snd].
  set (w3 := afterTouch E project _).
  set (c' := {| authorization := authorization c; valid := sessionIdOf E w |}).
  assert (Hp' : principal E (db w3) c' apiKeyId).
  { destruct Hp as (apiKey & H1 & H2 & H3). exists apiKey.
    repeat split; assumption. }
  unfold getAnalysisResults, catch_all.
  rewrite (authenticated_principal E c' w3 apiKeyId _ Hp'). run_step.
  cbn [valid c'].
  set (row := sessionRowOf E w (valid c) vs).
  assert (Hprojects : exists a u,
             projectsTable (db w3)
             = map (fun p => if JsString.eqb (Project.id p) (Project.id project)
                             then Project.touch a u p else p)
                   (projectsTable (db w))).
  { eexists _, _. reflexivity. }
  destruct Hprojects as (a & u & Hprojects).
  destruct (selectSession_last (db w3) (analysisSessionsTable (db w)) row
              (if JsString.eqb (Project.id project) (Project.id project)
               then Project.touch a u project else project))
    as (p1 & Hsel & Hp1 & Hid1).
  - reflexivity.
  - exact Hs.
  - rewrite Hprojects. apply in_map_iff. now exists project.
  - rewrite jseqb_refl. exact Hid.
  - change (AnalysisSession.id row) with (sessionIdOf E w) in Hsel.
    rewrite Hsel. cbn [snd fst option_map].
    assert (Hk : Project.apiKeyId p1 = apiKeyId).
    { rewrite Hprojects in Hp1. apply in_map_iff in Hp1 as (p0 & <- & Hp0).
      cbn [AnalysisSession.projectId row sessionRowOf sessionRow] in Hid1.
      destruct (JsString.eqb (Project.id p0) (Project.id project));
        cbn [Project.touch Project.apiKeyId Project.id] in *;
        now apply Huniq. }
    unfold notOwner. cbn [Sql.eq_null]. rewrite Hk, jseqb_refl. cbn [negb].
    do 2 f_equal. unfold issuesOfSession, Sql.where_.
    change (securityIssuesTable (db w3)) with (issues w ++ stored).
    rewrite filter_app, filter_none, filter_all; [reflexivity | |].
    + intros i Hi. rewrite Forall_forall in Hfrom.
      destruct (Hfrom i Hi) as (v & x & y & _ & ->). apply jseqb_refl.
    + intros i Hi. apply jseqb_neq. now apply Hnone.
Qed.

Lemma start_then_get_witness :
  let E := envOf (Ok answer_two_findings) in
  let c := request "alice-secret" (js "p1") in
  let w := world db0 in
  principal E (db w) c (js "alice") /\
  owns_project (db w) (js "alice") (valid c) /\
  (forall p, In p (projectsTable (db w)) -> Project.id p = valid c ->
             Project.apiKeyId p = js "alice") /\
  fresh_session_id E w /\
  (forall i, In i (issues w) ->
             SecurityIssue.analysisSessionId i <> sessionIdOf E w) /\
  data (fst (getAnalysisResults E
               {| authorization := authorization c; valid := sessionIdOf E w |}
               (snd (startAnalysis E c w))))
  = data (fst (startAnalysis E c w)).
Proof.
  intros E c w.
  assert (Hp : principal E (db w) c (js "alice")).
  { exists (js "alice-secret"). repeat split. }
  assert (Ho : owns_project (db w) (js "alice") (valid c)).
  { exists project1. repeat split. now left. }
  assert (Hu : forall p, In p (projectsTable (db w)) -> Project.id p = valid c ->
                         Project.apiKeyId p = js "alice").
  { intros p [<-|[]] _. reflexivity. }
  assert (Hs : fresh_session_id E w) by (intros s []).
  assert (Hn : forall i, In i (issues w) ->
                         SecurityIssue.analysisSessionId i <> sessionIdOf E w)
    by (intros i []).
  repeat (split; [assumption|]).
  destruct (start_then_get E c w (js "alice") Hp Ho Hu Hs Hn)
    as (s & new & H1 & _ & H2).
  rewrite H1, H2. reflexivity.
Defined.

(** ** Reading a session *)

Lemma selectSession_owned (d : DB) (sessionId apiKeyId : jsstring) s op :
  selectSession d sessionId = Some (s, op) ->
  notOwner (option_map Project.apiKeyId op) apiKeyId = false ->
  In s (analysisSessionsTable d) /\ AnalysisSession.id s = sessionId /\
  owns_session d apiKeyId sessionId.
Proof.
  intros Hsel Hown. apply selectSession_Some in Hsel as (Hs & Hid & Hop).
  unfold notOwner in Hown. apply negb_false_iff, eq_null_true in Hown.
  destruct op as [p|]; [|discriminate Hown]. injection Hown as Hk.
  destruct Hop as [Hp Hj]. repeat split; try assumption.
  exists s, p. repeat split; assumption.
Qed.

(** X13. [getAnalysisResults] and [exportAnalysis] answer the same
    question the same way: for the same header and session id they give
    the same status, a 200 only to a caller whose key owns the session,
    and then the same session row and the same findings, which are the
    findings of the store that point at the session.  Neither writes to
    the store. *)
Theorem results_and_export_agree (E : Env) (header : option jsstring)
        (sessionId format : jsstring) (w : World) :
  let c := {| authorization := header; valid := sessionId |} in
  let g := getAnalysisResults E c w in
  let e := exportAnalysis E {| authorization := header;
                               valid := (sessionId, format) |} w in
  status (fst g) = status (fst e) /\ snd g = w /\ db (snd e) = db w /\
  ((data (fst g) = NoData /\ data (fst e) = NoData /\
    In (status (fst g)) [HttpStatusCodes.UNAUTHORIZED;
                         HttpStatusCodes.NOT_FOUND;
                         HttpStatusCodes.INTERNAL_SERVER_ERROR])
   \/ exists apiKeyId s found ex,
        principal E (db w) c apiKeyId /\
        owns_session (db w) apiKeyId sessionId /\
        status (fst g) = HttpStatusCodes.OK /\
        data (fst g) = AnalysisResults s found /\
        In s (sessions w) /\ AnalysisSession.id s = sessionId /\
        (forall i, In i found <->
                   In i (issues w)
                   /\ SecurityIssue.analysisSessionId i = sessionId) /\
        exp_analysisSession ex = s /\ exp_securityIssues ex = found /\
        (data (fst e) = Exported ex
         \/ exists note, data (fst e) = PdfExport note ex)).
Proof.
  intros c g e. subst g e.
  unfold getAnalysisResults, exportAnalysis, catch_all, authenticated.
  change (getApiKeyFromHeader {| authorization := header;
                                 valid := (sessionId, format) |})
    with (getApiKeyFromHeader c).
  cbn [valid fst snd].
  destruct (getApiKeyFromHeader c) as [apiKey|] eqn:Hk.
  2:{ repeat split. left. repeat split. pick_status. }
  destruct (JsString.falsy apiKey) eqn:Hf.
  { repeat split. left. repeat split. pick_status. }
  run_step.
  destruct (validateApiKey E (db w) apiKey) as [apiKeyId|] eqn:Hv.
  2:{ repeat split. left. repeat split. pick_status. }
  subst c. cbn [valid].
  destruct (selectSession (db w) sessionId) as [[s op]|] eqn:Hsel.
  2:{ repeat split. left. repeat split. pick_status. }
  cbn [fst snd].
  destruct (notOwner (option_map Project.apiKeyId op) apiKeyId) eqn:Hown.
  { repeat split. left. repeat split. pick_status. }
  destruct (selectSession_owned _ _ _ _ _ Hsel Hown) as (Hin & Hid & Ho).
  run_step.
  assert (Hfound : forall i, In i (issuesOfSession (db w) sessionId) <->
                     In i (issues w)
                     /\ SecurityIssue.analysisSessionId i = sessionId).
  { intro i. unfold issuesOfSession, Sql.where_, issues.
    rewrite filter_In, jseqb_eq. reflexivity. }
  destruct (JsString.eqb format (js "pdf")); cbn [fst snd status data db];
    (repeat split; right;
     exists apiKeyId, s, (issuesOfSession (db w) sessionId);
     eexists {| exp_analysisSession := s;
                exp_projectName := option_map Project.name op;
                exp_securityIssues := issuesOfSession (db w) sessionId;
                exportedAt := clock E (clock_calls w) |};
     split; [now exists apiKey|];
     repeat (split; [first [assumption | reflexivity]|])).
  - right. eexists. reflexivity.
  - left. reflexivity.
Qed.

(** ** Reading a finding *)

(** X14. [getIssue] answers 200 only to a caller whose key owns a
    finding with the requested id, and then with a finding of the store
    that has this id; otherwise it answers without data.  It never
    changes the world. *)
Theorem getIssue_outcome (E : Env) (c : Context jsstring) (w : World) :
  snd (getIssue E c w) = w /\
  ((data (fst (getIssue E c w)) = NoData /\
    In (status (fst (getIssue E c w)))
       [HttpStatusCodes.UNAUTHORIZED; HttpStatusCodes.NOT_FOUND;
        HttpStatusCodes.INTERNAL_SERVER_ERROR])
   \/ exists apiKeyId i projectName projectId sessionStatus,
        principal E (db w) c apiKeyId /\
        owns_issue (db w) apiKeyId (valid c) /\
        fst (getIssue E c w)
        = successResponse []
            (IssueWithContext i projectName projectId sessionStatus)
            (js "Issue retrieved successfully") HttpStatusCodes.OK /\
        In i (issues w) /\ SecurityIssue.id i = valid c).
Proof.
  unfold getIssue, catch_all.
  match goal with |- context [authenticated E c ?f w] => set (k := f) end.
  destruct (authenticated_cases E c w k) as [(msg & ->)|(kid & Hp & ->)].
  { split; [reflexivity|]. left. split; [reflexivity | pick_status]. }
  subst k. run_step.
  destruct (verifyIssueOwnership (db w) (valid c) kid) eqn:Ho; cbn [negb].
  2:{ split; [reflexivity|]. left. split; [reflexivity | pick_status]. }
  destruct (Sql.get _) as [[[i os] op]|] eqn:Eg.
  2:{ split; [reflexivity|]. left. split; [reflexivity | pick_status]. }
  split; [reflexivity|]. right.
  apply get_where_Some in Eg as [Hin Hid]. cbn [fst] in Hid.
  apply jseqb_eq in Hid. apply In_issueRows in Hin as [Hin _].
  exists kid, i. eexists _, _, _.
  repeat split; try assumption. now apply verifyIssueOwnership_iff.
Qed.

(** ** The write routes of the findings *)

Lemma kept_as_refl (ids : list jsstring) (i : SecurityIssue.t) :
  kept_as ids i i.
Proof. split; [apply unchanged_refl | reflexivity]. Qed.

Lemma toggled_kept (ids : list jsstring) (cond : SecurityIssue.t -> bool)
      (f : SecurityIssue.t -> SecurityIssue.t) (w : World) :
  (forall i, unchanged_fields i (f i)) ->
  (forall i, cond i = true -> In (SecurityIssue.id i) ids) ->
  Forall2 (kept_as ids) (issues w) (issues (toggled cond f w)).
Proof.
  intros Hf Hc. unfold issues, toggled, Sql.update.
  cbn [db securityIssuesTable fst].
  induction (securityIssuesTable (db w)) as [|i l IH]; simpl;
    constructor; [|assumption].
  destruct (cond i) eqn:E; [|apply kept_as_refl].
  split; [apply Hf|]. intro Hn. exfalso. now apply Hn, Hc.
Qed.

Lemma has_id_target (issueId : jsstring) (i : SecurityIssue.t) :
  has_id issueId i = true -> In (SecurityIssue.id i) [issueId].
Proof. unfold has_id. intro H. apply jseqb_eq in H. now left. Qed.

Lemma ownedIssueIds_In (d : DB) (data : BulkUpdate) (apiKeyId x : jsstring) :
  In x (ownedIssueIds d data apiKeyId)
  <-> In x (issueIds data) /\ verifyIssueOwnership d x apiKeyId = true.
Proof.
  unfold ownedIssueIds, Sql.where_. rewrite in_map_iff. split.
  - intros (row & <- & Hin). apply filter_In in Hin as [Hin Hc].
    apply andb_true_iff in Hc as [H1 H2]. apply includes_In in H1.
    split; [assumption|]. unfold verifyIssueOwnership.
    destruct (Sql.get _) eqn:Eg; [reflexivity|].
    rewrite get_where_None in Eg. specialize (Eg row Hin).
    rewrite jseqb_refl, H2 in Eg. discriminate Eg.
  - intros [Hin Ho]. unfold verifyIssueOwnership in Ho.
    destruct (Sql.get _) as [row|] eqn:Eg; [|discriminate Ho].
    apply get_where_Some in Eg as [Hrow Hc].
    apply andb_true_iff in Hc as [H1 H2]. apply jseqb_eq in H1.
    exists row. split; [assumption|]. apply filter_In. split; [assumption|].
    rewrite H1, H2. apply andb_true_iff. split; [|reflexivity].
    now apply includes_In.
Qed.

Lemma bulkUpdateIssues_world (E : Env) (c : Context BulkUpdate) (w : World) :
  snd (bulkUpdateIssues E c w) = w
  \/ exists apiKeyId,
       snd (bulkUpdateIssues E c w)
       = toggled (fun i => JsString.includes
                             (ownedIssueIds (db w) (valid c) apiKeyId)
                             (SecurityIssue.id i))
                 (applyUpdateData (valid c)) w.
Proof.
  unfold bulkUpdateIssues, catch_all.
  match goal with |- context [authenticated E c ?f w] => set (k := f) end.
  destruct (authenticated_cases E c w k) as [(msg & ->)|(kid & _ & ->)];
    [now left|]. subst k. run_step.
  destruct (0 <? _)%nat; [now left|].
  destruct (bulk_resolved (valid c)), (bulk_falsePositive (valid c));
    try (now left); right; exists kid; reflexivity.
Qed.

(** X15. A request changes only the findings it names.  Whatever the
    route, the findings that were in the store are still there, in
    place, with every column but the two toggles as before, and a
    finding whose id the request does not name is as before altogether;
    only [startAnalysis] adds findings, after them. *)
Theorem writes_touch_only_targets (E : Env) (r : Request) (w : World) :
  exists kept new,
    issues (snd (handle E r w)) = kept ++ new /\
    Forall2 (kept_as (targets r)) (issues w) kept /\
    (new = [] \/ exists c, r = StartAnalysis c).
Proof.
  assert (Hsame : forall ids w', issues w' = issues w ->
            exists kept new, issues w' = kept ++ new /\
              Forall2 (kept_as ids) (issues w) kept /\
              (new = [] \/ exists c, r = StartAnalysis c)).
  { intros ids w' Hw. exists (issues w), []. rewrite app_nil_r.
    repeat split; [assumption | apply Forall2_refl, kept_as_refl | now left]. }
  destruct r as [c|c|c|c|c|c|c]; cbn [handle targets].
  - destruct (startAnalysis_effect E c w) as [(Hdb & _)|H].
    + apply Hsame. unfold issues. now rewrite Hdb.
    + destruct H as (? & ? & new & _ & _ & _ & _ & _ & _ & Hi & _).
      exists (issues w), new.
      repeat split; [exact Hi | apply Forall2_refl, kept_as_refl|].
      right. now exists c.
  - apply Hsame. unfold issues.
    pose proof (read_only_db E (GetAnalysisResults c) w) as H.
    cbn [handle] in H. now rewrite H.
  - apply Hsame. unfold issues.
    pose proof (read_only_db E (ExportAnalysis c) w) as H.
    cbn [handle] in H. now rewrite H.
  - apply Hsame. unfold issues.
    pose proof (read_only_db E (GetIssue c) w) as H.
    cbn [handle] in H. now rewrite H.
  - destruct (resolveIssue_issues E c w) as [-> | ->]; [now apply Hsame|].
    eexists _, []. rewrite app_nil_r. repeat split; [|now left].
    apply toggled_kept; [|apply has_id_target].
    intro i. apply only_resolved_set.
  - destruct (markFalsePositive_issues E c w) as [-> | ->];
      [now apply Hsame|].
    eexists _, []. rewrite app_nil_r. repeat split; [|now left].
    apply toggled_kept; [|apply has_id_target].
    intro i. apply only_falsePositive_set.
  - destruct (bulkUpdateIssues_world E c w) as [-> | (kid & ->)];
      [now apply Hsame|].
    eexists _, []. rewrite app_nil_r. repeat split; [|now left].
    apply toggled_kept; [apply unchanged_applyUpdateData|].
    intros i Hi. apply includes_In, ownedIssueIds_In in Hi. tauto.
Qed.

(** ** The two toggles together *)

Lemma resolveIssue_world (E : Env) (c : Context jsstring) (w : World) :
  snd (resolveIssue E c w)
  = if may_toggle E c (db w)
    then toggled (has_id (valid c)) (SecurityIssue.set_resolved true) w
    else w.
Proof.
  unfold resolveIssue, catch_all, authenticated, may_toggle.
  destruct (getApiKeyFromHeader c) as [apiKey|]; [|reflexivity].
  destruct (JsString.falsy apiKey); [reflexivity|]. run_step.
  destruct (validateApiKey E (db w) apiKey) as [kid|]; [|reflexivity].
  destruct (verifyIssueOwnership (db w) (valid c) kid); reflexivity.
Qed.

Lemma markFalsePositive_world (E : Env) (c : Context jsstring) (w : World) :
  snd (markFalsePositive E c w)
  = if may_toggle E c (db w)
    then toggled (has_id (valid c)) (SecurityIssue.set_falsePositive true) w
    else w.
Proof.
  unfold markFalsePositive, catch_all, authenticated, may_toggle.
  destruct (getApiKeyFromHeader c) as [apiKey|]; [|reflexivity].
  destruct (JsString.falsy apiKey); [reflexivity|]. run_step.
  destruct (validateApiKey E (db w) apiKey) as [kid|]; [|reflexivity].
  destruct (verifyIssueOwnership (db w) (valid c) kid); reflexivity.
Qed.

Lemma owns_issue_of_toggled (w : World) cond f (apiKeyId issueId : jsstring) :
  (forall i, unchanged_fields i (f i)) ->
  owns_issue (db (toggled cond f w)) apiKeyId issueId ->
  owns_issue (db w) apiKeyId issueId.
Proof.
  intros Hf (i & s & p & Hi & Hs & Hp & Hid & E1 & E2 & Hk).
  unfold toggled, Sql.update in Hi.
  cbn [db securityIssuesTable fst] in Hi.
  apply in_map_iff in Hi as (i0 & <- & Hi0).
  exists i0, s, p. repeat split; try assumption.
  - destruct (cond i0); [|assumption].
    destruct (Hf i0) as (H & _). now rewrite <- H.
  - destruct (cond i0); [|assumption].
    destruct (Hf i0) as (_ & H & _). now rewrite <- H.
Qed.

Lemma may_toggle_toggled (E : Env) (c : Context jsstring) (w : World) cond f :
  (forall i, unchanged_fields i (f i)) ->
  may_toggle E c (db (toggled cond f w)) = may_toggle E c (db w).
Proof.
  intro Hf. unfold may_toggle.
  destruct (getApiKeyFromHeader c) as [apiKey|]; [|reflexivity].
  destruct (JsString.falsy apiKey); [reflexivity|].
  change (validateApiKey E (db (toggled cond f w)) apiKey)
    with (validateApiKey E (db w) apiKey).
  destruct (validateApiKey E (db w) apiKey) as [kid|]; [|reflexivity].
  destruct (verifyIssueOwnership (db w) (valid c) kid) eqn:Ho.
  - apply verifyIssueOwnership_iff. apply owns_issue_toggled; [assumption|].
    now apply verifyIssueOwnership_iff.
  - destruct (verifyIssueOwnership (db (toggled cond f w)) (valid c) kid)
      eqn:Ho'; [|reflexivity].
    apply verifyIssueOwnership_iff, owns_issue_of_toggled in Ho';
      [|assumption].
    apply verifyIssueOwnership_iff in Ho'. congruence.
Qed.

Lemma toggled_toggled (w : World) cond f cond' f' :
  toggled cond' f' (toggled cond f w)
  = toggled (fun _ => true)
            (fun i => let i1 := if cond i then f i else i in
                      if cond' i1 then f' i1 else i1) w.
Proof.
  unfold toggled, Sql.update.
  cbn [db securityIssuesTable fst apiKeysTable projectsTable
       analysisSessionsTable uuid_calls clock_calls].
  do 2 f_equal. rewrite map_map. reflexivity.
Qed.

Lemma toggled_ext (w : World) f g :
  (forall i, f i = g i) ->
  toggled (fun _ => true) f w = toggled (fun _ => true) g w.
Proof.
  intro H. unfold toggled, Sql.update. cbn [fst]. do 2 f_equal.
  apply map_ext. intro i. apply H.
Qed.

(** X16. The two toggles do not get in each other's way: resolving a
    finding and then marking it a false positive leaves the same world
    as doing it the other way round, whoever asks; and marking it a
    false positive twice leaves the world of marking it once. *)
Theorem toggles_commute (E : Env) (c : Context jsstring) (w : World) :
  snd (markFalsePositive E c (snd (resolveIssue E c w)))
  = snd (resolveIssue E c (snd (markFalsePositive E c w)))
  /\ snd (markFalsePositive E c (snd (markFalsePositive E c w)))
     = snd (markFalsePositive E c w).
Proof.
  rewrite !markFalsePositive_world, !resolveIssue_world.
  destruct (may_toggle E c (db w)) eqn:Hm.
  - rewrite !may_toggle_toggled, Hm
      by (intro i; first [apply only_resolved_set
                         | apply only_falsePositive_set]).
    rewrite !toggled_toggled. split.
    + apply toggled_ext. intro i. cbn zeta. unfold has_id.
      destruct (JsString.eqb (SecurityIssue.id i) (valid c)) eqn:Ei;
        cbn [SecurityIssue.id SecurityIssue.set_resolved
             SecurityIssue.set_falsePositive]; rewrite ?Ei; reflexivity.
    + unfold toggled at 2, Sql.update. cbn [fst].
      unfold toggled, Sql.update. cbn [fst]. do 2 f_equal.
      apply map_ext. intro i. unfold has_id.
      destruct (JsString.eqb (SecurityIssue.id i) (valid c)) eqn:Ei;
        cbn [SecurityIssue.id SecurityIssue.set_falsePositive];
        rewrite ?Ei; reflexivity.
  - rewrite Hm. split; reflexivity.
Qed.

(** ** The bulk update *)

Lemma unauthorizedIds_not_owned (d : DB) (data : BulkUpdate)
      (apiKeyId : jsstring) :
  filter (fun id => negb (JsString.includes
                            (ownedIssueIds d data apiKeyId) id))
         (issueIds data)
  = not_owned d apiKeyId (issueIds data).
Proof.
  unfold not_owned. apply filter_ext_in. intros id Hin. f_equal.
  destruct (verifyIssueOwnership d id apiKeyId) eqn:Ho.
  - apply includes_In, ownedIssueIds_In. now split.
  - destruct (JsString.includes _ id) eqn:Ei; [|reflexivity].
    apply includes_In, ownedIssueIds_In in Ei as [_ Ei]. congruence.
Qed.

Lemma not_owned_nil (d : DB) (apiKeyId : jsstring) (ids : list jsstring) :
  not_owned d apiKeyId ids = []
  <-> forall id, In id ids -> owns_issue d apiKeyId id.
Proof.
  unfold not_owned. split.
  - intros H id Hin. apply verifyIssueOwnership_iff.
    destruct (verifyIssueOwnership d id apiKeyId) eqn:Ho; [reflexivity|].
    assert (Hf : In id (filter (fun id => negb (verifyIssueOwnership d id
                                                  apiKeyId)) ids))
      by (apply filter_In; split; [assumption | now rewrite Ho]).
    rewrite H in Hf. contradiction.
  - intro H. apply filter_none. intros id Hin.
    apply H, verifyIssueOwnership_iff in Hin. now rewrite Hin.
Qed.



Lemma listed_owned (d : DB) (data : BulkUpdate) (apiKeyId : jsstring)
      (i : SecurityIssue.t) :
  (forall id, In id (issueIds data) -> owns_issue d apiKeyId id) ->
  JsString.includes (ownedIssueIds d data apiKeyId) (SecurityIssue.id i)
  = listed (issueIds data) i.
Proof.
  intro Hall. unfold listed.
  destruct (JsString.includes (issueIds data) (SecurityIssue.id i)) eqn:Ei.
  - apply includes_In in Ei. apply includes_In, ownedIssueIds_In.
    split; [assumption|]. now apply verifyIssueOwnership_iff, Hall.
  - destruct (JsString.includes (ownedIssueIds d data apiKeyId) _) eqn:Eo;
      [|reflexivity].
    apply includes_In, ownedIssueIds_In in Eo as [Eo _].
    apply includes_In in Eo. congruence.
Qed.



(** X19. A bulk update that sets [resolved] on one id does to the world
    what [resolveIssue] does for that id, whoever asks. *)
Theorem bulk_single_is_resolve (E : Env) (header : option jsstring)
        (issueId : jsstring) (w : World) :
  snd (bulkUpdateIssues E
         {| authorization := header;
            valid := {| issueIds := [issueId];
                        bulk_resolved := Some true;
                        bulk_falsePositive := None |} |} w)
  = snd (resolveIssue E {| authorization := header; valid := issueId |} w).
Proof.
  set (c := {| authorization := header; valid := issueId |}).
  rewrite resolveIssue_world. unfold may_toggle.
  unfold bulkUpdateIssues, catch_all, authenticated.
  match goal with |- context [getApiKeyFromHeader {| authorization := header;
                                                     valid := ?d |}] =>
    change (getApiKeyFromHeader {| authorization := header; valid := d |})
      with (getApiKeyFromHeader c)
  end.
  destruct (getApiKeyFromHeader c) as [apiKey|]; [|reflexivity].
  destruct (JsString.falsy apiKey); [reflexivity|]. run_step.
  destruct (validateApiKey E (db w) apiKey) as [kid|]; [|reflexivity].
  cbn [valid].
  match goal with |- context [Sql.where_ _ (issueRows (db w))] =>
    fold (ownedIssueIds (db w)
            {| issueIds := [issueId]; bulk_resolved := Some true;
               bulk_falsePositive := None |} kid)
  end.
  rewrite unauthorizedIds_not_owned. unfold not_owned.
  cbn [issueIds filter c valid].
  destruct (verifyIssueOwnership (db w) issueId kid) eqn:Ho;
    cbn [negb List.length Nat.ltb Nat.leb]; [|reflexivity].
  cbn [bulk_resolved bulk_falsePositive snd fst].
  unfold toggled, Sql.update. cbn [fst snd db securityIssuesTable].
  f_equal. f_equal. apply map_ext. intro i.
  rewrite listed_owned.
  - unfold listed, has_id, JsString.includes. cbn [issueIds existsb].
    rewrite orb_false_r. reflexivity.
  - intros id [<-|[]]. now apply verifyIssueOwnership_iff.
Qed.

(** ** What [listIssues] shows *)

Lemma text_filter_true (f : option jsstring) (column : jsstring) :
  text_filter f column = true
  <-> forall v, f = Some v -> v <> [] -> column = v.
Proof.
  unfold text_filter. destruct f as [[|x v]|]; cbn [JsString.falsy].
  - split; [|reflexivity]. intros _ v [= <-] H. contradiction.
  - rewrite jseqb_eq. split.
    + intros -> v' [= <-] _. reflexivity.
    + intro H. apply H; [reflexivity | discriminate].
  - split; [|reflexivity]. intros _ v H. discriminate H.
Qed.

Lemma bool_filter_true (f : option bool) (column : bool) :
  bool_filter f column = true <-> forall b, f = Some b -> column = b.
Proof.
  unfold bool_filter. destruct f as [b|].
  - rewrite Bool.eqb_true_iff. split.
    + intros -> b' [= <-]. reflexivity.
    + intro H. now apply H.
  - split; [|reflexivity]. intros _ b H. discriminate H.
Qed.

Lemma whereConditions_true (query : ListQuery) (apiKeyId : jsstring)
      (i : SecurityIssue.t) (s : AnalysisSession.t) (p : Project.t) :
  whereConditions query apiKeyId (i, Some s, Some p) = true
  <-> Project.apiKeyId p = apiKeyId /\ passes query i p.
Proof.
  unfold whereConditions, passes. cbn [fst snd option_map].
  rewrite !andb_true_iff, !text_filter_true, !bool_filter_true.
  rewrite eq_null_true.
  assert (Hpid : text_filter_null (q_projectId query) (Some (Project.id p))
                 = text_filter (q_projectId query) (Project.id p))
    by (unfold text_filter_null, text_filter;
        destruct (q_projectId query) as [[|x v]|]; reflexivity).
  rewrite Hpid, text_filter_true.
  split.
  - intros [[[[[[[[= Hk] H1] H2] H3] H4] H5] H6] H7]. tauto.
  - intros [Hk (H1 & H2 & H3 & H4 & H5 & H6 & H7)]. rewrite Hk. tauto.
Qed.

Lemma whereConditions_owner (query : ListQuery) (apiKeyId : jsstring)
      (row : IssueRow) :
  whereConditions query apiKeyId row = true ->
  exists p, snd row = Some p /\ Project.apiKeyId p = apiKeyId.
Proof.
  unfold whereConditions. rewrite !andb_true_iff.
  intros [[[[[[[Hk _] _] _] _] _] _] _].
  apply eq_null_true in Hk. destruct (snd row) as [p|]; [|discriminate Hk].
  exists p. split; [reflexivity|]. now injection Hk.
Qed.

Lemma In_of_firstn {A} (n : nat) (l : list A) (x : A) :
  In x (firstn n l) -> In x l.
Proof.
  intro H. rewrite <- (firstn_skipn n l). apply in_or_app. now left.
Qed.

Lemma In_of_skipn {A} (n : nat) (l : list A) (x : A) :
  In x (skipn n l) -> In x l.
Proof.
  intro H. rewrite <- (firstn_skipn n l). apply in_or_app. now right.
Qed.

Lemma In_limit_offset {A} (n k : Q) (rows out : list A) :
  limit_offset n k rows = Ok out ->
  (forall x, In x out -> In x rows)
  /\ exists limit, whole n = Some limit
                   /\ ((limit < 0)%Z
                       \/ (Z.of_nat (List.length out) <= limit)%Z).
Proof.
  unfold limit_offset.
  destruct (whole n) as [limit|]; [|discriminate].
  destruct (whole k) as [offset|]; [|discriminate].
  intros [= <-]. split.
  - intros x Hx. apply (In_of_skipn (Z.to_nat offset)).
    destruct (limit <? 0)%Z; [assumption|].
    now apply (In_of_firstn (Z.to_nat limit)).
  - exists limit. split; [reflexivity|].
    destruct (limit <? 0)%Z eqn:El; [left; lia | right].
    rewrite length_firstn. lia.
Qed.

Lemma authenticatedOf_cases {D P} (E : Env) (c : Context P) (w : World)
      (k : jsstring -> M (ResponseOf D)) :
  (exists msg, authenticatedOf E c k w
               = (Ok (errorResponseOf msg HttpStatusCodes.UNAUTHORIZED), w))
  \/ exists apiKeyId, principal E (db w) c apiKeyId
                      /\ authenticatedOf E c k w = k apiKeyId w.
Proof.
  unfold authenticatedOf, principal.
  destruct (getApiKeyFromHeader c) as [apiKey|] eqn:Hk;
    [|left; eexists; reflexivity].
  destruct (JsString.falsy apiKey) eqn:Hf; [left; eexists; reflexivity|].
  run_step.
  destruct (validateApiKey E (db w) apiKey) as [apiKeyId|] eqn:Hv;
    [|left; eexists; reflexivity].
  right. exists apiKeyId. split; [|reflexivity]. exists apiKey. auto.
Qed.

Lemma authenticatedOf_principal {D P} (E : Env) (c : Context P) (w : World)
      (apiKeyId : jsstring) (k : jsstring -> M (ResponseOf D)) :
  principal E (db w) c apiKeyId -> authenticatedOf E c k w = k apiKeyId w.
Proof.
  intros (apiKey & Hk & Hf & Hv). unfold authenticatedOf.
  rewrite Hk, Hf. run_step. now rewrite Hv.
Qed.

Lemma shown_of_row (d : DB) (apiKeyId : jsstring) (query : ListQuery)
      (row : IssueRow) :
  In row (issueRows d) -> whereConditions query apiKeyId row = true ->
  shown_to d apiKeyId query (enhance row).
Proof.
  intros Hin Hc. destruct row as [[i os] op].
  destruct (whereConditions_owner _ _ _ Hc) as (p & Hop & Hk).
  cbn [snd] in Hop. subst op.
  apply In_issueRows in Hin as (Hi & Hp & s & -> & Hs & E1 & E2).
  apply whereConditions_true in Hc as [_ Hpass].
  exists s, p. unfold chain, enhance. cbn [enh_issue enh_projectName
    enh_projectId fst snd option_map].
  repeat split; try assumption; apply Hpass.
Qed.

(** X20. [listIssues] shows a caller only findings of the caller.  It
    answers 401 or 500 without data, or 200 with a list in which every
    element is a finding of the store that hangs on a project of the
    caller's key and meets every field of the query that is given and
    not empty; the element carries the name and the id of that project.
    The list is no longer than the limit (fifty when none is given).
    The world is never changed. *)
Theorem listIssues_outcome (E : Env) (c : Context ListQuery) (w : World) :
  snd (listIssues E c w) = w /\
  match data_of (fst (listIssues E c w)) with
  | None =>
      In (status_of (fst (listIssues E c w)))
         [HttpStatusCodes.UNAUTHORIZED; HttpStatusCodes.INTERNAL_SERVER_ERROR]
  | Some enhancedIssues =>
      status_of (fst (listIssues E c w)) = HttpStatusCodes.OK /\
      exists apiKeyId limit,
        principal E (db w) c apiKeyId /\
        Forall (shown_to (db w) apiKeyId (valid c)) enhancedIssues /\
        whole (or_number (q_limit (valid c)) 50) = Some limit /\
        ((limit < 0)%Z
         \/ (Z.of_nat (List.length enhancedIssues) <= limit)%Z)
  end.
Proof.
  unfold listIssues, catch_all_of.
  match goal with |- context [authenticatedOf E c ?f w] => set (k := f) end.
  destruct (authenticatedOf_cases E c w k) as [(msg & ->)|(kid & Hp & ->)].
  { split; [reflexivity|]. cbn. now left. }
  subst k. run_step.
  destruct (limit_offset _ _ _) as [out|e] eqn:Hl.
  2:{ split; [reflexivity|]. cbn. right. now left. }
  split; [reflexivity|]. cbn [fst data_of successResponseOf status_of].
  split; [reflexivity|].
  apply In_limit_offset in Hl as (Hin & limit & Hw & Hlen).
  exists kid, limit. repeat split; try assumption.
  - apply Forall_forall. intros e He. apply in_map_iff in He as (row & <- & Hr).
    apply Hin in Hr. apply filter_In in Hr as [Hr Hc].
    now apply shown_of_row.
  - now rewrite length_map.
Qed.

Lemma chain_row (d : DB) (apiKeyId : jsstring) (i : SecurityIssue.t)
      (s : AnalysisSession.t) (p : Project.t) :
  chain d apiKeyId i s p -> In (i, Some s, Some p) (issueRows d).
Proof.
  intros (Hi & Hs & Hp & E1 & E2 & _). unfold issueRows.
  apply leftJoin_In; [|assumption|].
  - apply leftJoin_In; [assumption | assumption | now apply jseqb_eq].
  - cbn [snd option_map]. apply eq_null_true. now rewrite E2.
Qed.

(** X21. [listIssues] leaves out nothing it should show: with no offset
    and a limit that the selected rows fit in, every finding of the
    caller that meets the query is in the list, with the id of its
    project. *)
Theorem listIssues_complete (E : Env) (c : Context ListQuery) (w : World)
        (apiKeyId : jsstring) (limit : Z) (i : SecurityIssue.t)
        (s : AnalysisSession.t) (p : Project.t) :
  principal E (db w) c apiKeyId ->
  whole (or_number (q_offset (valid c)) 0) = Some 0%Z ->
  whole (or_number (q_limit (valid c)) 50) = Some limit ->
  (Z.of_nat (List.length (selected (db w) apiKeyId (valid c))) <= limit)%Z ->
  chain (db w) apiKeyId i s p -> passes (valid c) i p ->
  exists enhancedIssues e,
    data_of (fst (listIssues E c w)) = Some enhancedIssues /\
    In e enhancedIssues /\ enh_issue e = i /\
    enh_projectId e = Some (Project.id p).
Proof.
  intros Hp Hoff Hlim Hfit Hchain Hpass.
  unfold listIssues, catch_all_of.
  rewrite (authenticatedOf_principal E c w apiKeyId _ Hp). run_step.
  unfold limit_offset. rewrite Hlim, Hoff.
  change (Z.to_nat 0) with 0%nat. cbn [skipn].
  fold (selected (db w) apiKeyId (valid c)).
  assert (Hrow : In (i, Some s, Some p) (selected (db w) apiKeyId (valid c))).
  { unfold selected, Sql.where_. apply filter_In.
    split; [now apply (chain_row (db w) apiKeyId)|].
    apply (proj2 (whereConditions_true (valid c) apiKeyId i s p)).
    split; [|assumption]. now destruct Hchain as (_ & _ & _ & _ & _ & Hk). }
  assert (Hall : (if (limit <? 0)%Z
                  then selected (db w) apiKeyId (valid c)
                  else firstn (Z.to_nat limit)
                              (selected (db w) apiKeyId (valid c)))
                 = selected (db w) apiKeyId (valid c)).
  { destruct (limit <? 0)%Z; [reflexivity|]. apply firstn_all2. lia. }
  rewrite Hall. cbn [fst data_of successResponseOf].
  eexists _, (enhance (i, Some s, Some p)).
  split; [reflexivity|]. split; [now apply in_map|]. split; reflexivity.
Qed.

Lemma listIssues_complete_witness :
  let c := request "alice-secret"
             {| q_severity := Some (js "critical"); q_resolved := None;
                q_falsePositive := None; q_type := None;
                q_category := None; q_projectId := None;
                q_analysisSessionId := None; q_limit := None;
                q_offset := None |} in
  principal (envOf (Ok [])) (db (world db1)) c (js "alice") /\
  whole (or_number (q_offset (valid c)) 0) = Some 0%Z /\
  whole (or_number (q_limit (valid c)) 50) = Some 50%Z /\
  (Z.of_nat (List.length (selected (db (world db1)) (js "alice") (valid c)))
   <= 50)%Z /\
  chain (db (world db1)) (js "alice") issue1 session1 project1 /\
  passes (valid c) issue1 project1 /\
  exists enhancedIssues e,
    data_of (fst (listIssues (envOf (Ok [])) c (world db1)))
    = Some enhancedIssues /\
    In e enhancedIssues /\ enh_issue e = issue1 /\
    enh_projectId e = Some (Project.id project1).
Proof.
  intro c.
  assert (Hp : principal (envOf (Ok [])) (db (world db1)) c (js "alice")).
  { exists (js "alice-secret"). repeat split. }
  assert (Hfit : (Z.of_nat (List.length (selected (db (world db1))
                                           (js "alice") (valid c)))
                  <= 50)%Z) by (vm_compute; discriminate).
  assert (Hc : chain (db (world db1)) (js "alice") issue1 session1 project1).
  { repeat split; now left. }
  assert (Hq : passes (valid c) issue1 project1).
  { repeat split; intros v H; try discriminate H.
    injection H as <-. reflexivity. }
  split; [exact Hp|]. split; [reflexivity|]. split; [reflexivity|].
  split; [exact Hfit|]. split; [exact Hc|]. split; [exact Hq|].
  exact (listIssues_complete (envOf (Ok [])) c (world db1) (js "alice") 50
           issue1 session1 project1 Hp eq_refl eq_refl Hfit Hc Hq).
Defined.

(** ** Grouping and counting *)

Section Groups.
Context {A K : Type}.
Variable same : K -> K -> bool.
Hypothesis same_eq : forall a b, same a b = true <-> a = b.
Variable key : A -> K.

Lemma bump_weight (f : K -> bool) (k : K) (groups : list (K * nat)) :
  weightIf f (bump same k groups)
  = ((if f k then 1 else 0) + weightIf f groups)%nat.
Proof.
  induction groups as [|[k' n] rest IH]; cbn [bump weightIf fold_right fst snd].
  - destruct (f k); lia.
  - destruct (same k' k) eqn:Es; cbn [fold_right fst snd].
    + apply same_eq in Es. subst k'. destruct (f k); lia.
    + fold (weightIf f (bump same k rest)). fold (weightIf f rest).
      rewrite IH. destruct (f k), (f k'); lia.
Qed.

Lemma fold_bump_weight (f : K -> bool) (rows : list A) :
  forall groups,
    weightIf f (fold_left (fun g row => bump same (key row) g) rows groups)
    = (count (fun row => f (key row)) rows + weightIf f groups)%nat.
Proof.
  unfold count. induction rows as [|r rows IH]; intro groups;
    cbn [fold_left filter]; [reflexivity|].
  rewrite IH, bump_weight. destruct (f (key r)); cbn [List.length]; lia.
Qed.

Lemma groupCount_weight (f : K -> bool) (rows : list A) :
  weightIf f (groupCount same key rows) = count (fun row => f (key row)) rows.
Proof.
  unfold groupCount. rewrite fold_bump_weight. cbn. lia.
Qed.

Lemma bump_keys (k : K) (groups : list (K * nat)) :
  (In k (map fst groups) /\ map fst (bump same k groups) = map fst groups)
  \/ (~ In k (map fst groups)
      /\ map fst (bump same k groups) = map fst groups ++ [k]).
Proof.
  induction groups as [|[k' n] rest IH]; cbn [bump map fst].
  - right. split; [intros [] | reflexivity].
  - destruct (same k' k) eqn:Es; cbn [map fst].
    + left. apply same_eq in Es. split; [now left | reflexivity].
    + assert (Hne : k' <> k)
        by (intro He; apply same_eq in He; congruence).
      destruct IH as [[Hin ->]|[Hnin ->]].
      * left. split; [now right | reflexivity].
      * right. split; [|reflexivity]. intros [He|Hin]; contradiction.
Qed.

Lemma bump_NoDup (k : K) (groups : list (K * nat)) :
  NoDup (map fst groups) -> NoDup (map fst (bump same k groups)).
Proof.
  intro H. destruct (bump_keys k groups) as [[_ ->]|[Hnin ->]];
    [assumption|].
  apply NoDup_app; [assumption | repeat constructor; intros [] |].
  intros x Hx [<-|[]]. contradiction.
Qed.

Lemma bump_positive (k : K) (groups : list (K * nat)) :
  Forall (fun g => (0 < snd g)%nat) groups ->
  Forall (fun g => (0 < snd g)%nat) (bump same k groups).
Proof.
  induction 1 as [|[k' n] rest Hg Hrest IH]; cbn [bump].
  - repeat constructor.
  - destruct (same k' k); constructor; cbn [snd] in *; try assumption; lia.
Qed.

Lemma groupCount_invariant (rows : list A) :
  NoDup (map fst (groupCount same key rows))
  /\ Forall (fun g => (0 < snd g)%nat) (groupCount same key rows).
Proof.
  unfold groupCount.
  assert (H : forall groups,
             NoDup (map fst groups) /\
             Forall (fun g => (0 < snd g)%nat) groups ->
             NoDup (map fst (fold_left (fun g row => bump same (key row) g)
                                       rows groups)) /\
             Forall (fun g => (0 < snd g)%nat)
                    (fold_left (fun g row => bump same (key row) g)
                               rows groups)).
  { induction rows as [|r rows IH]; intros groups [H1 H2]; cbn [fold_left];
      [now split|].
    apply IH. split; [now apply bump_NoDup | now apply bump_positive]. }
  apply H. split; constructor.
Qed.

(** In a list of groups with distinct keys, the weight of one key is
    the count of its group. *)
Lemma weight_of_key (k : K) (n : nat) (groups : list (K * nat)) :
  NoDup (map fst groups) -> In (k, n) groups ->
  weightIf (fun k' => same k' k) groups = n.
Proof.
  induction groups as [|[k' m] rest IH]; intros Hnd Hin; [contradiction|].
  cbn [map fst] in Hnd. apply NoDup_cons_iff in Hnd as [Hhd Hnd].
  cbn [weightIf fold_right fst snd]. fold (weightIf (fun k' => same k' k) rest).
  destruct Hin as [[= -> ->]|Hin].
  - rewrite (proj2 (same_eq k k) eq_refl).
    assert (Hz : weightIf (fun k' => same k' k) rest = 0%nat).
    { clear - Hhd same_eq. induction rest as [|[k1 m1] rest IH]; [reflexivity|].
      cbn [weightIf fold_right fst snd map] in *.
      destruct (same k1 k) eqn:Es.
      - apply same_eq in Es. subst k1. exfalso. apply Hhd. now left.
      - apply IH. intro H. apply Hhd. now right. }
    rewrite Hz. lia.
  - destruct (same k' k) eqn:Es.
    + apply same_eq in Es. subst k'. exfalso. apply Hhd.
      apply in_map_iff. now exists (k, n).
    + now apply IH.
Qed.

(** The group of a key counts the rows that have the key, and there is
    at least one. *)
Lemma groupCount_In (k : K) (n : nat) (rows : list A) :
  In (k, n) (groupCount same key rows) ->
  n = count (fun row => same (key row) k) rows /\ (0 < n)%nat.
Proof.
  intro Hin. destruct (groupCount_invariant rows) as [Hnd Hpos]. split.
  - rewrite <- (weight_of_key k n _ Hnd Hin). apply groupCount_weight.
  - rewrite Forall_forall in Hpos. apply (Hpos (k, n) Hin).
Qed.

(** Every key that occurs has a group. *)
Lemma groupCount_has (rows : list A) (r : A) :
  In r rows -> In (key r) (map fst (groupCount same key rows)).
Proof.
  intro Hin.
  assert (Hw : (0 < weightIf (fun k => same k (key r))
                             (groupCount same key rows))%nat).
  { rewrite groupCount_weight. unfold count.
    assert (Hf : In r (filter (fun row => same (key row) (key r)) rows))
      by (apply filter_In; split; [assumption | now apply same_eq]).
    destruct (filter _ rows); [contradiction | cbn; lia]. }
  induction (groupCount same key rows) as [|[k n] rest IH];
    cbn [weightIf fold_right fst snd] in Hw; [lia|].
  destruct (same k (key r)) eqn:Es.
  - apply same_eq in Es. left. exact Es.
  - right. now apply IH.
Qed.

End Groups.

Lemma weightIf_all {K} (groups : list (K * nat)) :
  weightIf (fun _ => true) groups = list_sum (map snd groups).
Proof.
  induction groups as [|g rest IH]; [reflexivity|].
  cbn [weightIf fold_right map list_sum]. fold (weightIf (fun _ : K => true) rest).
  now rewrite IH.
Qed.

(** ** Ordering by count *)

Lemma insertByCount_perm {K} (g : K * nat) (l : list (K * nat)) :
  Permutation (insertByCount g l) (g :: l).
Proof.
  induction l as [|h rest IH]; cbn [insertByCount]; [reflexivity|].
  destruct (snd h <? snd g)%nat; [reflexivity|].
  rewrite IH. apply perm_swap.
Qed.

Lemma orderByCountDesc_perm {K} (l : list (K * nat)) :
  Permutation (orderByCountDesc l) l.
Proof.
  induction l as [|g rest IH]; [reflexivity|].
  cbn [orderByCountDesc fold_right]. fold (orderByCountDesc rest).
  rewrite insertByCount_perm. now constructor.
Qed.

Lemma insertByCount_sorted {K} (g : K * nat) (l : list (K * nat)) :
  StronglySorted byCountDesc l ->
  StronglySorted byCountDesc (insertByCount g l).
Proof.
  induction 1 as [|h rest Hs IH Hh]; cbn [insertByCount].
  - repeat constructor.
  - destruct (snd h <? snd g)%nat eqn:El.
    + apply Nat.ltb_lt in El. constructor; [now constructor|].
      constructor; [unfold byCountDesc; lia|].
      eapply Forall_impl; [|exact Hh]. unfold byCountDesc. intros; lia.
    + apply Nat.ltb_ge in El. constructor; [assumption|].
      eapply Permutation_Forall; [symmetry; apply insertByCount_perm|].
      constructor; [exact El | exact Hh].
Qed.

Lemma orderByCountDesc_sorted {K} (l : list (K * nat)) :
  StronglySorted byCountDesc (orderByCountDesc l).
Proof.
  induction l as [|g rest IH]; [constructor|].
  cbn [orderByCountDesc fold_right]. now apply insertByCount_sorted.
Qed.

(** The first [n] of a sorted list are no smaller than the others. *)
Lemma sorted_firstn_skipn {K} (n : nat) (l : list (K * nat)) :
  StronglySorted byCountDesc l ->
  forall g h, In g (firstn n l) -> In h (skipn n l) -> (snd h <= snd g)%nat.
Proof.
  intro Hs. revert n. induction Hs as [|x rest Hs IH Hx]; intros n g h Hg Hh.
  - destruct n; contradiction.
  - destruct n as [|n]; [contradiction|]. cbn [firstn skipn] in Hg, Hh.
    destruct Hg as [<-|Hg]; [|now apply (IH n)].
    rewrite Forall_forall in Hx. apply Hx. now apply (In_of_skipn n).
Qed.

(** ** Entries of an object *)

Lemma setEntry_new {V} (k : jsstring) (v : V) (o : list (jsstring * V)) :
  ~ In k (map fst o) -> setEntry k v o = o ++ [(k, v)].
Proof.
  induction o as [|[k' v'] rest IH]; intro Hn; [reflexivity|].
  cbn [setEntry]. destruct (JsString.eqb k' k) eqn:Ek.
  - apply jseqb_eq in Ek. subst k'. exfalso. apply Hn. now left.
  - cbn [app]. f_equal. apply IH. intro H. apply Hn. now right.
Qed.

Lemma fromEntries_distinct {V} (entries : list (jsstring * V)) :
  NoDup (map fst entries) -> fromEntries entries = entries.
Proof.
  unfold fromEntries.
  assert (H : forall o, NoDup (map fst (o ++ entries)) ->
                        fold_left (fun o e => setEntry (fst e) (snd e) o)
                                  entries o = o ++ entries).
  { induction entries as [|[k v] rest IH]; intros o Hnd; cbn [fold_left].
    - now rewrite app_nil_r.
    - cbn [fst snd]. rewrite setEntry_new.
      + rewrite IH; rewrite <- app_assoc; [reflexivity | exact Hnd].
      + rewrite map_app in Hnd. cbn [map fst] in Hnd.
        apply NoDup_remove_2 in Hnd. intro H. apply Hnd.
        apply in_or_app. now left. }
  intro Hnd. now apply (H []).
Qed.

(** ** The status summary *)

Lemma weightIf_cons {K} (f : K -> bool) (g : K * nat)
      (groups : list (K * nat)) :
  weightIf f (g :: groups)
  = if f (fst g) then (snd g + weightIf f groups)%nat else weightIf f groups.
Proof. reflexivity. Qed.

Lemma fold_addStatus (groups : list (bool * bool * nat)) :
  forall summary,
    fold_left addStatus groups summary
    = StatusSummary.mk
        (StatusSummary.open summary
         + weightIf (fun k => negb (snd k) && negb (fst k)) groups)
        (StatusSummary.resolved summary
         + weightIf (fun k => negb (snd k) && fst k) groups)
        (StatusSummary.falsePositive summary + weightIf snd groups).
Proof.
  induction groups as [|[[r f] n] rest IH]; intros [a b c].
  - cbn. now rewrite !Nat.add_0_r.
  - cbn [fold_left]. rewrite IH, !weightIf_cons. unfold addStatus.
    cbn [fst snd StatusSummary.open StatusSummary.resolved
         StatusSummary.falsePositive].
    destruct f, r; cbn [negb andb StatusSummary.open StatusSummary.resolved
                        StatusSummary.falsePositive];
      f_equal; lia.
Qed.

(** ** What [getIssueStats] counts *)

Lemma sameStatus_eq (a b : bool * bool) : sameStatus a b = true <-> a = b.
Proof.
  unfold sameStatus. destruct a as [a1 a2], b as [b1 b2]. cbn [fst snd].
  rewrite andb_true_iff, !Bool.eqb_true_iff. split.
  - now intros [-> ->].
  - now intros [= -> ->].
Qed.

Lemma count_all {A} (rows : list A) :
  count (fun _ => true) rows = List.length rows.
Proof.
  unfold count. induction rows as [|r rows IH]; [reflexivity|].
  cbn [filter List.length]. now rewrite IH.
Qed.

Lemma count_status {A} (f r : A -> bool) (rows : list A) :
  (count (fun x => negb (f x) && negb (r x)) rows
   + count (fun x => negb (f x) && r x) rows
   + count f rows = List.length rows)%nat.
Proof.
  unfold count. induction rows as [|x rows IH]; [reflexivity|].
  cbn [filter]. destruct (f x), (r x); cbn [negb andb List.length]; lia.
Qed.

Lemma ownedRows_chain (d : DB) (apiKeyId : jsstring) (row : IssueRow) :
  In row (ownedRows d apiKeyId) <->
  exists s p, row = (issueOf row, Some s, Some p)
              /\ chain d apiKeyId (issueOf row) s p.
Proof.
  unfold ownedRows, Sql.where_. rewrite filter_In. split.
  - intros [Hin Hk]. destruct row as [[i os] op]. cbn [snd] in Hk.
    apply eq_null_true in Hk. destruct op as [p|]; [|discriminate Hk].
    injection Hk as Hk.
    apply In_issueRows in Hin as (Hi & Hp & s & -> & Hs & E1 & E2).
    exists s, p. unfold chain, issueOf. cbn [fst].
    repeat split; assumption.
  - intros (s & p & Hrow & Hc). rewrite Hrow. split.
    + now apply (chain_row d apiKeyId).
    + cbn [snd option_map]. apply eq_null_true. f_equal. apply Hc.
Qed.

Lemma stats_summarise (rows : list IssueRow) :
  summarises rows
    {| totalIssues := List.length rows;
       severityBreakdown :=
         fromEntries
           (groupCount JsString.eqb
              (fun row : IssueRow => SecurityIssue.severity (fst (fst row)))
              rows);
       statusSummary :=
         fold_left addStatus
           (groupCount sameStatus
              (fun row : IssueRow =>
                 (SecurityIssue.resolved (fst (fst row)),
                  SecurityIssue.falsePositive (fst (fst row)))) rows)
           (StatusSummary.mk 0 0 0);
       topIssueTypes :=
         firstn 10
           (orderByCountDesc
              (groupCount JsString.eqb
                 (fun row : IssueRow => SecurityIssue.type (fst (fst row)))
                 rows)) |}.
Proof.
  unfold summarises.
  cbn [totalIssues severityBreakdown statusSummary topIssueTypes].
  rewrite fold_addStatus.
  rewrite !(groupCount_weight sameStatus sameStatus_eq).
  cbn [StatusSummary.open StatusSummary.resolved StatusSummary.falsePositive
       Nat.add fst snd].
  set (bySeverity := groupCount JsString.eqb _ rows).
  set (byType := groupCount JsString.eqb
                   (fun row : IssueRow => SecurityIssue.type (fst (fst row)))
                   rows).
  destruct (groupCount_invariant JsString.eqb jseqb_eq
              (fun row : IssueRow => SecurityIssue.severity (fst (fst row)))
              rows) as [Hnd _].
  fold bySeverity in Hnd. rewrite (fromEntries_distinct bySeverity Hnd).
  split; [reflexivity|]. split; [reflexivity|]. split; [reflexivity|].
  split; [reflexivity|].
  split; [apply (count_status (fun row : IssueRow =>
                                 SecurityIssue.falsePositive (issueOf row)))|].
  split.
  { rewrite <- weightIf_all. unfold bySeverity.
    rewrite (groupCount_weight JsString.eqb jseqb_eq). apply count_all. }
  split.
  { intros severity n Hin.
    apply (groupCount_In JsString.eqb jseqb_eq) in Hin. exact Hin. }
  split.
  { intros row Hin.
    apply (groupCount_has JsString.eqb jseqb_eq
             (fun row : IssueRow => SecurityIssue.severity (fst (fst row)))
             rows row Hin). }
  split; [apply firstn_le_length|].
  split.
  { intros type n Hin. apply In_of_firstn in Hin.
    apply (Permutation_in _ (orderByCountDesc_perm byType)) in Hin.
    apply (groupCount_In JsString.eqb jseqb_eq) in Hin. exact Hin. }
  intros row Hin.
  pose proof (groupCount_has JsString.eqb jseqb_eq
                (fun row : IssueRow => SecurityIssue.type (fst (fst row)))
                rows row Hin) as Hkey.
  fold byType in Hkey. apply in_map_iff in Hkey as ([t n] & Ht & Hg).
  cbn [fst] in Ht. subst t.
  pose proof (groupCount_In JsString.eqb jseqb_eq _ _ _ _ Hg) as [Hn _].
  apply (Permutation_in _ (Permutation_sym (orderByCountDesc_perm byType)))
    in Hg.
  rewrite <- (firstn_skipn 10 (orderByCountDesc byType)) in Hg.
  apply in_app_or in Hg as [Hg|Hg].
  - left. apply in_map_iff. eexists. split; [|exact Hg]. reflexivity.
  - right. intros g Hgtop.
    pose proof (sorted_firstn_skipn 10 _ (orderByCountDesc_sorted byType)
                  g _ Hgtop Hg) as Hle.
    cbn [snd] in Hle. unfold issueOf. rewrite <- Hn. exact Hle.
Qed.


(** ** The key routes *)

Lemma fold_left_app_prefix {A} (f : A -> jsstring) (l : list A) :
  forall start, exists rest,
    fold_left (fun result i => result ++ f i) l start = start ++ rest.
Proof.
  induction l as [|a l IH]; intro start; cbn [fold_left].
  - exists []. now rewrite app_nil_r.
  - destruct (IH (start ++ f a)) as (rest & ->). exists (f a ++ rest).
    now rewrite app_assoc.
Qed.

Lemma generateApiKeyHelper_prefix (random : nat -> Q) :
  exists rest, generateApiKeyHelper random = js "sk-" ++ rest.
Proof. unfold generateApiKeyHelper. apply fold_left_app_prefix. Qed.

(** A key row appended to the table is found by its digest when it is
    active and no row before it has the digest. *)
Lemma validateApiKey_appended (E : Env) (d d' : DB) (row : ApiKey.t)
      (apiKey : jsstring) :
  apiKeysTable d' = apiKeysTable d ++ [row] ->
  (forall k, In k (apiKeysTable d) ->
             ApiKey.keyHash k <> sha256_hex E apiKey) ->
  ApiKey.keyHash row = sha256_hex E apiKey -> ApiKey.isActive row = true ->
  ApiKey.id row <> [] ->
  validateApiKey E d' apiKey = Some (ApiKey.id row).
Proof.
  intros Hd Hnone Hh Ha Hid. unfold validateApiKey, Sql.get, Sql.where_.
  rewrite Hd, filter_app, filter_none.
  - cbn [app filter]. rewrite Hh, jseqb_refl, Ha. cbn.
    destruct (ApiKey.id row); [contradiction | reflexivity].
  - intros k Hk. apply andb_false_iff. left. apply jseqb_neq.
    now apply Hnone.
Qed.

(** A key that validated before still does after a row is appended. *)
Lemma validateApiKey_kept (E : Env) (d d' : DB) (row : ApiKey.t)
      (apiKey apiKeyId : jsstring) :
  apiKeysTable d' = apiKeysTable d ++ [row] ->
  validateApiKey E d apiKey = Some apiKeyId ->
  validateApiKey E d' apiKey = Some apiKeyId.
Proof.
  intros Hd. unfold validateApiKey, Sql.get, Sql.where_.
  rewrite Hd, filter_app.
  destruct (filter _ (apiKeysTable d)) as [|k ks]; [discriminate|].
  cbn [app hd_error]. trivial.
Qed.

(** X23. A key that [generateApiKey] hands out authenticates: when the
    route answers 201, the raw key of the answer starts with [sk-] and,
    from then on, [validateApiKey] maps it to the id of the answer, so a
    request that carries it as bearer token is taken as that key on
    every route; the keys that validated before still do, and no other
    table has changed.  Otherwise the route answers 500 and the store is
    as before.  (The identifier handed out is not the empty string.) *)
Theorem generated_key_authenticates (E : Env) (random : nat -> Q)
        (c : Context jsstring) (w : World) :
  randomUUID E (uuid_calls w) <> [] ->
  let r := generateApiKey E random c w in
  match data_of (fst r) with
  | None =>
      status_of (fst r) = HttpStatusCodes.INTERNAL_SERVER_ERROR
      /\ db (snd r) = db w
  | Some k =>
      status_of (fst r) = HttpStatusCodes.CREATED /\
      JsString.startsWith (akk_key k) (js "sk-") = true /\
      akk_name k = valid c /\
      validateApiKey E (db (snd r)) (akk_key k) = Some (akk_id k) /\
      (forall P (c' : Context P),
          authorization c' = Some (js "Bearer " ++ akk_key k) ->
          principal E (db (snd r)) c' (akk_id k)) /\
      (forall apiKey apiKeyId,
          validateApiKey E (db w) apiKey = Some apiKeyId ->
          validateApiKey E (db (snd r)) apiKey = Some apiKeyId) /\
      projectsTable (db (snd r)) = projectsTable (db w) /\
      analysisSessionsTable (db (snd r)) = analysisSessionsTable (db w) /\
      securityIssuesTable (db (snd r)) = securityIssuesTable (db w)
  end.
Proof.
  intros Hid r. subst r. unfold generateApiKey, catch_all_of, insertApiKey.
  run_step.
  match goal with |- context [existsb ?f ?l] =>
    destruct (existsb f l) eqn:Ex end; run_step.
  { cbn [fst snd data_of errorResponseOf status_of db]. split; reflexivity. }
  cbn [fst snd data_of successResponseOf status_of db akk_key akk_id akk_name
       ApiKey.id ApiKey.name apiKeysTable projectsTable analysisSessionsTable
       securityIssuesTable].
  rewrite existsb_false_iff in Ex.
  set (apiKey := generateApiKeyHelper random) in *.
  set (row := {| ApiKey.id := randomUUID E (uuid_calls w);
                 ApiKey.keyHash := hashApiKey E apiKey;
                 ApiKey.name := valid c;
                 ApiKey.usageCount := 0;
                 ApiKey.isActive := true;
                 ApiKey.createdAt := clock E (clock_calls w) |}) in *.
  set (d' := {| apiKeysTable := apiKeysTable (db w) ++ [row];
                projectsTable := projectsTable (db w);
                analysisSessionsTable := analysisSessionsTable (db w);
                securityIssuesTable := securityIssuesTable (db w) |}).
  assert (Hstart : JsString.startsWith apiKey (js "sk-") = true).
  { destruct (generateApiKeyHelper_prefix random) as (rest & Hr).
    apply startsWith_prefix. now exists rest. }
  assert (Hval : validateApiKey E d' apiKey
                 = Some (randomUUID E (uuid_calls w))).
  { apply (validateApiKey_appended E (db w) d' row apiKey);
      try reflexivity; try assumption.
    intros k Hk Heq. specialize (Ex k Hk).
    apply orb_false_iff in Ex as [_ Ex]. apply jseqb_neq in Ex.
    now apply Ex. }
  split; [reflexivity|]. split; [assumption|]. split; [reflexivity|].
  split; [assumption|]. split.
  { intros P c' Hc'. exists apiKey. split; [|split; [|assumption]].
    - apply bearer_token_of_header. exact Hc'.
    - destruct (generateApiKeyHelper_prefix random) as (rest & Hr).
      fold apiKey in Hr. rewrite Hr. reflexivity. }
  split.
  { intros k kid Hk.
    now apply (validateApiKey_kept E (db w) d' row). }
  repeat split.
Qed.

Lemma generated_key_authenticates_witness :
  let E := envOf (Ok []) in
  let r := generateApiKey E (fun _ => 0) (request "" (js "ci")) (world db0) in
  randomUUID E (uuid_calls (world db0)) <> [] /\
  status_of (fst r) = HttpStatusCodes.CREATED /\
  validateApiKey E (db (snd r)) (js "sk-" ++ repeat 65%N 48) = Some (js "id").
Proof.
  intros E r.
  assert (Hid : randomUUID E (uuid_calls (world db0)) <> []) by discriminate.
  split; [exact Hid|].
  pose proof (generated_key_authenticates E (fun _ => 0)
                (request "" (js "ci")) (world db0) Hid) as H.
  cbv zeta in H. fold r in H.
  assert (Hd : data_of (fst r)
               = Some {| akk_id := js "id";
                         akk_key := js "sk-" ++ repeat 65%N 48;
                         akk_name := js "ci"; akk_createdAt := 0;
                         akk_isActive := true; akk_usageCount := 0 |})
    by (vm_compute; reflexivity).
  rewrite Hd in H. destruct H as (H1 & _ & _ & H2 & _).
  split; [exact H1 | exact H2].
Defined.

(** ** The shape of a key *)

Lemma draw_in_range (x : Q) :
  0 <= x -> x < 1 ->
  (0 <= Qfloor (x * inject_Z (Z.of_nat (List.length chars))) < 62)%Z.
Proof.
  intros H0 H1. change (Z.of_nat (List.length chars)) with 62%Z. split.
  - rewrite <- (Qfloor_Z 0). apply Qfloor_resp_le.
    change (inject_Z 0) with 0. change (inject_Z 62) with 62. lra.
  - pose proof (Qfloor_le (x * inject_Z 62)) as Hle.
    rewrite Zlt_Qlt. change (inject_Z 62) with 62 in *. lra.
Qed.

Lemma charAt_in_range (s : jsstring) (n : Z) :
  (0 <= n < Z.of_nat (List.length s))%Z ->
  exists c, charAt s n = [c] /\ In c s.
Proof.
  intros [H0 H1]. unfold charAt.
  destruct (n <? 0)%Z eqn:En; [lia|].
  destruct (nth_error s (Z.to_nat n)) as [c|] eqn:Ec.
  - exists c. split; [reflexivity|]. eapply nth_error_In; eassumption.
  - apply nth_error_None in Ec. lia.
Qed.

Lemma fold_draws (f : nat -> jsstring) (alphabet : jsstring) (l : list nat) :
  (forall i, exists c, f i = [c] /\ In c alphabet) ->
  forall start, exists body,
    fold_left (fun result i => result ++ f i) l start = start ++ body
    /\ List.length body = List.length l
    /\ Forall (fun c => In c alphabet) body.
Proof.
  intro Hf. induction l as [|a l IH]; intro start; cbn [fold_left].
  - exists []. rewrite app_nil_r. repeat split. constructor.
  - destruct (IH (start ++ f a)) as (body & -> & Hlen & Hall).
    destruct (Hf a) as (c & -> & Hc). exists (c :: body).
    rewrite <- app_assoc. cbn [app List.length]. repeat split.
    + now rewrite Hlen.
    + now constructor.
Qed.

(** X24. A generated key is [sk-] followed by forty-eight characters of
    the alphabet, as long as every draw of [Math.random()] is at least
    zero and below one. *)
Theorem generated_key_shape (random : nat -> Q) :
  (forall i, 0 <= random i /\ random i < 1) ->
  exists body,
    generateApiKeyHelper random = js "sk-" ++ body
    /\ List.length body = 48%nat
    /\ Forall (fun c => In c chars) body.
Proof.
  intro Hr. unfold generateApiKeyHelper.
  destruct (fold_draws
              (fun i => charAt chars
                          (Qfloor (random i
                                   * inject_Z (Z.of_nat (List.length chars)))))
              chars (seq 0 48)) with (start := js "sk-")
    as (body & Hb & Hlen & Hall).
  - intro i. apply charAt_in_range. destruct (Hr i) as [H0 H1].
    pose proof (draw_in_range (random i) H0 H1) as H.
    change (Z.of_nat (List.length chars)) with 62%Z in *. exact H.
  - exists body. rewrite length_seq in Hlen. repeat split; assumption.
Qed.

Lemma generated_key_shape_witness :
  (forall i : nat, 0 <= (1 # 2) /\ (1 # 2) < 1) /\
  List.length (generateApiKeyHelper (fun _ => 1 # 2)) = 51%nat.
Proof.
  assert (Hr : forall i : nat, 0 <= (1 # 2) /\ (1 # 2) < 1)
    by (intro i; split; lra).
  split; [exact Hr|].
  destruct (generated_key_shape (fun _ => 1 # 2) Hr) as (body & -> & Hlen & _).
  rewrite length_app, Hlen. reflexivity.
Defined.

(** ** Deleting a key *)

Lemma hd_filter_filter {A} (f g : A -> bool) (l : list A) (x : A) :
  hd_error (filter f l) = Some x -> g x = true ->
  hd_error (filter f (filter g l)) = Some x.
Proof.
  induction l as [|a l IH]; cbn [filter]; [discriminate|].
  destruct (f a) eqn:Ef.
  - cbn [hd_error]. intros [= ->] Hg. rewrite Hg. cbn [filter].
    now rewrite Ef.
  - intros H Hg. destruct (g a); [cbn [filter]; rewrite Ef|]; now apply IH.
Qed.


(** ** The project routes an analysis depends on *)

Lemma createProject_run (E : Env) (c : Context CreateProject) (w : World)
      (apiKeyId : jsstring) :
  principal E (db w) c apiKeyId ->
  (forall p, In p (projectsTable (db w)) ->
             Project.id p <> randomUUID E (uuid_calls w)) ->
  createProject E c w
  = (successResponseOf (createdProject E w apiKeyId (valid c))
       (js "Project created successfully") HttpStatusCodes.CREATED,
     afterCreate w (createdProject E w apiKeyId (valid c))).
Proof.
  intros Hp Hfresh. unfold createProject, catch_all_of.
  rewrite (authenticatedOf_principal E c w apiKeyId _ Hp).
  unfold insertProject. run_step.
  cbn [Project.id].
  assert (Ex : existsb (fun p => JsString.eqb (Project.id p)
                                   (randomUUID E (uuid_calls w)))
                       (projectsTable (db w)) = false).
  { apply existsb_false_iff. intros p Hin. apply jseqb_neq. now apply Hfresh. }
  rewrite Ex. reflexivity.
Qed.

(** X26. A project belongs to the key that created it.  When the next
    identifier is not yet the id of a project, [createProject] by an
    authenticated caller answers 201 with the row it stored: the fields
    of the body, the status [active] when none is given, never analysed,
    under the caller's key.  From then on the ownership check says yes
    for this id and the caller's key and for no other key; the other
    tables are as before. *)
Theorem created_project_owned (E : Env) (c : Context CreateProject)
        (w : World) (apiKeyId : jsstring) :
  principal E (db w) c apiKeyId ->
  (forall p, In p (projectsTable (db w)) ->
             Project.id p <> randomUUID E (uuid_calls w)) ->
  exists p,
    fst (createProject E c w)
    = successResponseOf p (js "Project created successfully")
                        HttpStatusCodes.CREATED /\
    Project.apiKeyId p = apiKeyId /\
    Project.name p = cp_name (valid c) /\
    Project.content p = cp_content (valid c) /\
    Project.status p = or_text (cp_status (valid c)) (js "active") /\
    Project.lastAnalyzedAt p = None /\
    projectsTable (db (snd (createProject E c w)))
    = projectsTable (db w) ++ [p] /\
    (forall apiKeyId',
        verifyProjectOwnership (db (snd (createProject E c w)))
                               (Project.id p) apiKeyId' = true
        <-> apiKeyId' = apiKeyId) /\
    apiKeysTable (db (snd (createProject E c w))) = apiKeysTable (db w) /\
    sessions (snd (createProject E c w)) = sessions w /\
    issues (snd (createProject E c w)) = issues w.
Proof.
  intros Hp Hfresh. rewrite (createProject_run E c w apiKeyId Hp Hfresh).
  exists (createdProject E w apiKeyId (valid c)).
  repeat (split; [reflexivity|]). split; [|repeat split].
  intro kid'. cbn [fst snd afterCreate db]. split.
  - intro Ho. unfold verifyProjectOwnership in Ho.
    destruct (Sql.get _) as [p|] eqn:Eg; [|discriminate Ho].
    apply get_where_Some in Eg as [Hin Hc]. cbn [projectsTable] in Hin.
    apply andb_true_iff in Hc as [H1 H2].
    apply jseqb_eq in H1. apply jseqb_eq in H2.
    apply in_app_or in Hin as [Hin|[<-|[]]].
    + exfalso. now apply (Hfresh p Hin).
    + now rewrite <- H2.
  - intros ->. apply owns_project_verified.
    exists (createdProject E w apiKeyId (valid c)).
    cbn [projectsTable]. repeat split.
    apply in_or_app. right. now left.
Qed.

Lemma created_project_owned_witness :
  let E := envOf (Ok []) in
  let c := request "bob-secret"
             {| cp_name := js "api"; cp_type := js "folder";
                cp_sourceUrl := js "/srv/api"; cp_content := js "x = 1";
                cp_languageStats := None; cp_status := None |} in
  principal E (db (world db1)) c (js "bob") /\
  (forall p, In p (projectsTable (db (world db1))) ->
             Project.id p <> randomUUID E (uuid_calls (world db1))) /\
  verifyProjectOwnership (db (snd (createProject E c (world db1))))
                         (js "id") (js "bob") = true.
Proof.
  intros E c.
  assert (Hp : principal E (db (world db1)) c (js "bob")).
  { exists (js "bob-secret"). repeat split. }
  assert (Hf : forall p, In p (projectsTable (db (world db1))) ->
                         Project.id p <> randomUUID E (uuid_calls (world db1))).
  { intros p [<-|[]]. discriminate. }
  split; [exact Hp|]. split; [exact Hf|].
  destruct (created_project_owned E c (world db1) (js "bob") Hp Hf)
    as (p & H1 & _ & _ & _ & _ & _ & _ & Ho & _).
  injection H1 as <-. apply Ho. reflexivity.
Defined.

Lemma principal_same_keys {P Q} (E : Env) (d d' : DB) (c : Context P)
      (c' : Context Q) (apiKeyId : jsstring) :
  apiKeysTable d' = apiKeysTable d -> authorization c' = authorization c ->
  principal E d c apiKeyId -> principal E d' c' apiKeyId.
Proof.
  intros Hk Ha (apiKey & H1 & H2 & H3). exists apiKey.
  split; [|split; [assumption|]].
  - unfold getApiKeyFromHeader in *. now rewrite Ha.
  - unfold validateApiKey in *. now rewrite Hk.
Qed.

(** X27. What is created is what is analysed.  After [createProject]
    stored a project, [startAnalysis] by the same caller for the new id
    answers 201 for that project, and the findings it counts and scores
    are those [analyzeCode] returns for the content and the name of the
    body that created it.  (The next identifiers are new.) *)
Theorem create_then_analyse (E : Env) (c : Context CreateProject) (w : World)
        (apiKeyId : jsstring) :
  principal E (db w) c apiKeyId ->
  (forall p, In p (projectsTable (db w)) ->
             Project.id p <> randomUUID E (uuid_calls w)) ->
  fresh_session_id E (snd (createProject E c w)) ->
  exists vs s new,
    analyzeCode E (cp_content (valid c)) (cp_name (valid c)) = Ok vs /\
    fst (startAnalysis E
           {| authorization := authorization c;
              valid := randomUUID E (uuid_calls w) |}
           (snd (createProject E c w)))
    = successResponse [] (AnalysisResults s new)
        (js "Analysis completed successfully") HttpStatusCodes.CREATED /\
    AnalysisSession.projectId s = randomUUID E (uuid_calls w) /\
    AnalysisSession.totalIssues s = List.length vs /\
    AnalysisSession.overallScore s = Some (overallScore vs).
Proof.
  intros Hp Hfresh Hsession.
  rewrite (createProject_run E c w apiKeyId Hp Hfresh) in *.
  cbn [snd] in *.
  set (p := createdProject E w apiKeyId (valid c)) in *.
  set (c2 := {| authorization := authorization c;
                valid := randomUUID E (uuid_calls w) |}).
  assert (Hp2 : principal E (db (afterCreate w p)) c2 apiKeyId)
    by (apply (principal_same_keys E (db w) _ c c2); [reflexivity.. | exact Hp]).
  assert (Ho : verifyProjectOwnership (db (afterCreate w p)) (valid c2)
                                      apiKeyId = true).
  { apply owns_project_verified. exists p. repeat split.
    cbn [afterCreate db projectsTable]. apply in_or_app. right. now left. }
  destruct (startAnalysis_completed E c2 (afterCreate w p) apiKeyId
              Hp2 Ho Hsession) as (project & vs & stored & w2 & H).
  destruct H as (_ & _ & _ & Hget & Hvs & _ & ->).
  assert (Hproject : project = p).
  { apply get_where_Some in Hget as [Hin Hc]. apply jseqb_eq in Hc.
    cbn [afterCreate db projectsTable] in Hin.
    apply in_app_or in Hin as [Hin|[<-|[]]]; [|reflexivity].
    exfalso. exact (Hfresh project Hin Hc). }
  subst project.
  exists vs, (sessionRowOf E (afterCreate w p) (valid c2) vs), stored.
  repeat split. exact Hvs.
Qed.

Lemma create_then_analyse_witness :
  let E := envOf (Ok answer_two_findings) in
  let c := request "bob-secret"
             {| cp_name := js "api"; cp_type := js "folder";
                cp_sourceUrl := js "/srv/api"; cp_content := js "x = 1";
                cp_languageStats := None; cp_status := None |} in
  principal E (db (world db0)) c (js "bob") /\
  (forall p, In p (projectsTable (db (world db0))) ->
             Project.id p <> randomUUID E (uuid_calls (world db0))) /\
  fresh_session_id E (snd (createProject E c (world db0))) /\
  status (fst (startAnalysis E
                 {| authorization := authorization c;
                    valid := randomUUID E (uuid_calls (world db0)) |}
                 (snd (createProject E c (world db0)))))
  = HttpStatusCodes.CREATED.
Proof.
  intros E c.
  assert (Hp : principal E (db (world db0)) c (js "bob")).
  { exists (js "bob-secret"). repeat split. }
  assert (Hf : forall p, In p (projectsTable (db (world db0))) ->
                         Project.id p <> randomUUID E (uuid_calls (world db0))).
  { intros p [<-|[]]. discriminate. }
  assert (Hs : fresh_session_id E (snd (createProject E c (world db0))))
    by (intros s []).
  split; [exact Hp|]. split; [exact Hf|]. split; [exact Hs|].
  destruct (create_then_analyse E c (world db0) (js "bob") Hp Hf Hs)
    as (vs & s & new & _ & H & _).
  rewrite H. reflexivity.
Defined.

(** ** The history of a project *)

(** X28. [getProjectHistory] shows the sessions of a project to the key
    that owns it and to no one else: it answers 401, 404 or 500 without
    data, or 200 with exactly the sessions of the store that name the
    project, and then the caller's key owns the project.  The world is
    never changed. *)
Theorem getProjectHistory_outcome (E : Env) (c : Context jsstring)
        (w : World) :
  snd (getProjectHistory E c w) = w /\
  match data_of (fst (getProjectHistory E c w)) with
  | None =>
      In (status_of (fst (getProjectHistory E c w)))
         [HttpStatusCodes.UNAUTHORIZED; HttpStatusCodes.NOT_FOUND;
          HttpStatusCodes.INTERNAL_SERVER_ERROR]
  | Some analysisHistory =>
      status_of (fst (getProjectHistory E c w)) = HttpStatusCodes.OK /\
      exists apiKeyId,
        principal E (db w) c apiKeyId /\
        owns_project (db w) apiKeyId (valid c) /\
        forall s, In s analysisHistory
                  <-> In s (sessions w)
                      /\ AnalysisSession.projectId s = valid c
  end.
Proof.
  unfold getProjectHistory, catch_all_of.
  match goal with |- context [authenticatedOf E c ?f w] => set (k := f) end.
  destruct (authenticatedOf_cases E c w k) as [(msg & ->)|(kid & Hp & ->)].
  { split; [reflexivity|]. cbn. now left. }
  subst k. run_step.
  destruct (Sql.get _) as [project|] eqn:Eg.
  2:{ split; [reflexivity|]. cbn. right. now left. }
  split; [reflexivity|]. cbn [fst data_of successResponseOf status_of].
  split; [reflexivity|]. exists kid. split; [assumption|]. split.
  - apply get_where_Some in Eg as [Hin Hc].
    apply andb_true_iff in Hc as [H1 H2].
    apply jseqb_eq in H1. apply jseqb_eq in H2. now exists project.
  - intro s. unfold Sql.where_, sessions.
    rewrite filter_In, jseqb_eq. reflexivity.
Qed.

(** X29. An analysis shows up in the history of its project: after
    [startAnalysis] answered 201 for a caller, [getProjectHistory] for
    the same request answers 200 with a list that holds the session of
    the 201 answer. *)
Theorem start_then_history (E : Env) (c : Context jsstring) (w : World)
        (apiKeyId : jsstring) :
  principal E (db w) c apiKeyId ->
  owns_project (db w) apiKeyId (valid c) ->
  fresh_session_id E w ->
  exists s new analysisHistory,
    fst (startAnalysis E c w)
    = successResponse [] (AnalysisResults s new)
        (js "Analysis completed successfully") HttpStatusCodes.CREATED /\
    fst (getProjectHistory E c (snd (startAnalysis E c w)))
    = successResponseOf analysisHistory
        (js "Project analysis history retrieved successfully")
        HttpStatusCodes.OK /\
    In s analysisHistory.
Proof.
  intros Hp Ho Hs. pose proof (owns_project_verified _ _ _ Ho) as Hv.
  destruct (startAnalysis_completed E c w apiKeyId Hp Hv Hs)
    as (project & vs & stored & w2 & H).
  destruct (completed_world _ _ _ _ _ _ _ _ _ H) as (-> & _ & _ & Hin & Hid).
  destruct H as (_ & _ & _ & _ & _ & _ & ->).
  cbn [fst snd].
  set (w3 := afterTouch E project _).
  assert (Hp3 : principal E (db w3) c apiKeyId)
    by (apply (principal_same_keys E (db w) _ c c);
        [reflexivity.. | exact Hp]).
  assert (Ho3 : owns_project (db w3) apiKeyId (valid c)).
  { destruct Ho as (p & Hpin & Hpid & Hpk).
    exists (if JsString.eqb (Project.id p) (Project.id project)
            then Project.touch (clock E (clock_calls (afterStore
                                  (afterSession w (sessionRowOf E w (valid c) vs))
                                  (List.length vs) stored)))
                               (clock E (S (clock_calls (afterStore
                                  (afterSession w (sessionRowOf E w (valid c) vs))
                                  (List.length vs) stored)))) p
            else p).
    split; [|destruct (JsString.eqb (Project.id p) (Project.id project));
             now split].
    unfold w3, afterTouch, Sql.update.
    cbn [db projectsTable fst afterStore afterSession].
    apply in_map_iff. exists p. split; [reflexivity | assumption]. }
  apply owns_project_verified in Ho3. unfold verifyProjectOwnership in Ho3.
  destruct (Sql.get _) as [p3|] eqn:Hget in Ho3; [clear Ho3 | discriminate Ho3].
  unfold getProjectHistory, catch_all_of.
  rewrite (authenticatedOf_principal E c w3 apiKeyId _ Hp3). run_step.
  rewrite Hget.
  eexists _, _, _. split; [reflexivity|]. split; [reflexivity|].
  unfold Sql.where_. apply filter_In. split.
  - unfold w3. cbn [afterTouch afterStore afterSession db
                    analysisSessionsTable].
    apply in_or_app. right. now left.
  - apply jseqb_refl.
Qed.

Lemma start_then_history_witness :
  let E := envOf (Ok answer_two_findings) in
  let c := request "alice-secret" (js "p1") in
  principal E (db (world db0)) c (js "alice") /\
  owns_project (db (world db0)) (js "alice") (valid c) /\
  fresh_session_id E (world db0) /\
  status_of (fst (getProjectHistory E c
                    (snd (startAnalysis E c (world db0)))))
  = HttpStatusCodes.OK.
Proof.
  intros E c.
  assert (Hp : principal E (db (world db0)) c (js "alice")).
  { exists (js "alice-secret"). repeat split. }
  assert (Ho : owns_project (db (world db0)) (js "alice") (valid c)).
  { exists project1. repeat split. now left. }
  assert (Hs : fresh_session_id E (world db0)) by (intros s []).
  split; [exact Hp|]. split; [exact Ho|]. split; [exact Hs|].
  destruct (start_then_history E c (world db0) (js "alice") Hp Ho Hs)
    as (s & new & h & _ & H & _).
  rewrite H. reflexivity.
Defined.

(** ** Deleting a project *)

Lemma In_fold_filter (ss : list AnalysisSession.t) :
  forall (l : list SecurityIssue.t) (i : SecurityIssue.t),
    In i (fold_left
            (fun issues session =>
               filter (fun i => negb (JsString.eqb
                                        (SecurityIssue.analysisSessionId i)
                                        (AnalysisSession.id session)))
                      issues) ss l)
    <-> In i l /\ forall s, In s ss ->
                            SecurityIssue.analysisSessionId i
                            <> AnalysisSession.id s.
Proof.
  induction ss as [|s ss IH]; intros l i; cbn [fold_left].
  - split; [intro H; split; [assumption | intros s []] | tauto].
  - rewrite IH, filter_In, negb_true_iff, jseqb_neq. split.
    + intros [[Hin Hs] Hss]. split; [assumption|].
      intros s' [<-|Hs']; [assumption | now apply Hss].
    + intros [Hin Hall]. split; [split; [assumption|]|].
      * apply Hall. now left.
      * intros s' Hs'. apply Hall. now right.
Qed.

Lemma blocked_false {A B} (refers : A -> B -> bool) (children : list A)
      (deleted : list B) :
  blocked refers children deleted = false
  <-> forall a b, In a children -> In b deleted -> refers a b = false.
Proof.
  unfold blocked. rewrite existsb_false_iff. split.
  - intros H a b Ha Hb. specialize (H a Ha).
    rewrite existsb_false_iff in H. now apply H.
  - intros H a Ha. apply existsb_false_iff. intros b Hb. now apply H.
Qed.

Lemma blocked_true {A B} (refers : A -> B -> bool) (children : list A)
      (deleted : list B) :
  blocked refers children deleted = true
  <-> exists a b, In a children /\ In b deleted /\ refers a b = true.
Proof.
  unfold blocked. rewrite existsb_exists. split.
  - intros (a & Ha & H). apply existsb_exists in H as (b & Hb & H).
    now exists a, b.
  - intros (a & b & Ha & Hb & H). exists a. split; [assumption|].
    apply existsb_exists. now exists b.
Qed.

(** X30. [deleteProject] removes a project with everything that hangs
    on it, and nothing else, for the key that owns it.  It answers 401
    or 404 and leaves the store as it was; or the caller owns the
    project, and then the findings of its sessions and its chat messages
    are gone and all others are kept.  If no chat message of another
    project names one of its sessions the answer is 200 and the sessions
    of the project and the project are gone too, all others kept.  If one
    does, the store refuses to delete the sessions: the answer is 500,
    and the project and its sessions are still there although its
    findings and chat messages are already deleted. *)
Theorem deleteProject_cascade (E : Env) (c : Context jsstring) (st : Store) :
  let r := deleteProject E c st in
  let d := db (main st) in
  let d' := db (main (snd r)) in
  (In (status_of (fst r)) [HttpStatusCodes.UNAUTHORIZED;
                           HttpStatusCodes.NOT_FOUND] /\ snd r = st)
  \/ (exists apiKeyId,
        principal E d c apiKeyId /\ owns_project d apiKeyId (valid c)) /\
     children_gone st (snd r) (valid c) /\
     ((status_of (fst r) = HttpStatusCodes.OK /\
       success_of (fst r) = true /\
       ~ named_elsewhere st (valid c) /\
       (forall p, In p (projectsTable d')
                  <-> In p (projectsTable d) /\ Project.id p <> valid c) /\
       (forall s, In s (analysisSessionsTable d')
                  <-> In s (analysisSessionsTable d)
                      /\ AnalysisSession.projectId s <> valid c))
      \/ (status_of (fst r) = HttpStatusCodes.INTERNAL_SERVER_ERROR /\
          named_elsewhere st (valid c) /\
          projectsTable d' = projectsTable d /\
          analysisSessionsTable d' = analysisSessionsTable d)).
Proof.
  intros r d d'. subst r d d'. unfold deleteProject.
  destruct (getApiKeyFromHeader c) as [apiKey|] eqn:Hk.
  2:{ left. split; [now left | reflexivity]. }
  destruct (JsString.falsy apiKey) eqn:Hf.
  { left. split; [now left | reflexivity]. }
  destruct (validateApiKey E (db (main st)) apiKey) as [kid|] eqn:Hv.
  2:{ left. split; [now left | reflexivity]. }
  destruct (Sql.get _) as [existingProject|] eqn:Eg.
  2:{ left. split; [right; now left | reflexivity]. }
  right. split.
  { exists kid. split; [now exists apiKey|].
    apply get_where_Some in Eg as [Hin Hc].
    apply andb_true_iff in Hc as [H1 H2].
    apply jseqb_eq in H1. apply jseqb_eq in H2. now exists existingProject. }
  set (sessionsOf := Sql.where_ _ (analysisSessionsTable (db (main st)))).
  set (issues1 := fold_left _ sessionsOf _).
  set (chat1 := filter _ (chatMessagesTable st)).
  assert (HsessionsOf : forall s, In s sessionsOf
            <-> In s (analysisSessionsTable (db (main st)))
                /\ AnalysisSession.projectId s = valid c).
  { intro s. unfold sessionsOf, Sql.where_. now rewrite filter_In, jseqb_eq. }
  assert (Hissues : forall i, In i issues1
            <-> In i (securityIssuesTable (db (main st)))
                /\ forall s, In s (analysisSessionsTable (db (main st))) ->
                             AnalysisSession.projectId s = valid c ->
                             SecurityIssue.analysisSessionId i
                             <> AnalysisSession.id s).
  { intro i. unfold issues1. rewrite In_fold_filter. split.
    - intros [Hi Hall]. split; [assumption|]. intros s Hs Hp.
      apply Hall. apply HsessionsOf. now split.
    - intros [Hi Hall]. split; [assumption|]. intros s Hs.
      apply HsessionsOf in Hs as [Hs Hp]. now apply Hall. }
  assert (Hchat : forall m, In m chat1
            <-> In m (chatMessagesTable st)
                /\ ChatMessage.projectId m <> valid c).
  { intro m. unfold chat1. now rewrite filter_In, negb_true_iff, jseqb_neq. }
  assert (Hb1 : blocked (fun i s => JsString.eqb
                                      (SecurityIssue.analysisSessionId i)
                                      (AnalysisSession.id s))
                        issues1 sessionsOf = false).
  { apply blocked_false. intros i s Hi Hs. apply jseqb_neq.
    apply Hissues in Hi as [_ Hall]. apply HsessionsOf in Hs as [Hs Hp].
    now apply Hall. }
  rewrite Hb1. cbn [orb].
  destruct (blocked _ chat1 sessionsOf) eqn:Hb2.
  - (* the store refuses to delete the sessions *)
    cbn [fst snd withTables main db chatMessagesTable apiKeysTable
         projectsTable analysisSessionsTable securityIssuesTable
         status_of errorResponseOf].
    split; [split; [reflexivity | split; assumption]|].
    right. split; [reflexivity|]. split; [|split; reflexivity].
    apply blocked_true in Hb2 as (m & s & Hm & Hs & Href).
    apply Hchat in Hm as [Hm Hpm]. apply HsessionsOf in Hs as [Hs Hps].
    apply eq_null_true in Href. now exists m, s.
  - set (sessions1 := filter _ (analysisSessionsTable (db (main st)))).
    set (deleted := Sql.where_ _ (projectsTable (db (main st)))).
    assert (Hsessions : forall s, In s sessions1
              <-> In s (analysisSessionsTable (db (main st)))
                  /\ AnalysisSession.projectId s <> valid c).
    { intro s. unfold sessions1.
      now rewrite filter_In, negb_true_iff, jseqb_neq. }
    assert (Hdeleted : forall p, In p deleted -> Project.id p = valid c).
    { intros p Hp. unfold deleted, Sql.where_ in Hp.
      apply filter_In in Hp as [_ Hp]. now apply jseqb_eq. }
    assert (Hb3 : blocked (fun s p => JsString.eqb
                                        (AnalysisSession.projectId s)
                                        (Project.id p))
                          sessions1 deleted = false).
    { apply blocked_false. intros s p Hs Hp. apply jseqb_neq.
      apply Hsessions in Hs as [_ Hs]. rewrite (Hdeleted p Hp). exact Hs. }
    assert (Hb4 : blocked (fun m p => JsString.eqb (ChatMessage.projectId m)
                                                   (Project.id p))
                          chat1 deleted = false).
    { apply blocked_false. intros m p Hm Hp. apply jseqb_neq.
      apply Hchat in Hm as [_ Hm]. rewrite (Hdeleted p Hp). exact Hm. }
    rewrite Hb3, Hb4. cbn [orb].
    cbn [fst snd withTables main db chatMessagesTable apiKeysTable
         projectsTable analysisSessionsTable securityIssuesTable
         status_of success_of successResponseNull].
    split; [split; [reflexivity | split; assumption]|].
    left. split; [reflexivity|]. split; [reflexivity|]. split; [|split].
    + intros (m & s & Hm & Hpm & Hs & Hps & Href).
      rewrite blocked_false in Hb2.
      assert (Hm1 : In m chat1) by (apply Hchat; now split).
      assert (Hs1 : In s sessionsOf) by (apply HsessionsOf; now split).
      specialize (Hb2 m s Hm1 Hs1). rewrite Href in Hb2. cbn in Hb2.
      rewrite jseqb_refl in Hb2. discriminate Hb2.
    + intro p. now rewrite filter_In, negb_true_iff, jseqb_neq.
    + exact Hsessions.
Qed.
